(** * A shallow embedding of the RISC-V disassembler (elf_parser.cpp)

    The development follows the source file from top to bottom: the bit
    extractor ([get_unsigned], [get_signed], [get_segment]), the register
    namer ([get_reg]), the emitter ([print_cmd]), the decoder and driver
    loop ([parse_text]) and the symbol-table dump ([parse_symtab]).

    Conventions.
    - Machine integers are [Z] with the wrap-around written out:
      [wrap32] for [std::uint32_t], [to_int32] for [int], [to_size_t] for
      [std::size_t].
    - A C++ call can end in four ways, recorded by [outcome]: a value, a
      thrown [std::invalid_argument], a stream failure (the stream is
      opened with [failbit | eofbit] exceptions in main.cpp) or undefined
      behaviour.
    - The input stream is the list of bytes of the file and a read
      position; the tags are a finite map from addresses to names. *)

From Stdlib Require Import ZArith String Ascii List Lia Bool.
From Stdlib Require Import Strings.Byte DecimalString.
From stdpp Require Import gmap strings.

Local Open Scope string_scope.
Local Open Scope Z_scope.

(** ** Outcomes of a call *)

Inductive outcome (A : Type) : Type :=
| Ret (a : A)
| Throw (what : string)
| IoFailure
| Undefined.

Arguments Ret {A} a.
Arguments Throw {A} what.
Arguments IoFailure {A}.
Arguments Undefined {A}.

Definition bind {A B : Type} (m : outcome A) (k : A -> outcome B) : outcome B :=
  match m with
  | Ret a => k a
  | Throw what => Throw what
  | IoFailure => IoFailure
  | Undefined => Undefined
  end.

Notation "'do' x <- m ; k" := (bind m (fun x => k))
  (at level 10, x name, m at level 100, k at level 200).

(** ** Machine integers *)

Definition wrap32 (z : Z) : Z := z mod 2 ^ 32.

Definition to_size_t (z : Z) : Z := z mod 2 ^ 64.

(** Conversion of a 32-bit pattern to [int]. *)
Definition to_int32 (z : Z) : Z :=
  let u := wrap32 z in if u <? 2 ^ 31 then u else u - 2 ^ 32.

Definition shl32 (a n : Z) : Z := wrap32 (Z.shiftl a n).

Definition add32 (a b : Z) : Z := wrap32 (a + b).

(** [std::to_string] on an integer: plain decimal, with a minus sign. *)
Definition to_string (z : Z) : string :=
  DecimalString.NilZero.string_of_int (Z.to_int z).

(** ** Bit extractor *)

(** The loop of [get_unsigned]: [for (std::size_t i = l; i <= r; i++)].
    [r_sz] is [r] converted to [std::size_t], as the comparison does.
    Shifting the 32-bit [value] by 32 or more is undefined, so the loop
    either leaves or stops there; 33 rounds of fuel are never used up.
    Where the body runs, [i - l] lies between 0 and 31. *)
Fixpoint get_unsigned_loop (fuel : nat) (value l r_sz i result : Z) : outcome Z :=
  if r_sz <? i then Ret result
  else
    match fuel with
    | O => Undefined
    | S fuel' =>
        if 32 <=? i then Undefined
        else
          let result' :=
            if Z.testbit value i
            then Z.lor result (Z.shiftl 1 (i - l))
            else result in
          get_unsigned_loop fuel' value l r_sz (to_size_t (i + 1)) result'
    end.

Definition get_unsigned (value l r : Z) : outcome Z :=
  get_unsigned_loop 33 value l (to_size_t r) (to_size_t l) 0.

(** The loop of [get_signed]: [for (int i = l; i < r; i++)], collecting the
    complemented bits. *)
Fixpoint get_signed_loop (fuel : nat) (value l r i result : Z) : outcome Z :=
  if r <=? i then Ret result
  else
    match fuel with
    | O => Undefined
    | S fuel' =>
        if (i <? 0) || (32 <=? i) then Undefined
        else
          let result' :=
            if Z.testbit value i
            then result
            else Z.lor result (Z.shiftl 1 (i - l)) in
          get_signed_loop fuel' value l r (i + 1) result'
    end.

Definition get_signed (value l r : Z) : outcome Z :=
  if (r <? 0) || (32 <=? r) then Undefined
  else if Z.testbit value r then
    do result <- get_signed_loop 33 value l r l 0;
    Ret (- result - 1)
  else
    do u <- get_unsigned value l (r - 1);
    Ret (to_int32 u).

(** The field [value[r:l]] as the specification describes it. *)
Definition bitfield (value l r : Z) : Z :=
  Z.land (Z.shiftr value l) (Z.ones (r - l + 1)).

(** ** Bit strings *)

(** [std::bitset<n>(cmd).to_string()]: [n] characters, most significant
    bit first. *)
Fixpoint bitset_to_string (n : nat) (cmd : Z) : string :=
  match n with
  | O => EmptyString
  | S k =>
      String (if Z.testbit cmd (Z.of_nat k) then "1"%char else "0"%char)
             (bitset_to_string k cmd)
  end.

(** [get_segment] on a 16-bit and on a 32-bit command.  Every call site
    passes literal bounds with [0 <= l <= r < width]. *)
Definition get_segment16 (cmd : Z) (l r : Z) : string :=
  substring (Z.to_nat (16 - r - 1)) (Z.to_nat (r - l + 1)) (bitset_to_string 16 cmd).

Definition get_segment32 (cmd : Z) (l r : Z) : string :=
  substring (Z.to_nat (32 - r - 1)) (Z.to_nat (r - l + 1)) (bitset_to_string 32 cmd).

(** ** Register namer *)

Definition get_reg (id : Z) : outcome string :=
  if id =? 0 then Ret "zero"
  else if id =? 1 then Ret "ra"
  else if id =? 2 then Ret "sp"
  else if id =? 3 then Ret "gp"
  else if id =? 4 then Ret "tp"
  else if (5 <=? id) && (id <=? 7) then Ret ("t" +:+ to_string (id - 5))
  else if (id =? 8) || (id =? 9) then Ret ("s" +:+ to_string (id - 8))
  else if (10 <=? id) && (id <=? 17) then Ret ("a" +:+ to_string (id - 10))
  else if (18 <=? id) && (id <=? 27) then Ret ("s" +:+ to_string (id - 16))
  else if (28 <=? id) && (id <=? 31) then Ret ("t" +:+ to_string (id - 25))
  else Throw "unknown register".

(** ** Formatted output

    The source formats every line with [sprintf].  The model interprets the
    format string as the C library does, for the directives the source
    uses: the flag [-], the flag [0] on [x] and [X], a decimal field width,
    and the conversions [s], [d], [i], [x] and [X].  A numeric argument is
    kept as an integer and converted by the directive ([d]/[i] read it as
    [int], [x]/[X] as [unsigned]).  A directive without a fitting argument
    is undefined, and so is here every directive outside this list. *)

Inductive vararg : Type :=
| ArgStr (s : string)
| ArgNum (z : Z).

Inductive fmt_state : Type :=
| Literal
| Flags (minus zero : bool)
| Width (minus zero : bool) (width : nat).

Definition LF : string := String "010"%char EmptyString.

Fixpoint replicate_char (n : nat) (c : ascii) : string :=
  match n with
  | O => EmptyString
  | S k => String c (replicate_char k c)
  end.

(** [std::string(n, ' ')]. *)
Definition spaces (n : nat) : string := replicate_char n " "%char.

(** Padding of a converted argument to the field width. *)
Definition pad (minus zero : bool) (width : option nat) (body : string) : string :=
  let fill := (default 0%nat width - String.length body)%nat in
  if minus then body +:+ spaces fill
  else if zero then replicate_char fill "0"%char +:+ body
  else spaces fill +:+ body.

Definition hex_digit (d : Z) : ascii :=
  nth (Z.to_nat d) (list_ascii_of_string "0123456789abcdef") "0"%char.

(** The digits of a 32-bit value in base 16, least significant first,
    pushed in front of [acc]; there are at most eight of them. *)
Fixpoint hex_digits (fuel : nat) (n : Z) (acc : string) : string :=
  match fuel with
  | O => acc
  | S fuel' =>
      let acc' := String (hex_digit (n mod 16)) acc in
      if n / 16 =? 0 then acc' else hex_digits fuel' (n / 16) acc'
  end.

Definition hex_lower (z : Z) : string := hex_digits 8 z EmptyString.

Definition upper_char (c : ascii) : ascii :=
  let n := nat_of_ascii c in
  if ((97 <=? n) && (n <=? 122))%nat then ascii_of_nat (n - 32) else c.

Fixpoint upper (s : string) : string :=
  match s with
  | EmptyString => EmptyString
  | String c rest => String (upper_char c) (upper rest)
  end.

Definition hex_upper (z : Z) : string := upper (hex_lower z).

Definition is_digit (c : ascii) : bool :=
  let n := nat_of_ascii c in ((48 <=? n) && (n <=? 57))%nat.

Definition convert (conv : ascii) (minus zero : bool) (width : option nat)
    (a : vararg) : outcome string :=
  match conv, a with
  | "s"%char, ArgStr s => if zero then Undefined else Ret (pad minus false width s)
  | "d"%char, ArgNum z | "i"%char, ArgNum z =>
      if zero then Undefined else Ret (pad minus false width (to_string (to_int32 z)))
  | "x"%char, ArgNum z => Ret (pad minus zero width (hex_lower (wrap32 z)))
  | "X"%char, ArgNum z => Ret (pad minus zero width (hex_upper (wrap32 z)))
  | _, _ => Undefined
  end.

Fixpoint sprintf_from (st : fmt_state) (fmt : string) (va : list vararg) : outcome string :=
  match fmt with
  | EmptyString =>
      match st with
      | Literal => Ret EmptyString
      | _ => Undefined
      end
  | String c rest =>
      let conversion minus zero width :=
        match va with
        | [] => Undefined
        | a :: va' =>
            do field <- convert c minus zero width a;
            do out <- sprintf_from Literal rest va';
            Ret (field +:+ out)
        end in
      match st with
      | Literal =>
          if Ascii.eqb c "%"%char then sprintf_from (Flags false false) rest va
          else
            do out <- sprintf_from Literal rest va;
            Ret (String c out)
      | Flags minus zero =>
          if Ascii.eqb c "-"%char then sprintf_from (Flags true zero) rest va
          else if Ascii.eqb c "0"%char then sprintf_from (Flags minus true) rest va
          else if is_digit c then
            sprintf_from (Width minus zero (nat_of_ascii c - 48)) rest va
          else conversion minus zero None
      | Width minus zero width =>
          if is_digit c then
            sprintf_from (Width minus zero (10 * width + (nat_of_ascii c - 48))) rest va
          else conversion minus zero (Some width)
      end
  end.

(** [sprintf] into a buffer of [size] bytes: the text and its terminating
    zero byte have to fit. *)
Definition sprintf (size : Z) (fmt : string) (va : list vararg) : outcome string :=
  do out <- sprintf_from Literal fmt va;
  if Z.of_nat (String.length out) <? size then Ret out else Undefined.

Definition MAX_LENGTH : Z := 10000.

(** ** Emitter *)

Notation "s == t" := (String.eqb s t) (at level 70, no associativity).

(** Turns the failure of one call into the failure of its caller. *)
Definition rethrow {A B : Type} (m : outcome A) : outcome B :=
  do _x <- m; Undefined.

Definition print_format (is_load_store : bool) (i : nat) : string :=
  nth i
    (if is_load_store
     then ["%s()" +:+ LF; "%s(%s)" +:+ LF; "%s %s(%s)" +:+ LF; "%s %s, %s(%s)" +:+ LF]
     else ["%s" +:+ LF; "%s %s" +:+ LF; "%s %s, %s" +:+ LF; "%s %s, %s, %s" +:+ LF])
    EmptyString.

(** The first half of [print_cmd]: the address and the label. *)
Definition print_title (adr : Z) (tag : string) : outcome string :=
  if tag == "" then
    do buf_title <- sprintf 25 "%08x" [ArgNum adr];
    Ret (buf_title +:+ spaces 13)
  else
    sprintf MAX_LENGTH "%08x %10s: " [ArgNum adr; ArgStr tag].

(** The second half: the [switch] on [args.size()]. *)
Definition print_args (args : list string) (is_load_store : bool) : outcome string :=
  match args with
  | [a0] => sprintf MAX_LENGTH (print_format is_load_store 0) [ArgStr a0]
  | [a0; a1] => sprintf MAX_LENGTH (print_format is_load_store 1) [ArgStr a0; ArgStr a1]
  | [a0; a1; a2] =>
      sprintf MAX_LENGTH (print_format is_load_store 2) [ArgStr a0; ArgStr a1; ArgStr a2]
  | [a0; a1; a2; a3] =>
      sprintf MAX_LENGTH (print_format is_load_store 3)
        [ArgStr a0; ArgStr a1; ArgStr a2; ArgStr a3]
  | _ => Throw "wrong number of arguments for print_cmd function"
  end.

(** [print_cmd] returns what it wrote to [out] and how it ended: the title
    is written before the arguments are looked at. *)
Definition print_cmd (adr : Z) (tag : string) (args : list string)
    (is_load_store : bool) : string * outcome unit :=
  match print_title adr tag with
  | Ret title =>
      match print_args args is_load_store with
      | Ret body => (title +:+ body, Ret tt)
      | failure => (title, rethrow failure)
      end
  | failure => (EmptyString, rethrow failure)
  end.

(** ** Input stream *)

Record ifstream : Type := { file : list byte; tellg : Z }.

Definition seekg (s : ifstream) (pos : Z) : ifstream :=
  {| file := file s; tellg := pos |}.

Definition byte_at (s : ifstream) (pos : Z) : option Z :=
  if pos <? 0 then None
  else option_map (fun b => Z.of_N (Byte.to_N b)) (nth_error (file s) (Z.to_nat pos)).

(** [in.read] of a little-endian 16-bit value.  A short read sets
    [failbit | eofbit], which main.cpp has turned into an exception. *)
Definition read16 (s : ifstream) : outcome (Z * ifstream) :=
  match byte_at s (tellg s), byte_at s (tellg s + 1) with
  | Some b0, Some b1 => Ret (Z.lor b0 (Z.shiftl b1 8), seekg s (tellg s + 2))
  | _, _ => IoFailure
  end.

Definition get_cmd32 (s : ifstream) (cmd16 : Z) : outcome (Z * ifstream) :=
  let cmd32 := cmd16 in
  do r <- read16 s;
  Ret (Z.lor (shl32 (fst r) 16) cmd32, snd r).

(** ** Decoder *)

(** What [parse_text] collects for one command before it prints it. *)
Record decoded : Type :=
  { cmd_name : string; args : list string; is_load_store : bool }.

(** The state of [cmd_name], [args] and [is_load_store] when no case
    matched. *)
Definition no_command : decoded :=
  {| cmd_name := EmptyString; args := []; is_load_store := false |}.

(** [get_reg(get_unsigned(cmd, l, r))] and
    [get_reg(get_unsigned(cmd, l, r) + 8)]. *)
Definition reg_field (cmd l r : Z) : outcome string :=
  do id <- get_unsigned cmd l r;
  get_reg id.

Definition reg_field8 (cmd l r : Z) : outcome string :=
  do id <- get_unsigned cmd l r;
  get_reg (add32 id 8).

(** The operand of a jump or branch:
    [tags.count(adr + value) ? tags[adr + value] : std::to_string(value)],
    the sum being taken in [std::uint32_t]. *)
Definition resolve (tags : gmap Z string) (adr value : Z) : string :=
  match tags !! add32 adr value with
  | Some name => name
  | None => to_string value
  end.

(** *** Immediates *)

(** [(get_unsigned(cmd16, 12, 12) << 5) + get_unsigned(cmd16, 2, 6)]. *)
Definition uimm6 (cmd16 : Z) : outcome Z :=
  do hi <- get_unsigned cmd16 12 12;
  do lo <- get_unsigned cmd16 2 6;
  Ret (add32 (shl32 hi 5) lo).

Definition imm6 (cmd16 : Z) : outcome Z :=
  do u <- uimm6 cmd16;
  get_signed u 0 5.

(** Offset of [c.jal] and [c.j]. *)
Definition cj_value (cmd16 : Z) : outcome Z :=
  do b12 <- get_unsigned cmd16 12 12;
  do b11 <- get_unsigned cmd16 11 11;
  do b9 <- get_unsigned cmd16 9 10;
  do b8 <- get_unsigned cmd16 8 8;
  do b7 <- get_unsigned cmd16 7 7;
  do b6 <- get_unsigned cmd16 6 6;
  do b3 <- get_unsigned cmd16 3 5;
  do b2 <- get_unsigned cmd16 2 2;
  let uvalue :=
    add32 (add32 (add32 (add32 (add32 (add32 (add32
      (shl32 b12 11) (shl32 b11 4)) (shl32 b9 8)) (shl32 b8 10))
      (shl32 b7 6)) (shl32 b6 7)) (shl32 b3 1)) (shl32 b2 5) in
  get_signed uvalue 0 11.

(** Offset of [c.beqz] and [c.bnez]. *)
Definition cb_value (cmd16 : Z) : outcome Z :=
  do b12 <- get_unsigned cmd16 12 12;
  do b10 <- get_unsigned cmd16 10 11;
  do b5 <- get_unsigned cmd16 5 6;
  do b3 <- get_unsigned cmd16 3 4;
  do b2 <- get_unsigned cmd16 2 2;
  let uvalue :=
    add32 (add32 (add32 (add32
      (shl32 b12 8) (shl32 b10 3)) (shl32 b5 6)) (shl32 b3 1)) (shl32 b2 5) in
  get_signed uvalue 0 8.

(** Offset of [jal]. *)
Definition jal_value (cmd32 : Z) : outcome Z :=
  do b31 <- get_unsigned cmd32 31 31;
  do b21 <- get_unsigned cmd32 21 30;
  do b20 <- get_unsigned cmd32 20 20;
  do b12 <- get_unsigned cmd32 12 19;
  let uvalue :=
    add32 (add32 (add32 (shl32 b31 20) (shl32 b21 1)) (shl32 b20 11)) (shl32 b12 12) in
  get_signed uvalue 0 20.

(** Offset of the conditional branches. *)
Definition branch_value (cmd32 : Z) : outcome Z :=
  do b31 <- get_unsigned cmd32 31 31;
  do b25 <- get_unsigned cmd32 25 30;
  do b8 <- get_unsigned cmd32 8 11;
  do b7 <- get_unsigned cmd32 7 7;
  let uvalue :=
    add32 (add32 (add32 (shl32 b31 12) (shl32 b25 5)) (shl32 b8 1)) (shl32 b7 11) in
  get_signed uvalue 0 12.

(** Immediate of [lui] and [auipc]. *)
Definition upper_value (cmd32 : Z) : outcome Z :=
  do imm20 <- get_unsigned cmd32 12 31;
  get_signed (shl32 imm20 12) 0 31.

(** *** Quadrant 0 *)

Definition decode_q0 (cmd16 : Z) : outcome decoded :=
  let type := get_segment16 cmd16 13 15 in
  if type == "000" then
    do b11 <- get_unsigned cmd16 11 12;
    do b7 <- get_unsigned cmd16 7 10;
    do b6 <- get_unsigned cmd16 6 6;
    do b5 <- get_unsigned cmd16 5 5;
    let value := add32 (add32 (add32 (shl32 b11 4) (shl32 b7 6)) (shl32 b6 2)) (shl32 b5 3) in
    do rd <- reg_field8 cmd16 2 4;
    do sp <- get_reg 2;
    Ret {| cmd_name := "c.addi4spn"; args := [rd; sp; to_string value];
           is_load_store := false |}
  else if (type == "001") || (type == "011") || (type == "101") then
    let name :=
      if type == "001" then "c.fld"
      else if type == "011" then "c.ld"
      else "c.fsd" in
    do b10 <- get_unsigned cmd16 10 12;
    do b5 <- get_unsigned cmd16 5 6;
    let value := add32 (shl32 b10 3) (shl32 b5 6) in
    do rd <- reg_field8 cmd16 2 4;
    do rs1 <- reg_field8 cmd16 7 9;
    Ret {| cmd_name := name; args := [rd; to_string value; rs1]; is_load_store := true |}
  else if (type == "010") || (type == "011") || (type == "110") || (type == "111") then
    let name :=
      if type == "010" then "c.lw"
      else if type == "011" then "c.flw"
      else if type == "110" then "c.sw"
      else "c.fsw" in
    do b10 <- get_unsigned cmd16 10 12;
    do b6 <- get_unsigned cmd16 6 6;
    do b5 <- get_unsigned cmd16 5 5;
    let value := add32 (add32 (shl32 b10 3) (shl32 b6 2)) (shl32 b5 6) in
    do rd <- reg_field8 cmd16 2 4;
    do rs1 <- reg_field8 cmd16 7 9;
    Ret {| cmd_name := name; args := [rd; to_string value; rs1]; is_load_store := true |}
  else Ret no_command.

(** *** Quadrant 1 *)

Definition decode_q1 (tags : gmap Z string) (adr cmd16 : Z) : outcome decoded :=
  if get_segment16 cmd16 2 15 == "00000000000000" then
    Ret {| cmd_name := "c.nop"; args := []; is_load_store := false |}
  else
    let type := get_segment16 cmd16 13 15 in
    if type == "000" then
      do rd <- reg_field cmd16 7 11;
      do rd' <- reg_field cmd16 7 11;
      do value <- imm6 cmd16;
      Ret {| cmd_name := "c.addi"; args := [rd; rd'; to_string value];
             is_load_store := false |}
    else if type == "001" then
      do value <- cj_value cmd16;
      Ret {| cmd_name := "c.jal"; args := [resolve tags adr value]; is_load_store := false |}
    else if type == "010" then
      do rd <- reg_field cmd16 7 11;
      do value <- imm6 cmd16;
      Ret {| cmd_name := "c.li"; args := [rd; to_string value]; is_load_store := false |}
    else if type == "011" then
      (* [type == "011" && get_unsigned(cmd16, 7, 11) == 2], then
         [type == "011"] alone *)
      do rd_id <- get_unsigned cmd16 7 11;
      if rd_id =? 2 then
        do b12 <- get_unsigned cmd16 12 12;
        do b6 <- get_unsigned cmd16 6 6;
        do b5 <- get_unsigned cmd16 5 5;
        do b3 <- get_unsigned cmd16 3 4;
        do b2 <- get_unsigned cmd16 2 2;
        let uvalue :=
          add32 (add32 (add32 (add32
            (shl32 b12 9) (shl32 b6 4)) (shl32 b5 6)) (shl32 b3 7)) (shl32 b2 5) in
        do value <- get_signed uvalue 0 9;
        do sp <- get_reg 2;
        do sp' <- get_reg 2;
        Ret {| cmd_name := "c.addi16sp"; args := [sp; sp'; to_string value];
               is_load_store := false |}
      else
        do b12 <- get_unsigned cmd16 12 12;
        do b2 <- get_unsigned cmd16 2 6;
        do value <- get_signed (add32 (shl32 b12 17) (shl32 b2 12)) 0 17;
        do rd <- reg_field cmd16 7 11;
        Ret {| cmd_name := "c.lui"; args := [rd; to_string value]; is_load_store := false |}
    else if type == "100" then
      if get_segment16 cmd16 10 11 == "00" then
        do rd <- reg_field8 cmd16 7 9;
        do rd' <- reg_field8 cmd16 7 9;
        do value <- uimm6 cmd16;
        Ret {| cmd_name := "c.srli"; args := [rd; rd'; to_string value];
               is_load_store := false |}
      else if get_segment16 cmd16 10 11 == "01" then
        do rd <- reg_field8 cmd16 7 9;
        do rd' <- reg_field8 cmd16 7 9;
        do value <- uimm6 cmd16;
        Ret {| cmd_name := "c.srai"; args := [rd; rd'; to_string value];
               is_load_store := false |}
      else if get_segment16 cmd16 10 11 == "10" then
        do value <- imm6 cmd16;
        do rd <- reg_field8 cmd16 7 9;
        do rd' <- reg_field8 cmd16 7 9;
        Ret {| cmd_name := "c.andi"; args := [rd; rd'; to_string value];
               is_load_store := false |}
      else if get_segment16 cmd16 10 11 == "11" then
        do rd <- reg_field8 cmd16 7 9;
        do rd' <- reg_field8 cmd16 7 9;
        do rs2 <- reg_field8 cmd16 2 4;
        let type2 := get_segment16 cmd16 12 12 +:+ get_segment16 cmd16 5 6 in
        let name :=
          if type2 == "000" then "c.sub"
          else if type2 == "001" then "c.xor"
          else if type2 == "010" then "c.or"
          else if type2 == "011" then "c.and"
          else if type2 == "100" then "c.subw"
          else if type2 == "101" then "c.addw"
          else EmptyString in
        Ret {| cmd_name := name; args := [rd; rd'; rs2]; is_load_store := false |}
      else Ret no_command
    else if type == "101" then
      do value <- cj_value cmd16;
      Ret {| cmd_name := "c.j"; args := [resolve tags adr value]; is_load_store := false |}
    else if (type == "110") || (type == "111") then
      let name := if type == "110" then "c.beqz" else "c.bnez" in
      do rs1 <- reg_field8 cmd16 7 9;
      do value <- cb_value cmd16;
      Ret {| cmd_name := name; args := [rs1; resolve tags adr value];
             is_load_store := false |}
    else Ret no_command.

(** *** Quadrant 2 *)

Definition decode_q2 (cmd16 : Z) : outcome decoded :=
  let type := get_segment16 cmd16 13 15 in
  if type == "000" then
    do uvalue <- uimm6 cmd16;
    do rd <- reg_field cmd16 7 11;
    do rd' <- reg_field cmd16 7 11;
    Ret {| cmd_name := "c.slli"; args := [rd; rd'; to_string uvalue];
           is_load_store := false |}
  else if type == "001" then
    do b12 <- get_unsigned cmd16 12 12;
    do b5 <- get_unsigned cmd16 5 6;
    do b2 <- get_unsigned cmd16 2 4;
    let uvalue := add32 (add32 (shl32 b12 5) (shl32 b5 3)) (shl32 b2 6) in
    do rd <- reg_field cmd16 7 11;
    do sp <- get_reg 2;
    Ret {| cmd_name := "c.fldsp"; args := [rd; to_string uvalue; sp];
           is_load_store := true |}
  else if (type == "010") || (type == "011") then
    (* two branches of the source with the same body *)
    let name := if type == "010" then "c.lwsp" else "c.flwsp" in
    do b12 <- get_unsigned cmd16 12 12;
    do b4 <- get_unsigned cmd16 4 6;
    do b2 <- get_unsigned cmd16 2 3;
    let uvalue := add32 (add32 (shl32 b12 5) (shl32 b4 2)) (shl32 b2 6) in
    do rd <- reg_field cmd16 7 11;
    do sp <- get_reg 2;
    Ret {| cmd_name := name; args := [rd; to_string uvalue; sp]; is_load_store := true |}
  else if type == "100" then
    if negb (get_segment16 cmd16 2 6 == "00000") then
      if get_segment16 cmd16 12 12 == "1" then
        do rd <- reg_field cmd16 7 11;
        do rd' <- reg_field cmd16 7 11;
        do rs2 <- reg_field cmd16 2 6;
        Ret {| cmd_name := "c.add"; args := [rd; rd'; rs2]; is_load_store := false |}
      else
        do rd <- reg_field cmd16 7 11;
        do rs2 <- reg_field cmd16 2 6;
        Ret {| cmd_name := "c.mv"; args := [rd; rs2]; is_load_store := false |}
    else if get_segment16 cmd16 7 15 == "100100000" then
      Ret {| cmd_name := "c.ebreak"; args := []; is_load_store := false |}
    else
      do rs1 <- reg_field cmd16 7 11;
      let name := if get_segment16 cmd16 12 12 == "0" then "c.jr" else "c.jalr" in
      Ret {| cmd_name := name; args := [rs1]; is_load_store := false |}
  else if type == "101" then
    do b10 <- get_unsigned cmd16 10 12;
    do b7 <- get_unsigned cmd16 7 9;
    let uvalue := add32 (shl32 b10 3) (shl32 b7 6) in
    do rs2 <- reg_field cmd16 2 6;
    do sp <- get_reg 2;
    Ret {| cmd_name := "c.fsdsp"; args := [rs2; to_string uvalue; sp];
           is_load_store := true |}
  else
    let name := if type == "110" then "c.swsp" else "c.fswsp" in
    do b9 <- get_unsigned cmd16 9 12;
    do b7 <- get_unsigned cmd16 7 8;
    let uvalue := add32 (shl32 b9 2) (shl32 b7 6) in
    do rs2 <- reg_field cmd16 2 6;
    do sp <- get_reg 2;
    Ret {| cmd_name := name; args := [rs2; to_string uvalue; sp]; is_load_store := true |}.

(** *** The 32-bit opcodes *)

Definition decode_lui (cmd32 : Z) : outcome decoded :=
  do rd <- reg_field cmd32 7 11;
  do value <- upper_value cmd32;
  Ret {| cmd_name := "lui"; args := [rd; to_string value]; is_load_store := false |}.

Definition decode_auipc (cmd32 : Z) : outcome decoded :=
  do value <- upper_value cmd32;
  do rd <- reg_field cmd32 7 11;
  Ret {| cmd_name := "auipc"; args := [rd; to_string value]; is_load_store := false |}.

(** Opcode 0010011. *)
Definition decode_op_imm (cmd32 : Z) : outcome decoded :=
  let type := get_segment32 cmd32 12 14 in
  if negb (type == "001") && negb (type == "101") then
    let name :=
      if type == "000" then "addi"
      else if type == "010" then "slti"
      else if type == "011" then "sltiu"
      else if type == "100" then "xori"
      else if type == "110" then "ori"
      else if type == "111" then "andi"
      else EmptyString in
    do rd <- reg_field cmd32 7 11;
    do rs1 <- reg_field cmd32 15 19;
    do imm <- get_unsigned cmd32 20 31;
    do value <- get_signed imm 0 11;
    Ret {| cmd_name := name; args := [rd; rs1; to_string value]; is_load_store := false |}
  else
    do rd <- reg_field cmd32 7 11;
    do rs1 <- reg_field cmd32 15 19;
    do shamt <- get_unsigned cmd32 20 24;
    let name :=
      if type == "001" then "slli"
      else if get_segment32 cmd32 30 30 == "0" then "srli"
      else "srai" in
    Ret {| cmd_name := name; args := [rd; rs1; to_string shamt]; is_load_store := false |}.

(** Opcode 0110011. *)
Definition decode_op (cmd32 : Z) : outcome decoded :=
  if get_segment32 cmd32 25 26 == "00" then
    let type := get_segment32 cmd32 27 31 +:+ get_segment32 cmd32 12 14 in
    do rd <- reg_field cmd32 7 11;
    do rs1 <- reg_field cmd32 15 19;
    do rs2 <- reg_field cmd32 20 24;
    let name :=
      if type == "00000000" then "add"
      else if type == "01000000" then "sub"
      else if type == "00000001" then "sll"
      else if type == "00000010" then "slt"
      else if type == "00000011" then "sltu"
      else if type == "00000100" then "xor"
      else if type == "00000101" then "srl"
      else if type == "01000101" then "sra"
      else if type == "00000110" then "or"
      else if type == "00000111" then "and"
      else EmptyString in
    Ret {| cmd_name := name; args := [rd; rs1; rs2]; is_load_store := false |}
  else if get_segment32 cmd32 25 26 == "01" then
    let type := get_segment32 cmd32 12 14 in
    do rd <- reg_field cmd32 7 11;
    do rs1 <- reg_field cmd32 15 19;
    do rs2 <- reg_field cmd32 20 24;
    let name :=
      if type == "000" then "mul"
      else if type == "001" then "mulh"
      else if type == "010" then "mulhsu"
      else if type == "011" then "mulhu"
      else if type == "100" then "div"
      else if type == "101" then "divu"
      else if type == "110" then "rem"
      else if type == "111" then "remu"
      else EmptyString in
    Ret {| cmd_name := name; args := [rd; rs1; rs2]; is_load_store := false |}
  else Ret no_command.

(** Opcode 0000011. *)
Definition decode_load (cmd32 : Z) : outcome decoded :=
  let type := get_segment32 cmd32 12 14 in
  do rd <- reg_field cmd32 7 11;
  do value <- get_signed cmd32 20 31;
  do rs1 <- reg_field cmd32 15 19;
  let name :=
    if type == "000" then "lb"
    else if type == "001" then "lh"
    else if type == "010" then "lw"
    else if type == "100" then "lbu"
    else if type == "101" then "lhu"
    else EmptyString in
  Ret {| cmd_name := name; args := [rd; to_string value; rs1]; is_load_store := true |}.

(** Opcode 0100011. *)
Definition decode_store (cmd32 : Z) : outcome decoded :=
  let type := get_segment32 cmd32 12 14 in
  do rs2 <- reg_field cmd32 20 24;
  do hi <- get_unsigned cmd32 25 31;
  do lo <- get_unsigned cmd32 7 11;
  do value <- get_signed (add32 (shl32 hi 5) lo) 0 11;
  do rs1 <- reg_field cmd32 15 19;
  let name :=
    if type == "000" then "sb"
    else if type == "001" then "sh"
    else if type == "010" then "sw"
    else EmptyString in
  Ret {| cmd_name := name; args := [rs2; to_string value; rs1]; is_load_store := true |}.

(** Opcode 1101111.  The register index is read with [get_signed] and
    converted to the [std::uint32_t] parameter of [get_reg]. *)
Definition decode_jal (tags : gmap Z string) (adr cmd32 : Z) : outcome decoded :=
  do rd_id <- get_signed cmd32 7 11;
  do rd <- get_reg (wrap32 rd_id);
  do value <- jal_value cmd32;
  Ret {| cmd_name := "jal"; args := [rd; resolve tags adr value]; is_load_store := false |}.

(** Opcode 1100111. *)
Definition decode_jalr (cmd32 : Z) : outcome decoded :=
  do rd <- reg_field cmd32 7 11;
  do rs1 <- reg_field cmd32 15 19;
  do imm <- get_unsigned cmd32 20 31;
  do value <- get_signed imm 0 11;
  Ret {| cmd_name := "jalr"; args := [rd; rs1; to_string value]; is_load_store := false |}.

(** Opcode 1100011. *)
Definition decode_branch (tags : gmap Z string) (adr cmd32 : Z) : outcome decoded :=
  do rs1 <- reg_field cmd32 15 19;
  do rs2 <- reg_field cmd32 20 24;
  let type := get_segment32 cmd32 12 14 in
  let name :=
    if type == "000" then "beq"
    else if type == "001" then "bne"
    else if type == "100" then "blt"
    else if type == "101" then "bge"
    else if type == "110" then "bltu"
    else if type == "111" then "bgeu"
    else EmptyString in
  do value <- branch_value cmd32;
  Ret {| cmd_name := name; args := [rs1; rs2; resolve tags adr value];
         is_load_store := false |}.

(** ** Driver loop *)

(** A 32-bit branch of [parse_text]: [cmd32 = get_cmd32(in, cmd16)], then
    the decoding of [cmd32]. *)
Definition with_cmd32 (s : ifstream) (cmd16 : Z) (k : Z -> outcome decoded)
    : outcome (decoded * ifstream) :=
  do r <- get_cmd32 s cmd16;
  do d <- k (fst r);
  Ret (d, snd r).

(** The chain of [if ... else if ...] over the first half-word, with the
    stream as it is after that half-word was read. *)
Definition decode (tags : gmap Z string) (adr : Z) (s : ifstream) (cmd16 : Z)
    : outcome (decoded * ifstream) :=
  if get_segment16 cmd16 0 1 == "00" then
    do d <- decode_q0 cmd16; Ret (d, s)
  else if get_segment16 cmd16 0 1 == "01" then
    do d <- decode_q1 tags adr cmd16; Ret (d, s)
  else if get_segment16 cmd16 0 1 == "10" then
    do d <- decode_q2 cmd16; Ret (d, s)
  else if get_segment16 cmd16 0 6 == "0110111" then with_cmd32 s cmd16 decode_lui
  else if get_segment16 cmd16 0 6 == "0010111" then with_cmd32 s cmd16 decode_auipc
  else if get_segment16 cmd16 0 6 == "0010011" then with_cmd32 s cmd16 decode_op_imm
  else if get_segment16 cmd16 0 6 == "0110011" then with_cmd32 s cmd16 decode_op
  else if get_segment16 cmd16 0 6 == "0000011" then with_cmd32 s cmd16 decode_load
  else if get_segment16 cmd16 0 6 == "0100011" then with_cmd32 s cmd16 decode_store
  else if get_segment16 cmd16 0 6 == "1101111" then with_cmd32 s cmd16 (decode_jal tags adr)
  else if get_segment16 cmd16 0 6 == "1100111" then with_cmd32 s cmd16 decode_jalr
  else if get_segment16 cmd16 0 6 == "1100011" then with_cmd32 s cmd16 (decode_branch tags adr)
  else Ret (no_command, s).

(** [static_cast<std::uint32_t>(in.tellg()) - text_offset]. *)
Definition current_adr (text_offset : Z) (s : ifstream) : Z :=
  wrap32 (wrap32 (tellg s) - text_offset).

(** One round of the [while] loop: what it wrote, and the stream it left
    or the failure that ended the run. *)
Definition iteration (tags : gmap Z string) (text_offset : Z) (s : ifstream)
    : string * outcome ifstream :=
  let adr := current_adr text_offset s in
  let tag := default EmptyString (tags !! adr) in
  match (do r <- read16 s; decode tags adr (snd r) (fst r)) with
  | Ret (d, s') =>
      if cmd_name d == "" then ("unknown_command" +:+ LF, Ret s')
      else
        let w := print_cmd adr tag (cmd_name d :: args d) (is_load_store d) in
        (fst w, do _x <- snd w; Ret s')
  | failure => (EmptyString, rethrow failure)
  end.

(** One entry per round of the loop: the stream position and the address
    at its start, and the text it wrote. *)
Record emitted : Type := { e_pos : Z; e_adr : Z; e_text : string }.

(** The loop of [parse_text].  The result is the list of rounds that
    were started and the way the loop ended: [Some (Ret s)] when the
    condition became false, [Some failure] when a round failed, [None] when
    the fuel did not reach the end. *)
Fixpoint parse_text_loop (fuel : nat) (tags : gmap Z string)
    (text_offset text_size : Z) (s : ifstream) : list emitted * option (outcome ifstream) :=
  if current_adr text_offset s <? text_size then
    match fuel with
    | O => ([], None)
    | S fuel' =>
        let w := iteration tags text_offset s in
        let e := {| e_pos := tellg s; e_adr := current_adr text_offset s; e_text := fst w |} in
        match snd w with
        | Ret s' =>
            let rest := parse_text_loop fuel' tags text_offset text_size s' in
            (e :: fst rest, snd rest)
        | failure => ([e], Some failure)
        end
    end
  else ([], Some (Ret s)).

(** The fields of a section header that the program reads. *)
Record Elf32_section_header : Type :=
  { sh_type : Z; sh_offset : Z; sh_size : Z }.

Definition TEXT_TYPE : Z := 1.
Definition SYMTAB_TYPE : Z := 2.
Definition STRTAB_TYPE : Z := 3.

(** Index of the first header of the given type, 0 when there is none. *)
Fixpoint find_section_from (i : nat) (section_headers : list Elf32_section_header)
    (section_type_id : Z) : nat :=
  match section_headers with
  | [] => 0%nat
  | h :: rest =>
      if sh_type h =? section_type_id then i
      else find_section_from (S i) rest section_type_id
  end.

Definition find_section (section_headers : list Elf32_section_header)
    (section_type_id : Z) : nat :=
  find_section_from 0 section_headers section_type_id.

(** [parse_text]; indexing an empty vector of headers is undefined. *)
Definition parse_text (fuel : nat) (s : ifstream)
    (section_headers : list Elf32_section_header) (tags : gmap Z string)
    : list emitted * option (outcome ifstream) :=
  match nth_error section_headers (find_section section_headers TEXT_TYPE) with
  | None => ([], Some Undefined)
  | Some h =>
      parse_text_loop fuel tags (sh_offset h) (sh_size h) (seekg s (sh_offset h))
  end.

(** The text [parse_text] wrote. *)
Definition output_of (trace : list emitted) : string :=
  fold_right (fun e acc => e_text e +:+ acc) EmptyString trace.

Definition bytes_stream (bs : list byte) : ifstream := {| file := bs; tellg := 0 |}.

(** ** Symbol table dump *)

Record Elf32_Sym : Type :=
  { st_name : Z; st_value : Z; st_size : Z; st_info : Z; st_other : Z; st_shndx : Z }.

Definition get_type (x : Z) : outcome string :=
  let type := Z.land x 15 in
  if type =? 0 then Ret "NOTYPE"
  else if type =? 1 then Ret "OBJECT"
  else if type =? 2 then Ret "FUNC"
  else if type =? 3 then Ret "SECTION"
  else if type =? 4 then Ret "FILE"
  else if type =? 5 then Ret "COMMON"
  else if type =? 6 then Ret "TLS"
  else if type =? 10 then Ret "LOOS"
  else if type =? 12 then Ret "HIOS"
  else if type =? 13 then Ret "LOPROC"
  else if type =? 15 then Ret "HIPROC"
  else Throw "unknown type in symtab".

Definition get_bind (x : Z) : outcome string :=
  let bind := Z.shiftr x 4 in
  if bind =? 0 then Ret "LOCAL"
  else if bind =? 1 then Ret "GLOBAL"
  else if bind =? 2 then Ret "WEAK"
  else if bind =? 10 then Ret "LOOS"
  else if bind =? 12 then Ret "HIOS"
  else if bind =? 13 then Ret "LOPROC"
  else if bind =? 15 then Ret "HIPROC"
  else Throw "unknown bind in symtab".

Definition get_visibility (x : Z) : string :=
  let visibility := Z.land x 3 in
  if visibility =? 0 then "DEFAULT"
  else if visibility =? 1 then "INTERNAL"
  else if visibility =? 2 then "HIDDEN"
  else "PROTECTED".

Definition get_index (x : Z) : string :=
  if x =? 0 then "UNDEF"
  else if x =? 65521 then "ABS"
  else if x =? 65280 then "LOPROC"
  else if x =? 65311 then "HIPROC"
  else if x =? 65312 then "LOOS"
  else if x =? 65343 then "HIOS"
  else if x =? 65522 then "COMMON"
  else if x =? 65535 then "XINDEX"
  else to_string x.

(** The characters up to the first zero byte; running off the end of the
    file is a failed read. *)
Fixpoint read_c_string (bs : list byte) : outcome string :=
  match bs with
  | [] => IoFailure
  | b :: rest =>
      if Byte.eqb b x00 then Ret EmptyString
      else
        do name <- read_c_string rest;
        Ret (String (ascii_of_byte b) name)
  end.

Definition get_name (s : ifstream) (offset_inside_strtab strtab_offset : Z)
    : outcome string :=
  if offset_inside_strtab =? 0 then Ret EmptyString
  else read_c_string (skipn (Z.to_nat (add32 strtab_offset offset_inside_strtab)) (file s)).

(** Little-endian value of the [n] bytes at [pos]. *)
Fixpoint read_le (s : ifstream) (pos : Z) (n : nat) : outcome Z :=
  match n with
  | O => Ret 0
  | S k =>
      match byte_at s pos with
      | None => IoFailure
      | Some b =>
          do hi <- read_le s (pos + 1) k;
          Ret (Z.lor b (Z.shiftl hi 8))
      end
  end.

(** [in.read] of an [Elf32_Sym] (16 packed bytes) at [pos]. *)
Definition read_sym (s : ifstream) (pos : Z) : outcome Elf32_Sym :=
  do name <- read_le s pos 4;
  do value <- read_le s (pos + 4) 4;
  do size <- read_le s (pos + 8) 4;
  do info <- read_le s (pos + 12) 1;
  do other <- read_le s (pos + 13) 1;
  do shndx <- read_le s (pos + 14) 2;
  Ret {| st_name := name; st_value := value; st_size := size;
         st_info := info; st_other := other; st_shndx := shndx |}.

Definition symtab_header : outcome string :=
  sprintf MAX_LENGTH ("%s %-15s %7s %-8s %-8s %-8s %6s %s" +:+ LF)
    [ArgStr "Symbol"; ArgStr "Value"; ArgStr "Size"; ArgStr "Type"; ArgStr "Bind";
     ArgStr "Vis"; ArgStr "Index"; ArgStr "Name"].

(** One line of the dump.  C++ leaves the order in which the arguments of
    [sprintf] are evaluated open; g++ evaluates them from the last to the
    first, and so does the model: the name, then the bind, then the type
    (the visibility and the section index cannot fail).  The index is a
    [std::size_t] printed with [%i]: its low 32 bits are read as an
    [int]. *)
Definition symtab_line (s : ifstream) (strtab_offset id_in_section : Z) (sym : Elf32_Sym)
    : outcome string :=
  do name <- get_name s (st_name sym) strtab_offset;
  do bind <- get_bind (st_info sym);
  do type <- get_type (st_info sym);
  sprintf MAX_LENGTH ("[%4i] 0x%-15X %5i %-8s %-8s %-8s %6s %s" +:+ LF)
    [ArgNum id_in_section; ArgNum (st_value sym); ArgNum (st_size sym);
     ArgStr type; ArgStr bind; ArgStr (get_visibility (st_other sym));
     ArgStr (get_index (st_shndx sym)); ArgStr name].

(** The inner loop of [parse_symtab] over the [count] symbols of one
    section, from [id_in_section] on: the lines written and the way the
    loop ended. *)
Fixpoint symtab_section (count : nat) (s : ifstream) (strtab_offset : Z)
    (h : Elf32_section_header) (id_in_section : Z) : list string * outcome unit :=
  match count with
  | O => ([], Ret tt)
  | S count' =>
      let pos := to_int32 (sh_offset h + id_in_section * 16) in
      match (do sym <- read_sym s pos; symtab_line s strtab_offset id_in_section sym) with
      | Ret line =>
          let rest := symtab_section count' s strtab_offset h (id_in_section + 1) in
          (line :: fst rest, snd rest)
      | failure => ([], rethrow failure)
      end
  end.

Fixpoint symtab_sections (s : ifstream) (strtab_offset : Z)
    (section_headers : list Elf32_section_header) : list string * outcome unit :=
  match section_headers with
  | [] => ([], Ret tt)
  | h :: rest =>
      if sh_type h =? SYMTAB_TYPE then
        let w := symtab_section (Z.to_nat (sh_size h / 16)) s strtab_offset h 0 in
        match snd w with
        | Ret _ =>
            let w' := symtab_sections s strtab_offset rest in
            (app (fst w) (fst w'), snd w')
        | _ => w
        end
      else symtab_sections s strtab_offset rest
  end.

(** [parse_symtab]: the texts written to [out], in order. *)
Definition parse_symtab (s : ifstream) (section_headers : list Elf32_section_header)
    : list string * outcome unit :=
  match nth_error section_headers (find_section section_headers STRTAB_TYPE) with
  | None => ([], Undefined)
  | Some strtab =>
      match symtab_header with
      | Ret header =>
          let w := symtab_sections s (sh_offset strtab) section_headers in
          (header :: fst w, snd w)
      | failure => ([], rethrow failure)
      end
  end.

(** ** Tags *)

(** The inner loop of [calc_tags] over the [count] symbols of one section,
    from [id_in_section] on: [tags[sym.st_value] = name] for every symbol
    with a name. *)
Fixpoint tags_section (count : nat) (s : ifstream) (strtab_offset : Z)
    (h : Elf32_section_header) (id_in_section : Z) (tags : gmap Z string)
    : outcome (gmap Z string) :=
  match count with
  | O => Ret tags
  | S count' =>
      do sym <- read_sym s (to_int32 (sh_offset h + id_in_section * 16));
      do name <- get_name s (st_name sym) strtab_offset;
      tags_section count' s strtab_offset h (id_in_section + 1)
        (if name == "" then tags else <[st_value sym := name]> tags)
  end.

Fixpoint tags_sections (s : ifstream) (strtab_offset : Z)
    (section_headers : list Elf32_section_header) (tags : gmap Z string)
    : outcome (gmap Z string) :=
  match section_headers with
  | [] => Ret tags
  | h :: rest =>
      if sh_type h =? SYMTAB_TYPE then
        do tags' <- tags_section (Z.to_nat (sh_size h / 16)) s strtab_offset h 0 tags;
        tags_sections s strtab_offset rest tags'
      else tags_sections s strtab_offset rest tags
  end.

(** [calc_tags]; as in [parse_symtab], the string table is looked up
    first, which on an empty vector of headers is undefined. *)
Definition calc_tags (s : ifstream) (section_headers : list Elf32_section_header)
    : outcome (gmap Z string) :=
  match nth_error section_headers (find_section section_headers STRTAB_TYPE) with
  | None => Undefined
  | Some strtab => tags_sections s (sh_offset strtab) section_headers ∅
  end.

(** ** The container *)

(** The fields of the file header that the program reads: the bytes 1 to 3
    of [e_ident], [e_shoff] and [e_shnum]. *)
Record ELF32_header : Type :=
  { e_ident_1 : Z; e_ident_2 : Z; e_ident_3 : Z; e_shoff : Z; e_shnum : Z }.

(** [in.read] of [n] bytes at [pos] comes to its end only if the file
    holds them all. *)
Definition read_block (s : ifstream) (pos n : Z) : outcome unit :=
  if (0 <=? pos) && (pos + n <=? Z.of_nat (length (file s))) then Ret tt else IoFailure.

(** [in.read] of the packed [ELF32_header] (52 bytes) at the position of
    the stream. *)
Definition read_header (s : ifstream) : outcome ELF32_header :=
  let pos := tellg s in
  do _block <- read_block s pos 52;
  do i1 <- read_le s (pos + 1) 1;
  do i2 <- read_le s (pos + 2) 1;
  do i3 <- read_le s (pos + 3) 1;
  do shoff <- read_le s (pos + 32) 4;
  do shnum <- read_le s (pos + 48) 2;
  Ret {| e_ident_1 := i1; e_ident_2 := i2; e_ident_3 := i3;
         e_shoff := shoff; e_shnum := shnum |}.

(** The loop of [parse] that reads [n] packed section headers (40 bytes
    each) one after the other, from [pos] on. *)
Fixpoint read_section_headers (n : nat) (s : ifstream) (pos : Z)
    : outcome (list Elf32_section_header) :=
  match n with
  | O => Ret []
  | S n' =>
      do _block <- read_block s pos 40;
      do type <- read_le s (pos + 4) 4;
      do offset <- read_le s (pos + 16) 4;
      do size <- read_le s (pos + 20) 4;
      do rest <- read_section_headers n' s (pos + 40);
      Ret ({| sh_type := type; sh_offset := offset; sh_size := size |} :: rest)
  end.

(** The part of [parse] before the first write: the header, the check of
    the magic letters, the section headers and the tags. *)
Definition parse_container (s : ifstream)
    : outcome (list Elf32_section_header * gmap Z string) :=
  do file_header <- read_header s;
  if negb (e_ident_1 file_header =? 69) || negb (e_ident_2 file_header =? 76)
     || negb (e_ident_3 file_header =? 70)
  then Throw "this is not a ELF file"
  else
    do section_headers <-
      read_section_headers (Z.to_nat (e_shnum file_header)) s (e_shoff file_header);
    do tags <- calc_tags s section_headers;
    Ret (section_headers, tags).

Fixpoint concat_strings (l : list string) : string :=
  match l with
  | [] => EmptyString
  | x :: rest => x +:+ concat_strings rest
  end.

(** [parse]: what was written to [out], and the way the run ended
    ([None] when the fuel of [parse_text] did not reach the end). *)
Definition parse (fuel : nat) (s : ifstream) : string * option (outcome unit) :=
  match parse_container s with
  | Ret (section_headers, tags) =>
      let t := parse_text fuel s section_headers tags in
      let text := ".text" +:+ LF +:+ output_of (fst t) in
      match snd t with
      | Some (Ret s') =>
          let w := parse_symtab s' section_headers in
          (text +:+ LF +:+ ".symtab" +:+ LF +:+ concat_strings (fst w), Some (snd w))
      | Some failure => (text, Some (rethrow failure))
      | None => (text, None)
      end
  | failure => (EmptyString, Some (rethrow failure))
  end.

(** ** Notions used in the statements *)

(** The mnemonics whose last operand is a jump or branch target. *)
Definition is_jump_or_branch (name : string) : bool :=
  existsb (String.eqb name)
    ["c.j"; "c.jal"; "c.beqz"; "c.bnez"; "jal"; "beq"; "bne"; "blt"; "bge"; "bltu"; "bgeu"].

(** The displacement the decoder computes for such a command (the
    variable [value] of its branch in [parse_text]). *)
Definition displacement (name : string) (cmd : Z) : outcome Z :=
  if (name == "c.j") || (name == "c.jal") then cj_value cmd
  else if (name == "c.beqz") || (name == "c.bnez") then cb_value cmd
  else if name == "jal" then jal_value cmd
  else branch_value cmd.

(** The [n] lowest hexadecimal digits of [z], most significant first, in
    front of [acc]. *)
Fixpoint hex_fixed (n : nat) (z : Z) (acc : string) : string :=
  match n with
  | O => acc
  | S k => hex_fixed k (z / 16) (String (hex_digit (z mod 16)) acc)
  end.

(** An address as eight lowercase hexadecimal digits. *)
Definition hex8 (adr : Z) : string := hex_fixed 8 adr EmptyString.

(** The characters of [s] are lowercase hexadecimal digits. *)
Definition lower_hex_string (s : string) : bool :=
  forallb (fun c => existsb (Ascii.eqb c) (list_ascii_of_string "0123456789abcdef"))
          (list_ascii_of_string s).

(** The symbols that the dump lists, in its order: for every section of
    type [SYMTAB_TYPE], in the order of the headers, the indices from 0 to
    [sh_size / 16 - 1]. *)
Definition symtab_entries (section_headers : list Elf32_section_header)
    : list (Elf32_section_header * Z) :=
  flat_map
    (fun h =>
       if sh_type h =? SYMTAB_TYPE
       then map (fun id => (h, Z.of_nat id)) (seq 0 (Z.to_nat (sh_size h / 16)))
       else [])
    section_headers.

(** [line] is the body line of the specification for the symbol
    [id_in_section] of the section [h]: the format applied to this index
    and to the value, the size, the type name, the bind name, the
    visibility name, the section-index name and the name of the symbol
    that the file holds at this index of the section. *)
Definition symbol_line (s : ifstream) (strtab_offset : Z)
    (entry : Elf32_section_header * Z) (line : string) : Prop :=
  let (h, id_in_section) := entry in
  exists (sym : Elf32_Sym) (type bind name : string),
    read_sym s (to_int32 (sh_offset h + id_in_section * 16)) = Ret sym
    /\ get_type (st_info sym) = Ret type
    /\ get_bind (st_info sym) = Ret bind
    /\ get_name s (st_name sym) strtab_offset = Ret name
    /\ sprintf_from Literal ("[%4d] 0x%-15X %5d %-8s %-8s %-8s %6s %s" +:+ LF)
         [ArgNum id_in_section; ArgNum (st_value sym); ArgNum (st_size sym);
          ArgStr type; ArgStr bind; ArgStr (get_visibility (st_other sym));
          ArgStr (get_index (st_shndx sym)); ArgStr name]
       = Ret line.

(** The character of bit [i] of [cmd] in a bit string. *)
Definition bit_char (cmd i : Z) : ascii := if Z.testbit cmd i then "1"%char else "0"%char.

(** The last operand of the decoded command [d] is the target of the
    command word [cmd] at [adr], resolved through the tags. *)
Definition target_resolved (tags : gmap Z string) (adr cmd : Z) (d : decoded) : Prop :=
  exists disp,
    displacement (cmd_name d) cmd = Ret disp
    /\ last (args d)
       = Some match tags !! ((adr + disp) mod 2 ^ 32) with
              | Some name => name
              | None => to_string disp
              end.

(** The ABI names of the 32 registers, by index. *)
Definition abi_names : list string :=
  ["zero"; "ra"; "sp"; "gp"; "tp"; "t0"; "t1"; "t2"; "s0"; "s1";
   "a0"; "a1"; "a2"; "a3"; "a4"; "a5"; "a6"; "a7";
   "s2"; "s3"; "s4"; "s5"; "s6"; "s7"; "s8"; "s9"; "s10"; "s11";
   "t3"; "t4"; "t5"; "t6"].

(** The [n] bytes of [z], least significant first. *)
Fixpoint le_bytes (n : nat) (z : Z) : list byte :=
  match n with
  | O => []
  | S k => default x00 (Byte.of_N (Z.to_N (z mod 256))) :: le_bytes k (z / 256)
  end.

(** The bytes of a name in the string table, without the final zero. *)
Definition string_bytes (name : string) : list byte :=
  map byte_of_ascii (list_ascii_of_string name).

(** The value of a string of hexadecimal digits, after [acc]. *)
Fixpoint hex_value (digits : string) (acc : Z) : Z :=
  match digits with
  | EmptyString => acc
  | String c rest =>
      let n := Z.of_nat (nat_of_ascii c) in
      hex_value rest (16 * acc + (if n <? 58 then n - 48 else n - 87))
  end.

(** The mnemonics that [parse_text] prints in load/store syntax. *)
Definition load_store_mnemonics : list string :=
  ["c.fld"; "c.ld"; "c.fsd"; "c.lw"; "c.sw"; "c.fsw";
   "c.fldsp"; "c.lwsp"; "c.flwsp"; "c.fsdsp"; "c.swsp"; "c.fswsp";
   "lb"; "lh"; "lw"; "lbu"; "lhu"; "sb"; "sh"; "sw"].

(** All the mnemonics that [parse_text] can assign. *)
Definition mnemonics : list string :=
  ["c.addi4spn"; "c.nop"; "c.addi"; "c.jal"; "c.li"; "c.addi16sp"; "c.lui";
   "c.srli"; "c.srai"; "c.andi"; "c.sub"; "c.xor"; "c.or"; "c.and"; "c.subw";
   "c.addw"; "c.j"; "c.beqz"; "c.bnez"; "c.slli"; "c.add"; "c.mv"; "c.ebreak";
   "c.jr"; "c.jalr";
   "lui"; "auipc"; "addi"; "slti"; "sltiu"; "xori"; "ori"; "andi"; "slli"; "srli";
   "srai"; "add"; "sub"; "sll"; "slt"; "sltu"; "xor"; "srl"; "sra"; "or"; "and";
   "mul"; "mulh"; "mulhsu"; "mulhu"; "div"; "divu"; "rem"; "remu";
   "jal"; "jalr"; "beq"; "bne"; "blt"; "bge"; "bltu"; "bgeu"]
  ++ load_store_mnemonics.

(** The operands of a command as the two shapes of the emitter write
    them: separated by commas, the last one in parentheses in load/store
    syntax. *)
Definition render_operands (operands : list string) (load_store : bool) : string :=
  match operands, load_store with
  | [], false => EmptyString
  | [a], false => " " +:+ a
  | [a; b], false => " " +:+ a +:+ ", " +:+ b
  | [a; b; c], false => " " +:+ a +:+ ", " +:+ b +:+ ", " +:+ c
  | [], true => "()"
  | [a], true => "(" +:+ a +:+ ")"
  | [a; b], true => " " +:+ a +:+ "(" +:+ b +:+ ")"
  | [a; b; c], true => " " +:+ a +:+ ", " +:+ b +:+ "(" +:+ c +:+ ")"
  | _, _ => EmptyString
  end.

(** What holds of every command the decoder names: the mnemonic is one of
    [mnemonics], it is printed in load/store syntax exactly if it is one
    of [load_store_mnemonics], and then it has three operands. *)
Definition well_formed (d : decoded) : Prop :=
  existsb (String.eqb (cmd_name d)) mnemonics = true
  /\ existsb (String.eqb (cmd_name d)) load_store_mnemonics = is_load_store d
  /\ (is_load_store d = true -> length (args d) = 3%nat).

(** ** A small ELF file *)

(** A file of 52 + 8 + 6 + 32 + 120 bytes: the header, a [.text] of two
    commands ([c.j] to itself, [addi a0, zero, 10], then [c.nop]), the
    string table with the name [main], two symbols and three section
    headers. *)
Definition small_elf_bytes : list byte :=
  [x7f; x45; x4c; x46] ++ repeat x00 28 ++ le_bytes 4 98 ++ repeat x00 12
  ++ le_bytes 2 3 ++ [x00; x00]
  ++ [x01; xa0; x13; x05; xa0; x00; x01; x00]
  ++ [x00; x6d; x61; x69; x6e; x00]
  ++ (le_bytes 4 0 ++ le_bytes 4 0 ++ le_bytes 4 0 ++ [x00; x00] ++ le_bytes 2 0)
  ++ (le_bytes 4 1 ++ le_bytes 4 0 ++ le_bytes 4 8 ++ [x12; x00] ++ le_bytes 2 1)
  ++ (repeat x00 4 ++ le_bytes 4 1 ++ repeat x00 8 ++ le_bytes 4 52 ++ le_bytes 4 8
      ++ repeat x00 16)
  ++ (repeat x00 4 ++ le_bytes 4 3 ++ repeat x00 8 ++ le_bytes 4 60 ++ le_bytes 4 6
      ++ repeat x00 16)
  ++ (repeat x00 4 ++ le_bytes 4 2 ++ repeat x00 8 ++ le_bytes 4 66 ++ le_bytes 4 32
      ++ repeat x00 16).

(** ** A small input for the symbol table dump *)

(** A file with one symbol ([main], a global function at 0x10074 in
    section 1) at offset 0 and the string table at offset 16. *)
Definition small_symtab_file : ifstream :=
  bytes_stream
    [x01; x00; x00; x00;  x74; x00; x01; x00;  x00; x00; x00; x00;  x12; x00;  x01; x00;
     x00; x6d; x61; x69; x6e; x00].

Definition small_symtab_headers : list Elf32_section_header :=
  [ {| sh_type := SYMTAB_TYPE; sh_offset := 0; sh_size := 16 |};
    {| sh_type := STRTAB_TYPE; sh_offset := 16; sh_size := 6 |} ].

(** The opcodes of the commands of 32 bits that the decoder knows. *)
Definition opcodes32 : list string :=
  ["0110111"; "0010111"; "0010011"; "0110011"; "0000011"; "0100011";
   "1101111"; "1100111"; "1100011"].

(** The mnemonic of the jump or branch that a half-word encodes: a
    half-word of quadrant 1 with 001, 101, 110 or 111 in its bits 15..13.
    Empty for every other half-word. *)
Definition compressed_jump (cmd16 : Z) : string :=
  if get_segment16 cmd16 0 1 == "01" then
    if get_segment16 cmd16 13 15 == "001" then "c.jal"
    else if get_segment16 cmd16 13 15 == "101" then "c.j"
    else if get_segment16 cmd16 13 15 == "110" then "c.beqz"
    else if get_segment16 cmd16 13 15 == "111" then "c.bnez"
    else EmptyString
  else EmptyString.

(** The mnemonic of the jump or branch that a word of 32 bits encodes: the
    opcode 1101111, or the opcode 1100011 with the kind of the branch in
    the bits 14..12.  Empty for every other word. *)
Definition base_jump (cmd32 : Z) : string :=
  if get_segment32 cmd32 0 6 == "1101111" then "jal"
  else if get_segment32 cmd32 0 6 == "1100011" then
    if get_segment32 cmd32 12 14 == "000" then "beq"
    else if get_segment32 cmd32 12 14 == "001" then "bne"
    else if get_segment32 cmd32 12 14 == "100" then "blt"
    else if get_segment32 cmd32 12 14 == "101" then "bge"
    else if get_segment32 cmd32 12 14 == "110" then "bltu"
    else if get_segment32 cmd32 12 14 == "111" then "bgeu"
    else EmptyString
  else EmptyString.

(** ** Notions for the symbol table and the container *)

(** The sixteen bytes of a packed [Elf32_Sym]. *)
Definition sym_bytes (sym : Elf32_Sym) : list byte :=
  app (le_bytes 4 (st_name sym))
    (app (le_bytes 4 (st_value sym))
       (app (le_bytes 4 (st_size sym))
          (app (le_bytes 1 (st_info sym))
             (app (le_bytes 1 (st_other sym)) (le_bytes 2 (st_shndx sym)))))).

(** Every field has a value of its type. *)
Definition sym_in_range (sym : Elf32_Sym) : Prop :=
  0 <= st_name sym < 2 ^ 32 /\ 0 <= st_value sym < 2 ^ 32 /\ 0 <= st_size sym < 2 ^ 32
  /\ 0 <= st_info sym < 2 ^ 8 /\ 0 <= st_other sym < 2 ^ 8 /\ 0 <= st_shndx sym < 2 ^ 16.

(** The number of symbols in the sections of type [SYMTAB_TYPE]. *)
Fixpoint symtab_count (section_headers : list Elf32_section_header) : nat :=
  match section_headers with
  | [] => 0%nat
  | h :: rest =>
      if sh_type h =? SYMTAB_TYPE
      then (Z.to_nat (sh_size h / 16) + symtab_count rest)%nat
      else symtab_count rest
  end.

(** Some symbol of some section of type [SYMTAB_TYPE] has the value [a]
    and the name [name], which is not empty. *)
Definition named_symbol (s : ifstream) (section_headers : list Elf32_section_header)
    (a : Z) (name : string) : Prop :=
  exists (strtab h : Elf32_section_header) (id_in_section : Z) (sym : Elf32_Sym),
    nth_error section_headers (find_section section_headers STRTAB_TYPE) = Some strtab
    /\ In h section_headers
    /\ sh_type h = SYMTAB_TYPE
    /\ 0 <= id_in_section < sh_size h / 16
    /\ read_sym s (to_int32 (sh_offset h + id_in_section * 16)) = Ret sym
    /\ st_value sym = a
    /\ get_name s (st_name sym) (sh_offset strtab) = Ret name
    /\ name <> EmptyString.

(** The texts of the exceptions that the parser throws itself. *)
Definition parser_exceptions : list string :=
  ["this is not a ELF file"; "unknown register"; "unknown type in symtab";
   "unknown bind in symtab"].

(** * Scenarios

    The definitions evaluated on small inputs, among them the concrete
    scenarios of the specification. *)

Example get_unsigned_ex : get_unsigned 5431 7 11 = Ret 10.
Proof. reflexivity. Qed.

Example get_signed_ex : get_signed 4095 0 11 = Ret (-1).
Proof. reflexivity. Qed.

Example get_segment_ex : get_segment16 5431 0 6 = "0110111".
Proof. reflexivity. Qed.

Example get_reg_ex : get_reg 10 = Ret "a0".
Proof. reflexivity. Qed.

Example sprintf_ex1 : sprintf 25 "%08x" [ArgNum 26] = Ret "0000001a".
Proof. reflexivity. Qed.

Example sprintf_ex2 :
  sprintf MAX_LENGTH "[%4i] 0x%-15X %5i %-8s" [ArgNum 3; ArgNum 65716; ArgNum 20; ArgStr "FUNC"]
  = Ret "[   3] 0x100B4              20 FUNC    ".
Proof. vm_compute. reflexivity. Qed.

Example print_cmd_ex1 :
  print_cmd 4 "" ["addi"; "a0"; "zero"; "10"] false
  = ("00000004             addi a0, zero, 10" +:+ LF, Ret tt).
Proof. vm_compute. reflexivity. Qed.

Example print_cmd_ex2 :
  print_cmd 16 "main" ["lw"; "a0"; "4"; "sp"] true
  = ("00000010       main: lw a0, 4(sp)" +:+ LF, Ret tt).
Proof. vm_compute. reflexivity. Qed.

Example get_cmd32_ex :
  get_cmd32 {| file := [x37; x15; x00; x00]; tellg := 2 |} 5431
  = Ret (5431, {| file := [x37; x15; x00; x00]; tellg := 4 |}).
Proof. reflexivity. Qed.

Example scenario_addi :
  fst (parse_text_loop 8 ∅ 0 4 (bytes_stream [x13; x05; xa0; x00]))
  = [{| e_pos := 0; e_adr := 0;
        e_text := "00000000             addi a0, zero, 10" +:+ LF |}].
Proof. vm_compute. reflexivity. Qed.

Example scenario_addi_minus1 :
  output_of (fst (parse_text_loop 8 ∅ 0 4 (bytes_stream [x93; x07; xf0; xff])))
  = "00000000             addi a5, zero, -1" +:+ LF.
Proof. vm_compute. reflexivity. Qed.

Example scenario_c_nop_c_jr :
  output_of (fst (parse_text_loop 8 ∅ 0 4 (bytes_stream [x01; x00; x82; x80])))
  = "00000000             c.nop" +:+ LF +:+ "00000002             c.jr ra" +:+ LF.
Proof. vm_compute. reflexivity. Qed.

Example scenario_c_j :
  output_of (fst (parse_text_loop 8 {[ 0 := "main" ]} 0 2 (bytes_stream [x01; xa0])))
  = "00000000       main: c.j main" +:+ LF.
Proof. vm_compute. reflexivity. Qed.

Example scenario_add :
  output_of (fst (parse_text_loop 8 ∅ 0 4 (bytes_stream [x33; x85; xa5; x00])))
  = "00000000             add a0, a1, a0" +:+ LF.
Proof. vm_compute. reflexivity. Qed.

Example scenario_symtab :
  parse_symtab small_symtab_file small_symtab_headers
  = ([ "Symbol Value              Size Type     Bind     Vis       Index Name" +:+ LF;
       "[   0] 0x10074               0 FUNC     GLOBAL   DEFAULT       1 main" +:+ LF ],
     Ret tt).
Proof. vm_compute. reflexivity. Qed.

Example scenario_parse :
  parse 16 (bytes_stream small_elf_bytes)
  = (".text" +:+ LF
     +:+ "00000000       main: c.j main" +:+ LF
     +:+ "00000002             addi a0, zero, 10" +:+ LF
     +:+ "00000006             c.nop" +:+ LF
     +:+ LF +:+ ".symtab" +:+ LF
     +:+ "Symbol Value              Size Type     Bind     Vis       Index Name" +:+ LF
     +:+ "[   0] 0x0                   0 NOTYPE   LOCAL    DEFAULT   UNDEF " +:+ LF
     +:+ "[   1] 0x0                   8 FUNC     GLOBAL   DEFAULT       1 main" +:+ LF,
     Some (Ret tt)).
Proof. vm_compute. reflexivity. Qed.

(** * Properties *)

(** ** Bit extractor *)

Section BitExtractor.

Variable value : Z.

Lemma to_size_t_small (z : Z) : 0 <= z < 2 ^ 64 -> to_size_t z = z.
Proof. intros H. unfold to_size_t. apply Z.mod_small. exact H. Qed.

(** One more bit of a field: either the bit is added or nothing changes. *)
Lemma land_ones_succ (a k : Z) :
  0 <= k ->
  Z.land a (Z.ones (k + 1))
  = if Z.testbit a k then Z.lor (Z.land a (Z.ones k)) (Z.shiftl 1 k)
    else Z.land a (Z.ones k).
Proof.
  intros Hk. apply Z.bits_inj'. intros n Hn.
  destruct (Z.testbit a k) eqn:Hbit.
  - rewrite Z.lor_spec, !Z.land_spec, Z.shiftl_spec by lia.
    destruct (Z.eq_dec n k) as [-> | Hne].
    + rewrite Hbit, Z.sub_diag. rewrite Z.ones_spec_low by lia.
      simpl. now rewrite orb_true_r.
    + assert (Z.testbit 1 (n - k) = false) as ->.
      { destruct (Z.lt_ge_cases n k).
        - apply Z.testbit_neg_r. lia.
        - apply (Z.bits_above_log2 1 (n - k)); simpl; lia. }
      rewrite orb_false_r.
      destruct (Z.lt_ge_cases n k).
      * now rewrite !Z.ones_spec_low by lia.
      * now rewrite !Z.ones_spec_high by lia.
  - rewrite !Z.land_spec.
    destruct (Z.eq_dec n k) as [-> | Hne].
    + rewrite Hbit. reflexivity.
    + destruct (Z.lt_ge_cases n k).
      * now rewrite !Z.ones_spec_low by lia.
      * now rewrite !Z.ones_spec_high by lia.
Qed.

Lemma get_unsigned_loop_spec (l r : Z) :
  0 <= l -> r <= 31 ->
  forall (fuel : nat) (i result : Z),
    l <= i <= r + 1 ->
    r + 1 - i < Z.of_nat fuel ->
    result = Z.land (Z.shiftr value l) (Z.ones (i - l)) ->
    get_unsigned_loop fuel value l r i result = Ret (bitfield value l r).
Proof.
  intros Hl Hr fuel. induction fuel as [| fuel IH]; intros i result Hi Hfuel Hres.
  - simpl. destruct (r <? i) eqn:E; [| apply Z.ltb_ge in E; lia].
    apply Z.ltb_lt in E. unfold bitfield. subst result. do 3 f_equal. lia.
  - simpl. destruct (r <? i) eqn:E.
    + apply Z.ltb_lt in E. unfold bitfield. subst result. do 3 f_equal. lia.
    + apply Z.ltb_ge in E.
      destruct (32 <=? i) eqn:E32; [apply Z.leb_le in E32; lia |].
      rewrite to_size_t_small by lia.
      apply IH; [lia | lia |].
      replace (i + 1 - l) with (i - l + 1) by lia.
      rewrite land_ones_succ by lia.
      rewrite Z.shiftr_spec by lia.
      replace (i - l + l) with i by lia.
      subst result. reflexivity.
Qed.

(** On a range inside the word, [get_unsigned] returns the field. *)
Lemma get_unsigned_spec (l r : Z) :
  0 <= l -> l <= r + 1 -> 0 <= r <= 31 ->
  get_unsigned value l r = Ret (bitfield value l r).
Proof.
  intros Hl Hlr Hr. unfold get_unsigned.
  rewrite !to_size_t_small by lia.
  apply get_unsigned_loop_spec; try lia.
  rewrite Z.sub_diag. simpl. now rewrite Z.land_0_r.
Qed.

Lemma bitfield_range (l r : Z) :
  l <= r + 1 -> 0 <= bitfield value l r < 2 ^ (r - l + 1).
Proof.
  intros H. unfold bitfield. rewrite Z.land_ones by lia.
  apply Z.mod_pos_bound. apply Z.pow_pos_nonneg; lia.
Qed.

Lemma get_signed_loop_spec (l r : Z) :
  0 <= l -> r <= 31 ->
  forall (fuel : nat) (i result : Z),
    l <= i <= r ->
    r - i < Z.of_nat fuel ->
    result = Z.land (Z.lnot (Z.shiftr value l)) (Z.ones (i - l)) ->
    get_signed_loop fuel value l r i result
    = Ret (Z.land (Z.lnot (Z.shiftr value l)) (Z.ones (r - l))).
Proof.
  intros Hl Hr fuel. induction fuel as [| fuel IH]; intros i result Hi Hfuel Hres.
  - simpl. destruct (r <=? i) eqn:E; [| apply Z.leb_gt in E; lia].
    apply Z.leb_le in E. subst result. do 3 f_equal. lia.
  - simpl. destruct (r <=? i) eqn:E.
    + apply Z.leb_le in E. subst result. do 3 f_equal. lia.
    + apply Z.leb_gt in E.
      destruct (i <? 0) eqn:E0; [apply Z.ltb_lt in E0; lia |].
      destruct (32 <=? i) eqn:E32; [apply Z.leb_le in E32; lia |].
      simpl. apply IH; [lia | lia |].
      replace (i + 1 - l) with (i - l + 1) by lia.
      rewrite land_ones_succ by lia.
      rewrite Z.lnot_spec, Z.shiftr_spec by lia.
      replace (i - l + l) with i by lia.
      subst result. destruct (Z.testbit value i); reflexivity.
Qed.

(** The complemented field and the field add up to all ones. *)
Lemma land_lnot_ones (a k : Z) :
  0 <= k -> Z.land (Z.lnot a) (Z.ones k) = 2 ^ k - 1 - Z.land a (Z.ones k).
Proof.
  intros Hk. rewrite !Z.land_ones by lia.
  assert (0 < 2 ^ k) as Hpos by (apply Z.pow_pos_nonneg; lia).
  pose proof (Z.div_mod a (2 ^ k) ltac:(lia)) as Hdm.
  pose proof (Z.mod_pos_bound a (2 ^ k) Hpos) as Hb.
  symmetry. apply (Z.mod_unique _ _ (- (a / 2 ^ k) - 1)); [left; lia |].
  unfold Z.lnot, Z.pred. lia.
Qed.

(** A field whose top bit is set is the shorter field plus that bit. *)
Lemma bitfield_top (l r : Z) :
  0 <= l <= r ->
  bitfield value l r
  = bitfield value l (r - 1) + (if Z.testbit value r then 2 ^ (r - l) else 0).
Proof.
  intros H. unfold bitfield.
  replace (r - l + 1) with (r - l + 1) by lia.
  replace (r - 1 - l + 1) with (r - l) by lia.
  rewrite land_ones_succ by lia.
  rewrite Z.shiftr_spec by lia. replace (r - l + l) with r by lia.
  destruct (Z.testbit value r); [| lia].
  rewrite <- Z.add_nocarry_lor.
  - rewrite Z.shiftl_1_l. reflexivity.
  - apply Z.bits_inj'. intros n Hn.
    rewrite !Z.land_spec, Z.bits_0, Z.shiftl_spec by lia.
    destruct (Z.lt_ge_cases n (r - l)).
    + rewrite (Z.testbit_neg_r 1) by lia. now rewrite andb_false_r.
    + rewrite Z.ones_spec_high by lia. now rewrite andb_false_r.
Qed.

Lemma to_int32_small (z : Z) : 0 <= z < 2 ^ 31 -> to_int32 z = z.
Proof.
  intros H. unfold to_int32, wrap32. rewrite Z.mod_small by lia.
  destruct (z <? 2 ^ 31) eqn:E; [reflexivity | apply Z.ltb_ge in E; lia].
Qed.

(** On every range inside the word except the single bit 0,
    [get_signed] returns the field read as a two's complement number. *)
Lemma get_signed_spec (l r : Z) :
  0 <= l <= r -> 1 <= r <= 31 ->
  get_signed value l r
  = Ret (if Z.testbit value r
         then bitfield value l r - 2 ^ (r - l + 1)
         else bitfield value l (r - 1)).
Proof.
  intros Hl Hr. unfold get_signed.
  replace (r <? 0) with false by (symmetry; apply Z.ltb_ge; lia).
  replace (32 <=? r) with false by (symmetry; apply Z.leb_gt; lia).
  cbv [orb]. destruct (Z.testbit value r) eqn:Hbit.
  - assert (get_signed_loop 33 value l r l 0
            = Ret (Z.land (Z.lnot (Z.shiftr value l)) (Z.ones (r - l)))) as ->.
    { apply get_signed_loop_spec; try lia.
      rewrite Z.sub_diag. change (Z.ones 0) with 0. now rewrite Z.land_0_r. }
    cbv [bind]. f_equal.
    rewrite land_lnot_ones by lia.
    rewrite (bitfield_top l r) by lia. rewrite Hbit.
    unfold bitfield. replace (r - 1 - l + 1) with (r - l) by lia.
    replace (r - l + 1) with (Z.succ (r - l)) by lia.
    rewrite Z.pow_succ_r by lia. lia.
  - rewrite get_unsigned_spec by lia. cbv [bind]. f_equal.
    apply to_int32_small.
    pose proof (bitfield_range l (r - 1) ltac:(lia)) as Hb.
    assert (2 ^ (r - 1 - l + 1) <= 2 ^ 31) by (apply Z.pow_le_mono_r; lia).
    lia.
Qed.

(** The result of [get_signed] lies in the range of a field of that
    width. *)
Lemma get_signed_range (l r : Z) :
  0 <= l <= r -> 1 <= r <= 31 ->
  exists result, get_signed value l r = Ret result
                 /\ - 2 ^ (r - l) <= result < 2 ^ (r - l).
Proof.
  intros Hl Hr. rewrite get_signed_spec by lia.
  eexists. split; [reflexivity |].
  pose proof (bitfield_range l (r - 1) ltac:(lia)) as Hb.
  replace (r - 1 - l + 1) with (r - l) in Hb by lia.
  rewrite (bitfield_top l r) by lia.
  replace (r - l + 1) with (Z.succ (r - l)) by lia.
  rewrite Z.pow_succ_r by lia.
  destruct (Z.testbit value r); lia.
Qed.

End BitExtractor.

(** ** Inversion of successful calls *)

Lemma bind_Ret_inv {A B : Type} (m : outcome A) (k : A -> outcome B) (b : B) :
  bind m k = Ret b -> exists a, m = Ret a /\ k a = Ret b.
Proof. destruct m; simpl; intros H; try discriminate H. eauto. Qed.

Lemma Ret_inj {A : Type} (a b : A) : Ret a = Ret b -> a = b.
Proof. intros H. now injection H. Qed.

(** Takes the hypothesis [H : ... = Ret _] apart along the binds and the
    conditionals of the code that produced it. *)
Ltac invert_run H :=
  repeat first
    [ progress cbv beta zeta in H
    | match type of H with
      | bind _ _ = Ret _ =>
          let a := fresh "a" in
          let Ha := fresh "Ha" in
          apply bind_Ret_inv in H; destruct H as (a & Ha & H)
      | (if ?c then _ else _) = Ret _ =>
          let E := fresh "E" in destruct c eqn:E
      | Ret _ = Ret _ => apply Ret_inj in H
      | Throw _ = Ret _ => discriminate H
      | IoFailure = Ret _ => discriminate H
      | Undefined = Ret _ => discriminate H
      end ].

(** The number of operands of every decoded command. *)
Lemma decode_q0_operands (cmd16 : Z) (d : decoded) :
  decode_q0 cmd16 = Ret d -> (length (args d) <= 3)%nat.
Proof.
  unfold decode_q0, no_command. intros H.
  invert_run H; subst d; simpl; lia.
Qed.

Lemma decode_q1_operands (tags : gmap Z string) (adr cmd16 : Z) (d : decoded) :
  decode_q1 tags adr cmd16 = Ret d -> (length (args d) <= 3)%nat.
Proof.
  unfold decode_q1, no_command. intros H.
  invert_run H; subst d; simpl; lia.
Qed.

Lemma decode_q2_operands (cmd16 : Z) (d : decoded) :
  decode_q2 cmd16 = Ret d -> (length (args d) <= 3)%nat.
Proof.
  unfold decode_q2, no_command. intros H.
  invert_run H; subst d; simpl; lia.
Qed.

Ltac pick_disjunct :=
  first [ eassumption | left; eassumption | right; pick_disjunct ].

Lemma decode32_operands (tags : gmap Z string) (adr cmd32 : Z) (d : decoded) :
  decode_lui cmd32 = Ret d \/ decode_auipc cmd32 = Ret d \/ decode_op_imm cmd32 = Ret d
  \/ decode_op cmd32 = Ret d \/ decode_load cmd32 = Ret d \/ decode_store cmd32 = Ret d
  \/ decode_jal tags adr cmd32 = Ret d \/ decode_jalr cmd32 = Ret d
  \/ decode_branch tags adr cmd32 = Ret d ->
  (length (args d) <= 3)%nat.
Proof.
  unfold decode_lui, decode_auipc, decode_op_imm, decode_op, decode_load,
    decode_store, decode_jal, decode_jalr, decode_branch, no_command.
  intros H. decompose [or] H; clear H;
    match goal with Hd : _ = Ret d |- _ => invert_run Hd; subst d; simpl; lia end.
Qed.

Lemma decode_operands (tags : gmap Z string) (adr : Z) (s s' : ifstream)
    (cmd16 : Z) (d : decoded) :
  decode tags adr s cmd16 = Ret (d, s') -> (length (args d) <= 3)%nat.
Proof.
  unfold decode, with_cmd32. intros H.
  invert_run H; injection H as <- _.
  all: try (eapply (decode32_operands tags adr); pick_disjunct).
  all: eauto using decode_q0_operands, decode_q1_operands, decode_q2_operands.
Qed.

(** ** Bytes consumed by one command *)

Lemma read16_advance (s s1 : ifstream) (v : Z) :
  read16 s = Ret (v, s1) -> s1 = seekg s (tellg s + 2).
Proof.
  unfold read16. intros H.
  destruct (byte_at s (tellg s)); [| discriminate H].
  destruct (byte_at s (tellg s + 1)); [| discriminate H].
  now injection H as _ <-.
Qed.

(** After the first half-word, [decode] leaves the stream where it is or
    reads exactly one more half-word. *)
Lemma decode_consumes (tags : gmap Z string) (adr : Z) (s s' : ifstream)
    (cmd16 : Z) (d : decoded) :
  decode tags adr s cmd16 = Ret (d, s') ->
  s' = s \/ s' = seekg s (tellg s + 2).
Proof.
  unfold decode, with_cmd32, get_cmd32. intros H.
  invert_run H; injection H as _ Hs; symmetry in Hs; auto.
  all: right;
    match goal with
    | Hg : bind (read16 _) _ = Ret ?a |- _ =>
        apply bind_Ret_inv in Hg; destruct Hg as ([v s1] & Hr & Hg);
        apply Ret_inj in Hg; subst a; apply read16_advance in Hr;
        simpl in Hs; congruence
    end.
Qed.

Lemma iteration_advance (tags : gmap Z string) (text_offset : Z) (s s' : ifstream) :
  snd (iteration tags text_offset s) = Ret s' ->
  file s' = file s /\ (tellg s' = tellg s + 2 \/ tellg s' = tellg s + 4).
Proof.
  unfold iteration. intros H.
  destruct (read16 s) as [[cmd16 s1] | | |] eqn:Hread; simpl in H; try discriminate H.
  apply read16_advance in Hread. 
  destruct (decode tags (current_adr text_offset s) s1 cmd16) as [[d s2] | | |] eqn:Hdec;
    simpl in H; try discriminate H.
  apply decode_consumes in Hdec.
  assert (s' = s2) as ->.
  { destruct (cmd_name d == ""); simpl in H.
    - now injection H.
    - destruct (snd (print_cmd _ _ _ _)); simpl in H; try discriminate H.
      now injection H. }
  destruct Hdec as [-> | ->]; subst s1; simpl; split; auto; lia.
Qed.

(** ** The driver's cursor *)

Lemma current_adr_advance (text_offset text_size k : Z) (s s' : ifstream) :
  text_size <= 2 ^ 32 - 4 ->
  current_adr text_offset s < text_size ->
  0 <= k <= 4 ->
  tellg s' = tellg s + k ->
  current_adr text_offset s' = current_adr text_offset s + k.
Proof.
  unfold current_adr, wrap32. intros Hsize Hadr Hk Hpos.
  rewrite !Zminus_mod_idemp_l in *. rewrite Hpos.
  pose proof (Z.mod_pos_bound (tellg s - text_offset) (2 ^ 32) ltac:(lia)) as Hb.
  replace (tellg s + k - text_offset) with (tellg s - text_offset + k) by lia.
  rewrite <- Zplus_mod_idemp_l. apply Z.mod_small. lia.
Qed.

(** The first round of a run starts at the stream position, inside
    [.text]. *)
Lemma parse_text_loop_head (fuel : nat) (tags : gmap Z string)
    (text_offset text_size : Z) (s : ifstream) (e : emitted) :
  fst (parse_text_loop fuel tags text_offset text_size s) !! 0%nat = Some e ->
  e_pos e = tellg s /\ e_adr e = current_adr text_offset s
  /\ current_adr text_offset s < text_size.
Proof.
  destruct fuel as [| fuel]; simpl.
  - destruct (current_adr text_offset s <? text_size); simpl; intros H; discriminate H.
  - destruct (current_adr text_offset s <? text_size) eqn:E; simpl;
      [| intros H; discriminate H].
    apply Z.ltb_lt in E.
    destruct (snd (iteration tags text_offset s)); simpl; intros H;
      injection H as <-; simpl; auto.
Qed.

Lemma parse_text_loop_steps (fuel : nat) (tags : gmap Z string)
    (text_offset text_size : Z) :
  text_size <= 2 ^ 32 - 4 ->
  forall (s : ifstream) (i : nat) (a b : emitted),
    fst (parse_text_loop fuel tags text_offset text_size s) !! i = Some a ->
    fst (parse_text_loop fuel tags text_offset text_size s) !! S i = Some b ->
    (e_pos b - e_pos a = 2 \/ e_pos b - e_pos a = 4)
    /\ e_adr b - e_adr a = e_pos b - e_pos a.
Proof.
  intros Hsize. induction fuel as [| fuel IH]; intros s i a b; simpl.
  - destruct (current_adr text_offset s <? text_size); simpl; intros H; discriminate H.
  - destruct (current_adr text_offset s <? text_size) eqn:E; simpl;
      [| intros H; discriminate H].
    apply Z.ltb_lt in E.
    destruct (snd (iteration tags text_offset s)) as [s' | | |] eqn:Hit; simpl;
      try (intros _ H; discriminate H).
    destruct i as [| i]; simpl.
    + intros Ha Hb. injection Ha as <-. simpl.
      apply parse_text_loop_head in Hb. destruct Hb as (-> & -> & _).
      apply iteration_advance in Hit. destruct Hit as [_ Hpos].
      assert (0 <= tellg s' - tellg s <= 4) as Hk by lia.
      rewrite (current_adr_advance text_offset text_size (tellg s' - tellg s) s s')
        by (auto; lia).
      lia.
    + apply IH.
Qed.

(** ** Driver: the two paths *)

(** A half-word that does not end in 11 is decoded on its own, and a
    half-word with one of the nine opcodes of the chain is completed by a
    second half-word. *)

Lemma get_segment16_0_1 (cmd : Z) :
  get_segment16 cmd 0 1 = String (bit_char cmd 1) (String (bit_char cmd 0) EmptyString).
Proof. reflexivity. Qed.

Lemma get_segment16_0_6 (cmd : Z) :
  get_segment16 cmd 0 6
  = String (bit_char cmd 6) (String (bit_char cmd 5) (String (bit_char cmd 4)
      (String (bit_char cmd 3) (String (bit_char cmd 2)
         (String (bit_char cmd 1) (String (bit_char cmd 0) EmptyString)))))).
Proof. reflexivity. Qed.

Lemma opcode_ends_in_11 (cmd : Z) (opcode : string) :
  In opcode ["0110111"; "0010111"; "0010011"; "0110011"; "0000011"; "0100011";
             "1101111"; "1100111"; "1100011"] ->
  get_segment16 cmd 0 6 = opcode -> get_segment16 cmd 0 1 = "11".
Proof.
  rewrite get_segment16_0_6, get_segment16_0_1. intros Hin H.
  rewrite <- H in Hin. clear H. simpl in Hin.
  decompose [or] Hin; clear Hin; try contradiction.
  all: match goal with H : _ = String _ _ |- _ => injection H as _ _ _ _ _ <- <- end.
  all: reflexivity.
Qed.

(** A half-word that is not in quadrant 0, 1 or 2 ends in 11. *)
Lemma quadrant_cases (cmd : Z) :
  get_segment16 cmd 0 1 = "00" \/ get_segment16 cmd 0 1 = "01"
  \/ get_segment16 cmd 0 1 = "10" \/ get_segment16 cmd 0 1 = "11".
Proof.
  rewrite get_segment16_0_1. unfold bit_char.
  destruct (Z.testbit cmd 1), (Z.testbit cmd 0); auto.
Qed.

Lemma compressed_consumes_two (tags : gmap Z string) (adr : Z) (s s' : ifstream)
    (cmd16 : Z) (d : decoded) :
  get_segment16 cmd16 0 1 <> "11" ->
  decode tags adr s cmd16 = Ret (d, s') -> s' = s.
Proof.
  intros Hq. unfold decode. intros H.
  destruct (quadrant_cases cmd16) as [Hc | [Hc | [Hc | Hc]]]; [| | | contradiction];
    rewrite Hc in H; simpl in H; invert_run H; now injection H as _ <-.
Qed.

Lemma recognised_opcode_consumes_four (tags : gmap Z string) (adr : Z) (s s' : ifstream)
    (cmd16 : Z) (d : decoded) :
  In (get_segment16 cmd16 0 6)
     ["0110111"; "0010111"; "0010011"; "0110011"; "0000011"; "0100011";
      "1101111"; "1100111"; "1100011"] ->
  decode tags adr s cmd16 = Ret (d, s') -> s' = seekg s (tellg s + 2).
Proof.
  intros Hin H.
  pose proof (opcode_ends_in_11 cmd16 _ Hin eq_refl) as Hq.
  unfold decode in H. rewrite Hq in H.
  simpl in Hin. decompose [or] Hin; clear Hin; try contradiction.
  all: match goal with Ho : _ = get_segment16 _ _ _ |- _ => rewrite <- Ho in H end.
  all: cbn [String.eqb Ascii.eqb Bool.eqb] in H.
  all: unfold with_cmd32 in H; invert_run H; injection H as _ <-.
  all: match goal with
       | Hr : get_cmd32 _ _ = Ret ?a |- _ =>
           unfold get_cmd32 in Hr; apply bind_Ret_inv in Hr;
           destruct Hr as ([v s1] & Hread & Hpair); apply Ret_inj in Hpair; subst a;
           apply read16_advance in Hread; exact Hread
       end.
Qed.

(** ** Driver: a half-word ending in 11 with another opcode *)

(** C1.  A first half-word whose two lowest bits are 11 is not always
    followed by a second read.  The half-word 0x0073 (the low half of
    [ecall], opcode 1110011) ends in 11 and matches none of the nine
    opcodes of the chain, so the round prints the placeholder with the
    stream only 2 bytes further; the next round then decodes the high half
    0x0000 as a compressed command of its own.  (For the other half-words
    the claim holds, by [compressed_consumes_two] and
    [recognised_opcode_consumes_four].) *)
Theorem unknown_opcode_consumes_two_bytes :
  get_segment16 115 0 1 = "11"
  /\ iteration ∅ 0 (bytes_stream [x73; x00; x00; x00])
     = ("unknown_command" +:+ LF, Ret {| file := [x73; x00; x00; x00]; tellg := 2 |})
  /\ parse_text_loop 8 ∅ 0 4 (bytes_stream [x73; x00; x00; x00])
     = ([ {| e_pos := 0; e_adr := 0; e_text := "unknown_command" +:+ LF |};
          {| e_pos := 2; e_adr := 2;
             e_text := "00000002             c.addi4spn s0, sp, 0" +:+ LF |} ],
        Some (Ret {| file := [x73; x00; x00; x00]; tellg := 4 |})).
Proof. repeat split; vm_compute; reflexivity. Qed.

(** ** Compressed decoder, quadrant 0 *)

(** C2.  In quadrant 0 the value 011 of bits 15..13 is taken by the first
    branch that names it: the half-word 0x6040 is printed as [c.ld] with
    the offset layout of [c.fld] (bit 6 counts 128), not as [c.flw] with the
    layout of [c.lw] (where bit 6 counts 4).  The branch that assigns
    [c.flw] is never reached. *)
Theorem quadrant0_011_is_c_ld :
  get_segment16 24640 0 1 = "00"
  /\ get_segment16 24640 13 15 = "011"
  /\ decode_q0 24640
     = Ret {| cmd_name := "c.ld"; args := ["s0"; "128"; "s0"]; is_load_store := true |}
  /\ fst (iteration ∅ 0 (bytes_stream [x40; x60]))
     = "00000000             c.ld s0, 128(s0)" +:+ LF.
Proof. repeat split; vm_compute; reflexivity. Qed.

(** ** Base decoder: [jal] *)

(** C3.  The destination register of [jal] is read with [get_signed], so
    an index from 16 on becomes negative and [get_reg] throws: the word
    0x0000086f ([jal a6, 0], rd = 16) ends the run with "unknown register"
    and nothing is printed for it. *)
Theorem jal_high_register_throws :
  get_unsigned 2159 7 11 = Ret 16
  /\ get_signed 2159 7 11 = Ret (-16)
  /\ decode_jal ∅ 0 2159 = Throw "unknown register"
  /\ iteration ∅ 0 (bytes_stream [x6f; x08; x00; x00])
     = (EmptyString, Throw "unknown register").
Proof. repeat split; vm_compute; reflexivity. Qed.

(** ** Bit extractor *)

(** With [r = -1] the loop of [get_unsigned] has no exit: whatever the
    value, it runs into the shift by 32. *)
Lemma get_unsigned_loop_no_exit (value l : Z) :
  forall (fuel : nat) (i result : Z),
    0 <= i <= 32 ->
    33 - i <= Z.of_nat fuel ->
    get_unsigned_loop fuel value l (2 ^ 64 - 1) i result = Undefined.
Proof.
  intros fuel. induction fuel as [| fuel IH]; intros i result Hi Hfuel; [lia |].
  cbn [get_unsigned_loop].
  replace (2 ^ 64 - 1 <? i) with false by (symmetry; apply Z.ltb_ge; lia).
  destruct (32 <=? i) eqn:E32; [reflexivity |].
  apply Z.leb_gt in E32. rewrite to_size_t_small by lia.
  apply IH; lia.
Qed.

Lemma get_signed_bit0_clear (value : Z) :
  Z.testbit value 0 = false -> get_signed value 0 0 = Undefined.
Proof.
  intros Hbit. unfold get_signed. rewrite Hbit.
  change ((0 <? 0) || (32 <=? 0)) with false. cbv iota.
  unfold get_unsigned. change (to_size_t (0 - 1)) with (2 ^ 64 - 1).
  change (to_size_t 0) with 0.
  rewrite get_unsigned_loop_no_exit by (simpl; lia). reflexivity.
Qed.

Lemma get_signed_negative (value l r : Z) :
  0 <= l <= r -> r <= 31 ->
  Z.testbit value r = true ->
  get_signed value l r = Ret (bitfield value l r - 2 ^ (r - l + 1)).
Proof.
  intros Hl Hr Hbit. unfold get_signed. rewrite Hbit.
  replace (r <? 0) with false by (symmetry; apply Z.ltb_ge; lia).
  replace (32 <=? r) with false by (symmetry; apply Z.leb_gt; lia).
  cbv [orb].
  assert (get_signed_loop 33 value l r l 0
          = Ret (Z.land (Z.lnot (Z.shiftr value l)) (Z.ones (r - l)))) as ->.
  { apply get_signed_loop_spec; try lia.
    rewrite Z.sub_diag. change (Z.ones 0) with 0. now rewrite Z.land_0_r. }
  cbv [bind]. f_equal.
  rewrite land_lnot_ones by lia.
  rewrite (bitfield_top value l r) by lia. rewrite Hbit.
  unfold bitfield. replace (r - 1 - l + 1) with (r - l) by lia.
  replace (r - l + 1) with (Z.succ (r - l)) by lia.
  rewrite Z.pow_succ_r by lia. lia.
Qed.

(** C5 as amended.  On every range inside the word, the single bit 0 with
    that bit clear left out, [get_signed] returns a number: the field of
    [get_unsigned] on the same range less [2^(r-l+1)] when bit [r] is set,
    the field of [get_unsigned] on the range [l .. r-1] when it is clear;
    the number lies in [-2^(r-l), 2^(r-l)). *)
Theorem get_signed_sign_extension (value l r : Z) :
  0 <= l -> l <= r -> r <= 31 ->
  (Z.testbit value r = false -> 1 <= r) ->
  exists result : Z,
    get_signed value l r = Ret result
    /\ (Z.testbit value r = true ->
        exists u : Z, get_unsigned value l r = Ret u /\ result = u - 2 ^ (r - l + 1))
    /\ (Z.testbit value r = false ->
        exists u : Z, get_unsigned value l (r - 1) = Ret u /\ result = u)
    /\ - 2 ^ (r - l) <= result < 2 ^ (r - l).
Proof.
  intros Hl Hlr Hr Hclear.
  pose proof (bitfield_range value l (r - 1) ltac:(lia)) as Hlow.
  replace (r - 1 - l + 1) with (r - l) in Hlow by lia.
  destruct (Z.testbit value r) eqn:Hbit.
  - exists (bitfield value l r - 2 ^ (r - l + 1)).
    split; [apply get_signed_negative; [lia | lia | exact Hbit] |].
    split; [intros _; exists (bitfield value l r);
            split; [apply get_unsigned_spec; lia | reflexivity] |].
    split; [discriminate |].
    rewrite (bitfield_top value l r) by lia. rewrite Hbit.
    replace (r - l + 1) with (Z.succ (r - l)) by lia.
    rewrite Z.pow_succ_r by lia. lia.
  - specialize (Hclear eq_refl).
    exists (bitfield value l (r - 1)).
    split; [rewrite get_signed_spec by lia; now rewrite Hbit |].
    split; [discriminate |].
    split; [intros _; exists (bitfield value l (r - 1));
            split; [apply get_unsigned_spec; lia | reflexivity] |].
    lia.
Qed.

Lemma get_signed_sign_extension_witness :
  exists result : Z,
    get_signed 4095 0 11 = Ret result
    /\ (Z.testbit 4095 11 = true ->
        exists u : Z, get_unsigned 4095 0 11 = Ret u /\ result = u - 2 ^ (11 - 0 + 1))
    /\ (Z.testbit 4095 11 = false ->
        exists u : Z, get_unsigned 4095 0 (11 - 1) = Ret u /\ result = u)
    /\ - 2 ^ (11 - 0) <= result < 2 ^ (11 - 0).
Proof. apply (get_signed_sign_extension 4095 0 11); lia. Defined.

(** The claim as it stands takes in the range [0, 0].  With bit 0 clear,
    [get_signed] is there [get_unsigned(value, 0, -1)], whose loop
    condition compares the [std::size_t] counter with -1 converted to
    [std::size_t]; the loop does not leave and shifts the 32-bit value by
    32, so there is no result in [-1, 1).  No call of [get_signed] in
    [parse_text] has a range that ends at bit 0. *)
Lemma get_signed_bit0_counterexample :
  get_unsigned 0 0 (0 - 1) = Undefined
  /\ ~ (exists result : Z,
          get_signed 0 0 0 = Ret result /\ - 2 ^ (0 - 0) <= result < 2 ^ (0 - 0)).
Proof.
  split; [vm_compute; reflexivity |].
  intros (result & H & _). vm_compute in H. discriminate H.
Qed.

(** ** Emitter: number of arguments *)

Lemma convert_no_throw (conv : ascii) (minus zero : bool) (width : option nat)
    (a : vararg) (what : string) :
  convert conv minus zero width a <> Throw what.
Proof.
  unfold convert. intros H.
  destruct conv as [[] [] [] [] [] [] [] []]; destruct a; destruct zero;
    simpl in H; discriminate H.
Qed.

Lemma bind_no_throw {A B : Type} (m : outcome A) (k : A -> outcome B) (what : string) :
  m <> Throw what -> (forall a, k a <> Throw what) -> bind m k <> Throw what.
Proof.
  intros Hm Hk. destruct m; simpl; auto; try discriminate.
  intros H. apply Hm. now injection H as ->.
Qed.

Lemma sprintf_from_no_throw (fmt : string) (what : string) :
  forall (st : fmt_state) (va : list vararg), sprintf_from st fmt va <> Throw what.
Proof.
  induction fmt as [| c rest IH]; intros st va.
  - destruct st; discriminate.
  - assert (forall minus zero width,
              match va with
              | [] => Undefined
              | a :: va' =>
                  do field <- convert c minus zero width a;
                  do out <- sprintf_from Literal rest va';
                  Ret (field +:+ out)
              end <> Throw what) as Hconv.
    { intros minus zero width. destruct va as [| a va']; [discriminate |].
      apply bind_no_throw; [apply convert_no_throw |].
      intros field. apply bind_no_throw; [apply IH | discriminate]. }
    destruct st as [| minus zero | minus zero width]; simpl.
    + destruct (Ascii.eqb c "%"); [apply IH |].
      apply bind_no_throw; [apply IH | discriminate].
    + destruct (Ascii.eqb c "-"); [apply IH |].
      destruct (Ascii.eqb c "0"); [apply IH |].
      destruct (is_digit c); [apply IH | apply Hconv].
    + destruct (is_digit c); [apply IH | apply Hconv].
Qed.

Lemma sprintf_no_throw (size : Z) (fmt : string) (va : list vararg) (what : string) :
  sprintf size fmt va <> Throw what.
Proof.
  unfold sprintf. apply bind_no_throw; [apply sprintf_from_no_throw |].
  intros out. destruct (_ <? _); discriminate.
Qed.

(** C10.  Whatever [decode] produces has at most three operands, so with
    the mnemonic in front the vector handed to [print_cmd] has between 1
    and 4 elements, and the [switch] of [print_cmd] does not reach its
    [default] branch. *)
Theorem print_cmd_arity (tags : gmap Z string) (adr : Z) (s s' : ifstream)
    (cmd16 : Z) (d : decoded) :
  decode tags adr s cmd16 = Ret (d, s') ->
  cmd_name d <> EmptyString ->
  (1 <= length (cmd_name d :: args d) <= 4)%nat
  /\ print_args (cmd_name d :: args d) (is_load_store d)
     <> Throw "wrong number of arguments for print_cmd function".
Proof.
  intros Hdec _. apply decode_operands in Hdec.
  split; [simpl; lia |].
  destruct (args d) as [| a1 [| a2 [| a3 [| a4 more]]]]; simpl in *;
    try apply sprintf_no_throw.
  lia.
Qed.

Lemma print_cmd_arity_witness :
  (1 <= length ["addi"; "a0"; "zero"; "10"] <= 4)%nat
  /\ print_args ["addi"; "a0"; "zero"; "10"] false
     <> Throw "wrong number of arguments for print_cmd function".
Proof.
  apply (print_cmd_arity ∅ 0
           {| file := [x13; x05; xa0; x00]; tellg := 2 |}
           {| file := [x13; x05; xa0; x00]; tellg := 4 |}
           1299
           {| cmd_name := "addi"; args := ["a0"; "zero"; "10"]; is_load_store := false |}).
  - vm_compute. reflexivity.
  - simpl. discriminate.
Defined.

(** ** Driver: the cursor *)

(** C6.  Two rounds of the loop that follow one another start 2 or 4
    bytes apart, both in the stream and in the addresses they print; the
    addresses are taken modulo 2^32, so this needs a [.text] that ends
    before the last word of the 32-bit range. *)
Theorem address_monotonicity (fuel : nat) (tags : gmap Z string)
    (text_offset text_size : Z) (s : ifstream) (i : nat) (a b : emitted) :
  text_size <= 2 ^ 32 - 4 ->
  fst (parse_text_loop fuel tags text_offset text_size s) !! i = Some a ->
  fst (parse_text_loop fuel tags text_offset text_size s) !! S i = Some b ->
  (e_adr b - e_adr a = 2 \/ e_adr b - e_adr a = 4)
  /\ (e_pos b - e_pos a = 2 \/ e_pos b - e_pos a = 4).
Proof.
  intros Hsize Ha Hb.
  destruct (parse_text_loop_steps fuel tags text_offset text_size Hsize s i a b Ha Hb)
    as [Hpos Hadr].
  split; [rewrite Hadr |]; exact Hpos.
Qed.

Lemma address_monotonicity_witness :
  (2 - 0 = 2 \/ 2 - 0 = 4) /\ (2 - 0 = 2 \/ 2 - 0 = 4).
Proof.
  apply (address_monotonicity 8 ∅ 0 4 (bytes_stream [x01; x00; x82; x80]) 0
           {| e_pos := 0; e_adr := 0; e_text := "00000000             c.nop" +:+ LF |}
           {| e_pos := 2; e_adr := 2; e_text := "00000002             c.jr ra" +:+ LF |}).
  - vm_compute. discriminate.
  - vm_compute. reflexivity.
  - vm_compute. reflexivity.
Defined.

(** ** Label resolver *)

(** Decides the conditionals that select a mnemonic. *)
Ltac split_names :=
  repeat match goal with
         | |- context [if ?c then _ else _] => destruct c
         | H : context [if ?c then _ else _] |- _ => destruct c
         end.

Lemma decode_q0_no_target (cmd16 : Z) (d : decoded) :
  decode_q0 cmd16 = Ret d -> is_jump_or_branch (cmd_name d) = false.
Proof.
  unfold decode_q0, no_command. intros H.
  invert_run H; subst d; cbn [cmd_name]; split_names; reflexivity.
Qed.

Lemma decode_q2_no_target (cmd16 : Z) (d : decoded) :
  decode_q2 cmd16 = Ret d -> is_jump_or_branch (cmd_name d) = false.
Proof.
  unfold decode_q2, no_command. intros H.
  invert_run H; subst d; cbn [cmd_name]; split_names; reflexivity.
Qed.

Lemma decode32_no_target (cmd32 : Z) (d : decoded) :
  decode_lui cmd32 = Ret d \/ decode_auipc cmd32 = Ret d \/ decode_op_imm cmd32 = Ret d
  \/ decode_op cmd32 = Ret d \/ decode_load cmd32 = Ret d \/ decode_store cmd32 = Ret d
  \/ decode_jalr cmd32 = Ret d ->
  is_jump_or_branch (cmd_name d) = false.
Proof.
  unfold decode_lui, decode_auipc, decode_op_imm, decode_op, decode_load,
    decode_store, decode_jalr, no_command.
  intros H. decompose [or] H; clear H;
    match goal with
    | Hd : _ = Ret d |- _ =>
        invert_run Hd; subst d; cbn [cmd_name]; split_names; reflexivity
    end.
Qed.

Lemma decode_q1_target (tags : gmap Z string) (adr cmd16 : Z) (d : decoded) :
  decode_q1 tags adr cmd16 = Ret d ->
  is_jump_or_branch (cmd_name d) = true ->
  target_resolved tags adr cmd16 d.
Proof.
  unfold decode_q1, no_command. intros H.
  invert_run H; subst d; cbn [cmd_name args]; intros Hname; split_names;
    try discriminate Hname.
  all: eexists; split; [eassumption | reflexivity].
Qed.

Lemma decode_jal_target (tags : gmap Z string) (adr cmd32 : Z) (d : decoded) :
  decode_jal tags adr cmd32 = Ret d -> target_resolved tags adr cmd32 d.
Proof.
  unfold decode_jal. intros H.
  invert_run H; subst d. eexists; split; [eassumption | reflexivity].
Qed.

Lemma decode_branch_target (tags : gmap Z string) (adr cmd32 : Z) (d : decoded) :
  decode_branch tags adr cmd32 = Ret d ->
  is_jump_or_branch (cmd_name d) = true ->
  target_resolved tags adr cmd32 d.
Proof.
  unfold decode_branch. intros H.
  invert_run H; subst d; cbn [cmd_name args]; intros Hname; split_names;
    try discriminate Hname.
  all: eexists; split; [eassumption | reflexivity].
Qed.

(** When the decoder produces one of [c.j], [c.jal], [c.beqz],
    [c.bnez], [jal] or a conditional branch, the last operand is the tags
    entry at [adr + disp] taken modulo 2^32 when there is one, and the
    decimal text of [disp] otherwise, [disp] being the displacement
    decoded from the command word (the half-word itself or the 32-bit word
    completed from the stream). *)
Lemma label_round_trip (tags : gmap Z string) (adr : Z) (s s' : ifstream)
    (cmd16 : Z) (d : decoded) :
  decode tags adr s cmd16 = Ret (d, s') ->
  is_jump_or_branch (cmd_name d) = true ->
  exists cmd disp,
    (cmd = cmd16 \/ get_cmd32 s cmd16 = Ret (cmd, s'))
    /\ displacement (cmd_name d) cmd = Ret disp
    /\ last (args d)
       = Some match tags !! ((adr + disp) mod 2 ^ 32) with
              | Some name => name
              | None => to_string disp
              end.
Proof.
  unfold decode, with_cmd32. intros H Hname.
  assert (exists cmd, (cmd = cmd16 \/ get_cmd32 s cmd16 = Ret (cmd, s'))
                      /\ target_resolved tags adr cmd d) as (cmd & Hcmd & disp & Hd).
  { invert_run H; injection H as <- Hs.
    all: try match goal with
             | Hq : decode_q0 _ = Ret _ |- _ =>
                 apply decode_q0_no_target in Hq; rewrite Hq in Hname; discriminate Hname
             | Hq : decode_q2 _ = Ret _ |- _ =>
                 apply decode_q2_no_target in Hq; rewrite Hq in Hname; discriminate Hname
             | Hq : decode_q1 _ _ ?c = Ret _ |- _ =>
                 exists c; split; [now left | now apply decode_q1_target]
             | Hr : get_cmd32 _ _ = Ret ?r, Hq : decode_jal _ _ _ = Ret _ |- _ =>
                 destruct r as [cmd32 s1]; cbn [fst snd] in Hs, Hq; subst s1;
                 exists cmd32; split; [right; exact Hr | now apply decode_jal_target]
             | Hr : get_cmd32 _ _ = Ret ?r, Hq : decode_branch _ _ _ = Ret _ |- _ =>
                 destruct r as [cmd32 s1]; cbn [fst snd] in Hs, Hq; subst s1;
                 exists cmd32; split; [right; exact Hr | now apply decode_branch_target]
             | Hq : _ = Ret ?a0, Hn : is_jump_or_branch (cmd_name ?a0) = true |- _ =>
                 assert (is_jump_or_branch (cmd_name a0) = false) as Hf
                   by (eapply decode32_no_target; pick_disjunct);
                 rewrite Hf in Hn; discriminate Hn
             end.
    cbv in Hname. discriminate Hname. }
  exists cmd, disp. split; [exact Hcmd | exact Hd].
Qed.

Lemma label_round_trip_witness :
  exists cmd disp,
    (cmd = 40961 \/ get_cmd32 {| file := [x01; xa0]; tellg := 2 |} 40961
                    = Ret (cmd, {| file := [x01; xa0]; tellg := 2 |}))
    /\ displacement "c.j" cmd = Ret disp
    /\ last ["main"]
       = Some match ({[ 0 := "main" ]} : gmap Z string) !! ((0 + disp) mod 2 ^ 32) with
              | Some name => name
              | None => to_string disp
              end.
Proof.
  apply (label_round_trip {[ 0 := "main" ]} 0
           {| file := [x01; xa0]; tellg := 2 |} {| file := [x01; xa0]; tellg := 2 |}
           40961 {| cmd_name := "c.j"; args := ["main"]; is_load_store := false |}).
  - vm_compute. reflexivity.
  - vm_compute. reflexivity.
Defined.

(** ** Base decoder: [lui] *)

Lemma get_reg_total (id : Z) :
  0 <= id <= 31 -> exists name, get_reg id = Ret name.
Proof.
  intros H.
  assert (id = 0 \/ id = 1 \/ id = 2 \/ id = 3 \/ id = 4 \/ id = 5 \/ id = 6 \/ id = 7
          \/ id = 8 \/ id = 9 \/ id = 10 \/ id = 11 \/ id = 12 \/ id = 13 \/ id = 14
          \/ id = 15 \/ id = 16 \/ id = 17 \/ id = 18 \/ id = 19 \/ id = 20 \/ id = 21
          \/ id = 22 \/ id = 23 \/ id = 24 \/ id = 25 \/ id = 26 \/ id = 27 \/ id = 28
          \/ id = 29 \/ id = 30 \/ id = 31) as Hcases by lia.
  repeat destruct Hcases as [-> | Hcases]; try subst id; eexists; reflexivity.
Qed.

(** A register field of five bits always has a name. *)
Lemma reg_field_total (cmd l : Z) :
  0 <= l <= 27 -> exists name, reg_field cmd l (l + 4) = Ret name.
Proof.
  intros Hl. unfold reg_field. rewrite get_unsigned_spec by lia. cbv [bind].
  apply get_reg_total.
  pose proof (bitfield_range cmd l (l + 4) ltac:(lia)) as Hb.
  replace (l + 4 - l + 1) with 5 in Hb by lia. change (2 ^ 5) with 32 in Hb. lia.
Qed.

Lemma testbit_31 (x : Z) :
  0 <= x < 2 ^ 32 -> Z.testbit x 31 = (2 ^ 31 <=? x).
Proof.
  intros Hx.
  pose proof (Z.div_mod x (2 ^ 31) ltac:(lia)) as Hdm.
  pose proof (Z.mod_pos_bound x (2 ^ 31) ltac:(lia)) as Hb.
  assert (0 <= x / 2 ^ 31 <= 1) as Hq by lia.
  destruct (2 ^ 31 <=? x) eqn:E.
  - apply Z.leb_le in E. apply Z.testbit_true; [lia |].
    assert (x / 2 ^ 31 = 1) as -> by lia. reflexivity.
  - apply Z.leb_gt in E. apply Z.testbit_false; [lia |].
    assert (x / 2 ^ 31 = 0) as -> by lia. reflexivity.
Qed.

(** Over the whole word, [get_signed] is the conversion to [int]. *)
Lemma get_signed_word (x : Z) :
  0 <= x < 2 ^ 32 -> get_signed x 0 31 = Ret (to_int32 x).
Proof.
  intros Hx. rewrite get_signed_spec by lia. f_equal.
  rewrite testbit_31 by lia. unfold to_int32, wrap32, bitfield.
  rewrite Z.shiftr_0_r, !Z.land_ones by lia.
  rewrite (Z.mod_small x (2 ^ 32)) by lia.
  destruct (2 ^ 31 <=? x) eqn:E.
  - apply Z.leb_le in E.
    destruct (x <? 2 ^ 31) eqn:E'; [apply Z.ltb_lt in E'; lia |].
    change (31 - 0 + 1) with 32. rewrite Z.mod_small by lia. reflexivity.
  - apply Z.leb_gt in E.
    destruct (x <? 2 ^ 31) eqn:E'; [| apply Z.ltb_ge in E'; lia].
    change (31 - 1 - 0 + 1) with 31. apply Z.mod_small. lia.
Qed.

Lemma upper_value_spec (cmd32 : Z) :
  upper_value cmd32 = Ret (to_int32 (Z.shiftl (bitfield cmd32 12 31) 12)).
Proof.
  unfold upper_value. rewrite get_unsigned_spec by lia. cbv [bind].
  pose proof (bitfield_range cmd32 12 31 ltac:(lia)) as Hb.
  change (2 ^ (31 - 12 + 1)) with (2 ^ 20) in Hb.
  assert (0 <= Z.shiftl (bitfield cmd32 12 31) 12 < 2 ^ 32) as Hs.
  { rewrite Z.shiftl_mul_pow2 by lia. change (2 ^ 32) with (2 ^ 20 * 2 ^ 12). nia. }
  unfold shl32, wrap32. rewrite Z.mod_small by exact Hs.
  apply get_signed_word. exact Hs.
Qed.

(** C7 as amended.  The bytes 37 15 00 00 are the word 0x00001537, whose
    field [w[31:12]] is 1: the line printed is [lui a0, 4096].  For every
    word the operands of [lui] are the name of register [w[11:7]] and the
    field [w[31:12]] shifted left by 12 and read as a 32-bit two's
    complement number. *)
Theorem lui_immediate :
  fst (iteration ∅ 0 (bytes_stream [x37; x15; x00; x00]))
  = "00000000             lui a0, 4096" +:+ LF
  /\ forall cmd32 : Z,
       exists rd,
         get_reg (bitfield cmd32 7 11) = Ret rd
         /\ decode_lui cmd32
            = Ret {| cmd_name := "lui";
                     args := [rd; to_string (to_int32 (Z.shiftl (bitfield cmd32 12 31) 12))];
                     is_load_store := false |}.
Proof.
  split; [vm_compute; reflexivity |].
  intros cmd32.
  destruct (reg_field_total cmd32 7 ltac:(lia)) as [rd Hrd].
  change (7 + 4) with 11 in Hrd.
  exists rd. unfold decode_lui. rewrite Hrd, upper_value_spec. cbv [bind].
  split; [| reflexivity].
  unfold reg_field in Hrd. rewrite get_unsigned_spec in Hrd by lia. exact Hrd.
Qed.

(** The line printed for the bytes 37 15 00 00 is not [lui a0, 20480]. *)
Lemma lui_20480_counterexample :
  fst (iteration ∅ 0 (bytes_stream [x37; x15; x00; x00]))
  <> "00000000             lui a0, 20480" +:+ LF.
Proof. vm_compute. discriminate. Qed.

(** ** Emitter: the title of a line *)

Local Arguments String.append !_ _ / : simpl nomatch.

Lemma append_assoc (a b c : string) : (a +:+ b) +:+ c = a +:+ (b +:+ c).
Proof. induction a as [| x a IH]; simpl; [reflexivity | now rewrite IH]. Qed.

Lemma length_append (a b : string) :
  String.length (a +:+ b) = (String.length a + String.length b)%nat.
Proof. induction a as [| x a IH]; simpl; [reflexivity | now rewrite IH]. Qed.

Lemma replicate_char_snoc (n : nat) (c : ascii) (s : string) :
  replicate_char n c +:+ String c s = String c (replicate_char n c +:+ s).
Proof. induction n as [| n IH]; simpl; [reflexivity | now rewrite IH]. Qed.

Lemma hex_fixed_zero (n : nat) (acc : string) :
  hex_fixed n 0 acc = replicate_char n "0" +:+ acc.
Proof.
  revert acc. induction n as [| n IH]; intros acc; simpl; [reflexivity |].
  change (0 / 16) with 0. rewrite IH.
  change (hex_digit (0 mod 16)) with "0"%char. apply replicate_char_snoc.
Qed.

(** The digits that [%x] prints are the fixed-width digits without their
    leading zeros. *)
Lemma hex_digits_fixed (fuel : nat) :
  forall (z : Z) (acc : string),
  exists m : nat,
    hex_fixed fuel z acc = replicate_char m "0" +:+ hex_digits fuel z acc
    /\ (String.length (hex_digits fuel z acc) + m = fuel + String.length acc)%nat.
Proof.
  induction fuel as [| fuel IH]; intros z acc.
  - exists 0%nat. simpl. split; [reflexivity | lia].
  - simpl. destruct (z / 16 =? 0) eqn:E.
    + apply Z.eqb_eq in E. rewrite E, hex_fixed_zero.
      exists fuel. split; [reflexivity | simpl; lia].
    + destruct (IH (z / 16) (String (hex_digit (z mod 16)) acc)) as (m & Heq & Hlen).
      exists m. split; [exact Heq | simpl in Hlen; lia].
Qed.

Lemma pad_hex8 (z : Z) : pad false true (Some 8%nat) (hex_lower z) = hex8 z.
Proof.
  unfold pad, hex_lower, hex8.
  destruct (hex_digits_fixed 8 z EmptyString) as (m & Heq & Hlen).
  rewrite Heq. change (String.length EmptyString) with 0%nat in Hlen.
  change (default 0%nat (Some 8%nat)) with 8%nat.
  replace (8 - String.length (hex_digits 8 z EmptyString))%nat with m by lia.
  reflexivity.
Qed.

Lemma length_hex_fixed (n : nat) :
  forall (z : Z) (acc : string),
    String.length (hex_fixed n z acc) = (n + String.length acc)%nat.
Proof.
  induction n as [| n IH]; intros z acc; simpl; [reflexivity |].
  rewrite IH. simpl. lia.
Qed.

Lemma hex_digit_lower (z : Z) :
  existsb (Ascii.eqb (hex_digit (z mod 16))) (list_ascii_of_string "0123456789abcdef")
  = true.
Proof.
  pose proof (Z.mod_pos_bound z 16 ltac:(lia)) as Hb.
  assert (z mod 16 = 0 \/ z mod 16 = 1 \/ z mod 16 = 2 \/ z mod 16 = 3 \/ z mod 16 = 4
          \/ z mod 16 = 5 \/ z mod 16 = 6 \/ z mod 16 = 7 \/ z mod 16 = 8
          \/ z mod 16 = 9 \/ z mod 16 = 10 \/ z mod 16 = 11 \/ z mod 16 = 12
          \/ z mod 16 = 13 \/ z mod 16 = 14 \/ z mod 16 = 15) as Hcases by lia.
  repeat destruct Hcases as [-> | Hcases]; try rewrite Hcases; reflexivity.
Qed.

Lemma lower_hex_fixed (n : nat) :
  forall (z : Z) (acc : string),
    lower_hex_string acc = true -> lower_hex_string (hex_fixed n z acc) = true.
Proof.
  induction n as [| n IH]; intros z acc Hacc; simpl; [exact Hacc |].
  apply IH.
  change (lower_hex_string (String (hex_digit (z mod 16)) acc))
    with (existsb (Ascii.eqb (hex_digit (z mod 16)))
            (list_ascii_of_string "0123456789abcdef") && lower_hex_string acc).
  rewrite Hacc, andb_true_r. apply hex_digit_lower.
Qed.

Lemma sprintf_Ret_inv (size : Z) (fmt : string) (va : list vararg) (out : string) :
  sprintf size fmt va = Ret out -> sprintf_from Literal fmt va = Ret out.
Proof.
  unfold sprintf. intros H. apply bind_Ret_inv in H. destruct H as (o & Ho & H).
  destruct (_ <? _); [| discriminate H]. now injection H as <-.
Qed.

Lemma append_empty_r (a : string) : a +:+ EmptyString = a.
Proof. induction a as [| x a IH]; simpl; [reflexivity | now rewrite IH]. Qed.

Lemma sprintf_title_plain (adr : Z) :
  sprintf_from Literal "%08x" [ArgNum adr]
  = Ret (pad false true (Some 8%nat) (hex_lower (wrap32 adr)) +:+ EmptyString).
Proof. reflexivity. Qed.

Lemma sprintf_title_tag (adr : Z) (tag : string) :
  sprintf_from Literal "%08x %10s: " [ArgNum adr; ArgStr tag]
  = Ret (pad false true (Some 8%nat) (hex_lower (wrap32 adr))
         +:+ String " " (pad false false (Some 10%nat) tag +:+ ": ")).
Proof. reflexivity. Qed.

(** The title of a line, when it is written. *)
Lemma print_title_spec (adr : Z) (tag title : string) :
  print_title adr tag = Ret title ->
  title = hex8 (wrap32 adr)
          +:+ (if tag == "" then spaces 13
               else " " +:+ spaces (10 - String.length tag) +:+ tag +:+ ": ").
Proof.
  unfold print_title. destruct (tag == "") eqn:Etag; intros H.
  - apply bind_Ret_inv in H. destruct H as (buf & Hbuf & H).
    apply sprintf_Ret_inv in Hbuf. apply Ret_inj in H. subst title.
    rewrite sprintf_title_plain in Hbuf. apply Ret_inj in Hbuf. subst buf.
    now rewrite append_empty_r, pad_hex8.
  - apply sprintf_Ret_inv in H. rewrite sprintf_title_tag in H.
    apply Ret_inj in H. subst title.
    rewrite pad_hex8. unfold pad. change (default 0%nat (Some 10%nat)) with 10%nat.
    rewrite append_assoc. reflexivity.
Qed.

(** C8 as amended.  A line written by [print_cmd] begins with the address
    as eight lowercase hexadecimal digits.  Without a symbol 13 spaces
    follow.  With a symbol there follow one space, the name padded with
    spaces on its left to 10 columns (a longer name is written in full), a
    colon and one space. *)
Theorem title_format (adr : Z) (tag : string) (va : list string)
    (load_store : bool) (text : string) :
  print_cmd adr tag va load_store = (text, Ret tt) ->
  String.length (hex8 (wrap32 adr)) = 8%nat
  /\ lower_hex_string (hex8 (wrap32 adr)) = true
  /\ exists body,
       text = hex8 (wrap32 adr)
              +:+ (if tag == "" then spaces 13
                   else " " +:+ spaces (10 - String.length tag) +:+ tag +:+ ": ")
              +:+ body.
Proof.
  intros H. split; [apply length_hex_fixed |].
  split; [now apply lower_hex_fixed |].
  unfold print_cmd in H.
  destruct (print_title adr tag) as [title | | |] eqn:Htitle;
    try (injection H as _ H; discriminate H).
  destruct (print_args va load_store) as [body | | |] eqn:Hbody;
    try (injection H as _ H; discriminate H).
  injection H as <-. exists body.
  rewrite (print_title_spec adr tag title Htitle). apply append_assoc.
Qed.

Lemma title_format_witness :
  String.length (hex8 (wrap32 16)) = 8%nat
  /\ lower_hex_string (hex8 (wrap32 16)) = true
  /\ exists body,
       "00000010       main: lw a0, 4(sp)" +:+ LF
       = hex8 (wrap32 16)
         +:+ (if "main" == "" then spaces 13
              else " " +:+ spaces (10 - String.length "main") +:+ "main" +:+ ": ")
         +:+ body.
Proof.
  apply (title_format 16 "main" ["lw"; "a0"; "4"; "sp"] true).
  vm_compute. reflexivity.
Defined.

(** With the label [main] the name is not followed by its padding: the
    line does not begin with the address, a space, the name padded on its
    right to 10 columns, a colon and a space. *)
Lemma title_right_padded_counterexample :
  print_cmd 0 "main" ["c.nop"] false
  = ("00000000       main: c.nop" +:+ LF, Ret tt)
  /\ String.prefix ("00000000" +:+ " " +:+ "main" +:+ spaces 6 +:+ ": ")
                   ("00000000       main: c.nop" +:+ LF) = false.
Proof. split; vm_compute; reflexivity. Qed.

(** ** Symbol table dump *)

Lemma find_section_from_bound (section_headers : list Elf32_section_header)
    (section_type_id : Z) :
  forall i : nat,
    find_section_from i section_headers section_type_id = 0%nat
    \/ (i <= find_section_from i section_headers section_type_id
        < i + length section_headers)%nat.
Proof.
  induction section_headers as [| h rest IH]; intros i; simpl; [now left |].
  destruct (sh_type h =? section_type_id); [right; lia |].
  destruct (IH (S i)) as [-> | Hb]; [now left | right; lia].
Qed.

(** On a non-empty vector the index that [find_section] returns is in
    range. *)
Lemma find_section_in_range (section_headers : list Elf32_section_header)
    (section_type_id : Z) :
  section_headers <> [] ->
  exists h, nth_error section_headers (find_section section_headers section_type_id) = Some h.
Proof.
  intros Hne.
  assert (find_section section_headers section_type_id < length section_headers)%nat as Hlt.
  { unfold find_section.
    destruct (find_section_from_bound section_headers section_type_id 0) as [-> | Hb].
    - destruct section_headers; [congruence | simpl; lia].
    - lia. }
  destruct (nth_error section_headers (find_section section_headers section_type_id))
    as [h |] eqn:E; [eauto |].
  apply nth_error_None in E. lia.
Qed.

Lemma symtab_header_text :
  symtab_header
  = Ret ("Symbol Value              Size Type     Bind     Vis       Index Name" +:+ LF).
Proof. vm_compute. reflexivity. Qed.

(** The conversions [%i] and [%d] print the same text. *)
Lemma symtab_line_conversions (a b c : Z) (t1 t2 t3 t4 t5 : string) :
  sprintf MAX_LENGTH ("[%4i] 0x%-15X %5i %-8s %-8s %-8s %6s %s" +:+ LF)
    [ArgNum a; ArgNum b; ArgNum c; ArgStr t1; ArgStr t2; ArgStr t3; ArgStr t4; ArgStr t5]
  = sprintf MAX_LENGTH ("[%4d] 0x%-15X %5d %-8s %-8s %-8s %6s %s" +:+ LF)
      [ArgNum a; ArgNum b; ArgNum c; ArgStr t1; ArgStr t2; ArgStr t3; ArgStr t4; ArgStr t5].
Proof. reflexivity. Qed.

Lemma symtab_line_symbol (s : ifstream) (strtab_offset : Z) (h : Elf32_section_header)
    (id_in_section : Z) (sym : Elf32_Sym) (line : string) :
  read_sym s (to_int32 (sh_offset h + id_in_section * 16)) = Ret sym ->
  symtab_line s strtab_offset id_in_section sym = Ret line ->
  symbol_line s strtab_offset (h, id_in_section) line.
Proof.
  unfold symtab_line, symbol_line. intros Hsym H.
  apply bind_Ret_inv in H. destruct H as (name & Hname & H).
  apply bind_Ret_inv in H. destruct H as (bind' & Hbind & H).
  apply bind_Ret_inv in H. destruct H as (type & Htype & H).
  rewrite symtab_line_conversions in H. apply sprintf_Ret_inv in H.
  exists sym, type, bind', name. auto.
Qed.

(** The lines that the loop over one section wrote are the lines of its
    first symbols, in order; all of them when the loop came to its end. *)
Lemma symtab_section_lines (s : ifstream) (strtab_offset : Z) (h : Elf32_section_header)
    (count : nat) :
  forall start : nat,
    Forall2 (symbol_line s strtab_offset)
      (firstn (length (fst (symtab_section count s strtab_offset h (Z.of_nat start))))
              (map (fun id => (h, Z.of_nat id)) (seq start count)))
      (fst (symtab_section count s strtab_offset h (Z.of_nat start)))
    /\ (snd (symtab_section count s strtab_offset h (Z.of_nat start)) = Ret tt ->
        length (fst (symtab_section count s strtab_offset h (Z.of_nat start))) = count).
Proof.
  induction count as [| count IH]; intros start; cbn [symtab_section seq map].
  - cbn [fst snd length firstn]. split; [constructor | reflexivity].
  - cbv zeta.
    destruct (bind (read_sym s _) _) as [line | w | |] eqn:E; cbn [fst snd length firstn];
      cbv [rethrow bind]; try (split; [constructor | discriminate]).
    replace (Z.of_nat start + 1) with (Z.of_nat (S start)) by lia.
    destruct (IH (S start)) as [Hlines Hend].
    apply bind_Ret_inv in E. destruct E as (sym & Hsym & E).
    split.
    + constructor; [now apply (symtab_line_symbol s strtab_offset h _ sym) | exact Hlines].
    + intros H. now rewrite Hend.
Qed.

Lemma symtab_sections_lines (s : ifstream) (strtab_offset : Z)
    (section_headers : list Elf32_section_header) :
  Forall2 (symbol_line s strtab_offset)
    (firstn (length (fst (symtab_sections s strtab_offset section_headers)))
            (symtab_entries section_headers))
    (fst (symtab_sections s strtab_offset section_headers))
  /\ (snd (symtab_sections s strtab_offset section_headers) = Ret tt ->
      length (fst (symtab_sections s strtab_offset section_headers))
      = length (symtab_entries section_headers)).
Proof.
  induction section_headers as [| h rest [IHlines IHend]];
    cbn [symtab_sections symtab_entries flat_map].
  - cbn [fst snd length firstn]. split; [constructor | reflexivity].
  - fold (symtab_entries rest).
    destruct (sh_type h =? SYMTAB_TYPE); [| cbn [app]; split; assumption].
    cbv zeta.
    destruct (symtab_section_lines s strtab_offset h (Z.to_nat (sh_size h / 16)) 0)
      as [Hlines Hend].
    change (Z.of_nat 0) with 0 in Hlines, Hend.
    set (entries := map (fun id => (h, Z.of_nat id)) (seq 0 (Z.to_nat (sh_size h / 16))))
      in *.
    assert (length entries = Z.to_nat (sh_size h / 16)) as Hentries
      by (unfold entries; now rewrite length_map, length_seq).
    destruct (snd (symtab_section (Z.to_nat (sh_size h / 16)) s strtab_offset h 0))
      as [[] | w | |] eqn:E; cbn [fst snd].
    + specialize (Hend eq_refl). rewrite <- Hentries in Hend at 2.
      rewrite Hend, firstn_all in Hlines.
      rewrite !length_app, Hend. split.
      * rewrite take_app_add. now apply Forall2_app.
      * intros H. now rewrite IHend.
    + rewrite E. split; [| discriminate].
      pose proof (Forall2_length _ _ _ Hlines) as Hlen. rewrite length_take in Hlen.
      rewrite take_app_le by lia. exact Hlines.
    + rewrite E. split; [| discriminate].
      pose proof (Forall2_length _ _ _ Hlines) as Hlen. rewrite length_take in Hlen.
      rewrite take_app_le by lia. exact Hlines.
    + rewrite E. split; [| discriminate].
      pose proof (Forall2_length _ _ _ Hlines) as Hlen. rewrite length_take in Hlen.
      rewrite take_app_le by lia. exact Hlines.
Qed.

(** C9 as amended.  The dump begins with the header line that the format
    [%s %-15s %7s %-8s %-8s %-8s %6s %s] makes of the eight column titles
    (14 spaces between [Value] and [Size], 7 between [Vis] and [Index]).
    The lines after it are, one for one and in the order of the file, the
    format [[%4d] 0x%-15X %5d %-8s %-8s %-8s %6s %s] applied to the index
    of a symbol in its section and to the value, size, type name, bind
    name, visibility name, section-index name and name of that very
    symbol: the lines of the first symbols when the dump stops at a
    failure, the lines of all symbols when it comes to its end. *)
Theorem symtab_dump_format (s : ifstream) (section_headers : list Elf32_section_header)
    (strtab : Elf32_section_header) :
  nth_error section_headers (find_section section_headers STRTAB_TYPE) = Some strtab ->
  exists body : list string,
    fst (parse_symtab s section_headers)
    = ("Symbol Value              Size Type     Bind     Vis       Index Name" +:+ LF)
      :: body
    /\ Forall2 (symbol_line s (sh_offset strtab))
         (firstn (length body) (symtab_entries section_headers)) body
    /\ (snd (parse_symtab s section_headers) = Ret tt ->
        length body = length (symtab_entries section_headers)).
Proof.
  intros Hstrtab. unfold parse_symtab. rewrite Hstrtab, symtab_header_text.
  cbv zeta. cbn [fst snd].
  destruct (symtab_sections_lines s (sh_offset strtab) section_headers) as [Hlines Hend].
  eexists. split; [reflexivity |]. split; assumption.
Qed.

Lemma symtab_dump_format_witness :
  exists body : list string,
    fst (parse_symtab small_symtab_file small_symtab_headers)
    = ("Symbol Value              Size Type     Bind     Vis       Index Name" +:+ LF)
      :: body
    /\ Forall2 (symbol_line small_symtab_file
                  (sh_offset {| sh_type := STRTAB_TYPE; sh_offset := 16; sh_size := 6 |}))
         (firstn (length body) (symtab_entries small_symtab_headers)) body
    /\ (snd (parse_symtab small_symtab_file small_symtab_headers) = Ret tt ->
        length body = length (symtab_entries small_symtab_headers)).
Proof.
  apply (symtab_dump_format small_symtab_file small_symtab_headers
           {| sh_type := STRTAB_TYPE; sh_offset := 16; sh_size := 6 |}).
  reflexivity.
Defined.

(** The header written is not the line of the specification, which has 11
    spaces between [Value] and [Size] and 8 between [Vis] and [Index]. *)
Lemma symtab_header_counterexample :
  symtab_header
  <> Ret ("Symbol Value           Size Type     Bind     Vis        Index Name" +:+ LF).
Proof. vm_compute. discriminate. Qed.

(** ** Termination of the driver loop *)

(** With one round of fuel for every two bytes of [.text] the loop of
    [parse_text] comes to its end: it leaves by its condition or it stops
    at a failed round. *)
Lemma parse_text_loop_terminates (tags : gmap Z string) (text_offset text_size : Z) :
  text_size <= 2 ^ 32 - 4 ->
  forall (fuel : nat) (s : ifstream),
    text_size - current_adr text_offset s <= 2 * Z.of_nat fuel ->
    snd (parse_text_loop fuel tags text_offset text_size s) <> None.
Proof.
  intros Hsize fuel. induction fuel as [| fuel IH]; intros s Hfuel; simpl.
  - destruct (current_adr text_offset s <? text_size) eqn:E; simpl; [| discriminate].
    apply Z.ltb_lt in E. lia.
  - destruct (current_adr text_offset s <? text_size) eqn:E; simpl; [| discriminate].
    apply Z.ltb_lt in E.
    destruct (snd (iteration tags text_offset s)) as [s' | | |] eqn:Hit; simpl;
      try discriminate.
    apply IH. apply iteration_advance in Hit. destruct Hit as [_ Hpos].
    assert (0 <= tellg s' - tellg s <= 4) as Hk by lia.
    rewrite (current_adr_advance text_offset text_size (tellg s' - tellg s) s s')
      by (auto; lia).
    lia.
Qed.

(** ** The decoder always comes to an end *)

Lemma reg_field8_total (cmd l : Z) :
  0 <= l <= 29 -> exists name, reg_field8 cmd l (l + 2) = Ret name.
Proof.
  intros Hl. unfold reg_field8. rewrite get_unsigned_spec by lia. cbv [bind].
  apply get_reg_total.
  pose proof (bitfield_range cmd l (l + 2) ltac:(lia)) as Hb.
  replace (l + 2 - l + 1) with 3 in Hb by lia. change (2 ^ 3) with 8 in Hb.
  unfold add32, wrap32. rewrite Z.mod_small by lia. lia.
Qed.

Lemma get_signed_total (value l r : Z) :
  0 <= l <= r -> 1 <= r <= 31 -> exists result, get_signed value l r = Ret result.
Proof. intros Hl Hr. rewrite get_signed_spec by lia. eauto. Qed.

Lemma get_reg_sp : get_reg 2 = Ret "sp".
Proof. reflexivity. Qed.

Lemma get_reg_outcome (id : Z) :
  (exists name, get_reg id = Ret name) \/ get_reg id = Throw "unknown register".
Proof.
  unfold get_reg.
  repeat match goal with
         | |- context [if ?c then _ else _] => destruct c
         end; eauto.
Qed.

(** Runs the calls of the extractor and of the register namer that are
    known to return. *)
Ltac run_calls :=
  repeat first
    [ rewrite get_unsigned_spec by lia
    | rewrite get_reg_sp
    | progress cbv [bind]
    | progress cbv beta zeta
    | match goal with
      | |- context [get_signed ?v ?l ?r] =>
          let x := fresh "x" in
          let Hx := fresh "Hx" in
          destruct (get_signed_total v l r ltac:(lia) ltac:(lia)) as [x Hx];
          rewrite Hx; clear Hx
      | |- context [reg_field ?c ?l ?r] =>
          let x := fresh "x" in
          let Hx := fresh "Hx" in
          destruct (reg_field_total c l ltac:(lia)) as [x Hx];
          change (l + 4) with r in Hx; rewrite Hx; clear Hx
      | |- context [reg_field8 ?c ?l ?r] =>
          let x := fresh "x" in
          let Hx := fresh "Hx" in
          destruct (reg_field8_total c l ltac:(lia)) as [x Hx];
          change (l + 2) with r in Hx; rewrite Hx; clear Hx
      | |- context [if ?c then _ else _] => destruct c
      end ].

Lemma decode_q0_total (cmd16 : Z) : exists d, decode_q0 cmd16 = Ret d.
Proof.
  unfold decode_q0, no_command. run_calls. all: eexists; reflexivity.
Qed.

Lemma decode_q1_total (tags : gmap Z string) (adr cmd16 : Z) :
  exists d, decode_q1 tags adr cmd16 = Ret d.
Proof.
  unfold decode_q1, no_command, imm6, uimm6, cj_value, cb_value.
  run_calls. all: eexists; reflexivity.
Qed.

Lemma decode_q2_total (cmd16 : Z) : exists d, decode_q2 cmd16 = Ret d.
Proof.
  unfold decode_q2, no_command, uimm6. run_calls. all: eexists; reflexivity.
Qed.

Lemma decode32_total (cmd32 : Z) :
  (exists d, decode_lui cmd32 = Ret d) /\ (exists d, decode_auipc cmd32 = Ret d)
  /\ (exists d, decode_op_imm cmd32 = Ret d) /\ (exists d, decode_op cmd32 = Ret d)
  /\ (exists d, decode_load cmd32 = Ret d) /\ (exists d, decode_store cmd32 = Ret d)
  /\ (exists d, decode_jalr cmd32 = Ret d).
Proof.
  unfold decode_lui, decode_auipc, decode_op_imm, decode_op, decode_load,
    decode_store, decode_jalr, no_command, upper_value.
  repeat split; run_calls; eexists; reflexivity.
Qed.

Lemma decode_branch_total (tags : gmap Z string) (adr cmd32 : Z) :
  exists d, decode_branch tags adr cmd32 = Ret d.
Proof.
  unfold decode_branch, branch_value. run_calls. all: eexists; reflexivity.
Qed.

(** [jal] is the one command whose register name can fail. *)
Lemma decode_jal_outcome (tags : gmap Z string) (adr cmd32 : Z) :
  (exists d, decode_jal tags adr cmd32 = Ret d)
  \/ decode_jal tags adr cmd32 = Throw "unknown register".
Proof.
  unfold decode_jal, jal_value.
  destruct (get_signed_total cmd32 7 11 ltac:(lia) ltac:(lia)) as [rd_id ->].
  cbv [bind].
  destruct (get_reg_outcome (wrap32 rd_id)) as [[rd ->] | ->]; [left | now right].
  run_calls. eexists; reflexivity.
Qed.

Lemma with_cmd32_outcome (s : ifstream) (cmd16 : Z) (k : Z -> outcome decoded) :
  (forall cmd32, (exists d, k cmd32 = Ret d) \/ k cmd32 = Throw "unknown register") ->
  (exists d s', with_cmd32 s cmd16 k = Ret (d, s'))
  \/ with_cmd32 s cmd16 k = IoFailure
  \/ with_cmd32 s cmd16 k = Throw "unknown register".
Proof.
  intros Hk. unfold with_cmd32, get_cmd32, read16.
  destruct (byte_at s (tellg s)); [| now right; left].
  destruct (byte_at s (tellg s + 1)); [| now right; left].
  cbv [bind fst snd].
  match goal with |- context [k ?c] => destruct (Hk c) as [[d ->] | ->] end; eauto.
Qed.

(** Whatever the half-word and the rest of the stream, [decode] returns a
    command, fails on a short read of the second half-word, or throws for
    the register of a [jal]; it has no undefined behaviour. *)
Theorem decode_outcome (tags : gmap Z string) (adr : Z) (s : ifstream) (cmd16 : Z) :
  (exists d s', decode tags adr s cmd16 = Ret (d, s'))
  \/ decode tags adr s cmd16 = IoFailure
  \/ decode tags adr s cmd16 = Throw "unknown register".
Proof.
  unfold decode.
  repeat match goal with
         | |- context [if ?c then _ else _] => destruct c
         end.
  - destruct (decode_q0_total cmd16) as [d ->]. left. eexists _, _. reflexivity.
  - destruct (decode_q1_total tags adr cmd16) as [d ->]. left. eexists _, _. reflexivity.
  - destruct (decode_q2_total cmd16) as [d ->]. left. eexists _, _. reflexivity.
  - apply with_cmd32_outcome. intros c. left. exact (proj1 (decode32_total c)).
  - apply with_cmd32_outcome. intros c. left.
    exact (proj1 (proj2 (decode32_total c))).
  - apply with_cmd32_outcome. intros c. left.
    exact (proj1 (proj2 (proj2 (decode32_total c)))).
  - apply with_cmd32_outcome. intros c. left.
    exact (proj1 (proj2 (proj2 (proj2 (decode32_total c))))).
  - apply with_cmd32_outcome. intros c. left.
    exact (proj1 (proj2 (proj2 (proj2 (proj2 (decode32_total c)))))).
  - apply with_cmd32_outcome. intros c. left.
    exact (proj1 (proj2 (proj2 (proj2 (proj2 (proj2 (decode32_total c))))))).
  - apply with_cmd32_outcome. intros c. apply decode_jal_outcome.
  - apply with_cmd32_outcome. intros c. left.
    exact (proj2 (proj2 (proj2 (proj2 (proj2 (proj2 (decode32_total c))))))).
  - apply with_cmd32_outcome. intros c. left. apply decode_branch_total.
  - left. eexists _, _. reflexivity.
Qed.

(** ** Failures of a run *)

Lemma print_args_no_throw (va : list string) (load_store : bool) (what : string) :
  (1 <= length va <= 4)%nat -> print_args va load_store <> Throw what.
Proof.
  intros Hlen.
  destruct va as [| a0 [| a1 [| a2 [| a3 [| a4 more]]]]]; simpl in *;
    try apply sprintf_no_throw; lia.
Qed.

Lemma print_title_no_throw (adr : Z) (tag what : string) :
  print_title adr tag <> Throw what.
Proof.
  unfold print_title. destruct (tag == ""); [| apply sprintf_no_throw].
  apply bind_no_throw; [apply sprintf_no_throw | discriminate].
Qed.

Lemma rethrow_Throw_inv {A B : Type} (m : outcome A) (what : string) :
  @rethrow A B m = Throw what -> m = Throw what.
Proof. destruct m; simpl; intros H; try discriminate H. now injection H as ->. Qed.

Lemma print_cmd_no_throw (adr : Z) (tag : string) (va : list string)
    (load_store : bool) (what : string) :
  (1 <= length va <= 4)%nat -> snd (print_cmd adr tag va load_store) <> Throw what.
Proof.
  intros Hlen. unfold print_cmd.
  pose proof (print_title_no_throw adr tag what) as Htitle.
  pose proof (print_args_no_throw va load_store what Hlen) as Hargs.
  destruct (print_title adr tag); simpl; try discriminate; [| congruence].
  destruct (print_args va load_store); simpl; try discriminate. congruence.
Qed.

(** The only exception a round of the loop can end with is the one of
    [get_reg]; the one of [print_cmd] does not occur. *)
Lemma iteration_throws (tags : gmap Z string) (text_offset : Z) (s : ifstream)
    (what : string) :
  snd (iteration tags text_offset s) = Throw what -> what = "unknown register".
Proof.
  unfold iteration.
  destruct (read16 s) as [[cmd16 s1] | w | |] eqn:Hread; simpl; try discriminate;
    [| unfold read16 in Hread; destruct (byte_at s (tellg s));
       [destruct (byte_at s (tellg s + 1)) |]; discriminate Hread].
  destruct (decode_outcome tags (current_adr text_offset s) s1 cmd16)
    as [(d & s' & Hdec) | [Hdec | Hdec]]; rewrite Hdec; simpl; try discriminate.
  - apply decode_operands in Hdec.
    destruct (cmd_name d == ""); simpl; [discriminate |].
    intros H. exfalso.
    apply (print_cmd_no_throw (current_adr text_offset s)
             (default EmptyString (tags !! current_adr text_offset s))
             (cmd_name d :: args d) (is_load_store d) what); [simpl; lia |].
    destruct (snd (print_cmd _ _ _ _)); simpl in H; congruence.
  - intros H. now injection H as <-.
Qed.

Lemma parse_text_loop_throws (fuel : nat) (tags : gmap Z string)
    (text_offset text_size : Z) :
  forall (s : ifstream) (what : string),
    snd (parse_text_loop fuel tags text_offset text_size s) = Some (Throw what) ->
    what = "unknown register".
Proof.
  induction fuel as [| fuel IH]; intros s what; simpl.
  - destruct (_ <? _); simpl; discriminate.
  - destruct (_ <? _); simpl; [| discriminate].
    destruct (snd (iteration tags text_offset s)) as [s' | w | |] eqn:Hit; simpl;
      try discriminate.
    + apply IH.
    + intros H. injection H as <-. now apply iteration_throws in Hit.
Qed.

(** * Further properties of the code *)

(** ** Bit extractor *)

Lemma bitfield_div_mod (value l r : Z) :
  0 <= l -> l <= r + 1 ->
  bitfield value l r = (value / 2 ^ l) mod 2 ^ (r - l + 1).
Proof.
  intros Hl Hr. unfold bitfield.
  rewrite Z.land_ones by lia. now rewrite Z.shiftr_div_pow2 by lia.
Qed.

(** X1.  On a range inside the word, [get_unsigned] returns the bits [l] to
    [r] of the value as a number below [2^(r-l+1)]. *)
Theorem get_unsigned_field (value l r : Z) :
  0 <= l -> l <= r -> r <= 31 ->
  get_unsigned value l r = Ret ((value / 2 ^ l) mod 2 ^ (r - l + 1))
  /\ 0 <= (value / 2 ^ l) mod 2 ^ (r - l + 1) < 2 ^ (r - l + 1).
Proof.
  intros Hl Hlr Hr. rewrite get_unsigned_spec by lia.
  rewrite bitfield_div_mod by lia. split; [reflexivity |].
  apply Z.mod_pos_bound. apply Z.pow_pos_nonneg; lia.
Qed.

Lemma get_unsigned_field_witness :
  get_unsigned 5431 7 11 = Ret ((5431 / 2 ^ 7) mod 2 ^ (11 - 7 + 1))
  /\ 0 <= (5431 / 2 ^ 7) mod 2 ^ (11 - 7 + 1) < 2 ^ (11 - 7 + 1).
Proof. apply (get_unsigned_field 5431 7 11); lia. Defined.

(** X2.  On a range inside the word that does not end at bit 0, [get_signed]
    returns the number of that range in two's complement: it lies in
    [-2^(r-l), 2^(r-l)) and agrees with [get_unsigned] modulo
    [2^(r-l+1)]. *)
Theorem get_signed_field (value l r : Z) :
  0 <= l -> l <= r -> 1 <= r -> r <= 31 ->
  exists u result,
    get_unsigned value l r = Ret u
    /\ get_signed value l r = Ret result
    /\ - 2 ^ (r - l) <= result < 2 ^ (r - l)
    /\ result mod 2 ^ (r - l + 1) = u.
Proof.
  intros Hl Hlr Hr1 Hr.
  exists (bitfield value l r).
  destruct (get_signed_range value l r ltac:(lia) ltac:(lia)) as (result & Hres & Hrange).
  exists result. split; [apply get_unsigned_spec; lia |].
  split; [exact Hres |]. split; [exact Hrange |].
  rewrite get_signed_spec in Hres by lia. apply Ret_inj in Hres. subst result.
  pose proof (bitfield_range value l r ltac:(lia)) as Hb.
  pose proof (bitfield_top value l r ltac:(lia)) as Htop.
  destruct (Z.testbit value r).
  - replace (bitfield value l r - 2 ^ (r - l + 1))
      with (bitfield value l r + (-1) * 2 ^ (r - l + 1)) by lia.
    rewrite Z.mod_add by lia. apply Z.mod_small. exact Hb.
  - rewrite Htop, Z.add_0_r in Hb. rewrite Htop, Z.add_0_r. apply Z.mod_small. exact Hb.
Qed.

Lemma get_signed_field_witness :
  exists u result,
    get_unsigned 4095 0 11 = Ret u
    /\ get_signed 4095 0 11 = Ret result
    /\ - 2 ^ (11 - 0) <= result < 2 ^ (11 - 0)
    /\ result mod 2 ^ (11 - 0 + 1) = u.
Proof. apply (get_signed_field 4095 0 11); lia. Defined.

Lemma get_unsigned_loop_high (value l : Z) (fuel : nat) (i result : Z) :
  32 <= i < 2 ^ 64 ->
  get_unsigned_loop (S fuel) value l (2 ^ 64 - 1) i result = Undefined.
Proof.
  intros Hi. cbn [get_unsigned_loop].
  replace (2 ^ 64 - 1 <? i) with false by (symmetry; apply Z.ltb_ge; lia).
  replace (32 <=? i) with true by (symmetry; apply Z.leb_le; lia).
  reflexivity.
Qed.

(** X3.  With [r = -1] the call of [get_unsigned] never returns a number,
    whatever the value and the lower bound: the comparison [i <= r] is
    made in [std::size_t]. *)
Theorem get_unsigned_minus_one (value l : Z) :
  get_unsigned value l (-1) = Undefined.
Proof.
  unfold get_unsigned. change (to_size_t (-1)) with (2 ^ 64 - 1).
  assert (0 <= to_size_t l < 2 ^ 64) as Hl by (apply Z.mod_pos_bound; lia).
  destruct (Z.le_gt_cases (to_size_t l) 32) as [Hle | Hgt].
  - apply get_unsigned_loop_no_exit; [lia |]. change (Z.of_nat 33) with 33. lia.
  - apply (get_unsigned_loop_high value l 32). lia.
Qed.

(** ** Bit strings *)

Lemma bitset_drop (len d k : nat) (cmd : Z) :
  substring d len (bitset_to_string (d + k) cmd)
  = substring 0 len (bitset_to_string k cmd).
Proof. induction d as [| d IH]; [reflexivity | exact IH]. Qed.

Lemma substring_0_0 (s : string) : substring 0 0 s = EmptyString.
Proof. destruct s; reflexivity. Qed.

Lemma bitset_take (m : nat) (cmd : Z) :
  forall len : nat,
    substring 0 len (bitset_to_string (len + m) cmd)
    = bitset_to_string len (Z.shiftr cmd (Z.of_nat m)).
Proof.
  induction len as [| len IH]; [apply substring_0_0 |].
  cbn [Nat.add bitset_to_string substring]. rewrite IH.
  rewrite Z.shiftr_spec by lia.
  replace (Z.of_nat (len + m)) with (Z.of_nat len + Z.of_nat m) by lia. reflexivity.
Qed.

Lemma bitset_to_string_land (a : Z) (w : nat) :
  forall n : nat,
    (n <= w)%nat ->
    bitset_to_string n (Z.land a (Z.ones (Z.of_nat w))) = bitset_to_string n a.
Proof.
  induction n as [| n IH]; intros Hn; [reflexivity |].
  cbn [bitset_to_string]. rewrite IH by lia.
  rewrite Z.land_spec, Z.ones_spec_low by lia. now rewrite andb_true_r.
Qed.

Lemma get_segment_field (width : nat) (cmd l r : Z) :
  0 <= l -> l <= r -> r < Z.of_nat width ->
  substring (Z.to_nat (Z.of_nat width - r - 1)) (Z.to_nat (r - l + 1))
    (bitset_to_string width cmd)
  = bitset_to_string (Z.to_nat (r - l + 1)) (bitfield cmd l r).
Proof.
  intros Hl Hlr Hr.
  replace width
    with (Z.to_nat (Z.of_nat width - r - 1) + (Z.to_nat (r - l + 1) + Z.to_nat l))%nat
    at 2 by lia.
  rewrite bitset_drop, bitset_take. rewrite Z2Nat.id by lia.
  unfold bitfield. symmetry.
  replace (r - l + 1) with (Z.of_nat (Z.to_nat (r - l + 1))) at 2 by lia.
  apply bitset_to_string_land. lia.
Qed.

(** X4.  [get_segment] is the binary writing, most significant bit first, of
    the field that [get_unsigned] returns for the same range. *)
Theorem get_segment_get_unsigned (cmd l r : Z) :
  0 <= l -> l <= r -> r <= 31 ->
  exists field,
    get_unsigned cmd l r = Ret field
    /\ get_segment32 cmd l r = bitset_to_string (Z.to_nat (r - l + 1)) field
    /\ (r <= 15 ->
        get_segment16 cmd l r = bitset_to_string (Z.to_nat (r - l + 1)) field).
Proof.
  intros Hl Hlr Hr. exists (bitfield cmd l r).
  split; [apply get_unsigned_spec; lia |].
  split; [| intros Hr16].
  - unfold get_segment32. apply (get_segment_field 32); lia.
  - unfold get_segment16. apply (get_segment_field 16); lia.
Qed.

Lemma get_segment_get_unsigned_witness :
  exists field,
    get_unsigned 5431 0 6 = Ret field
    /\ get_segment32 5431 0 6 = bitset_to_string (Z.to_nat (6 - 0 + 1)) field
    /\ (6 <= 15 ->
        get_segment16 5431 0 6 = bitset_to_string (Z.to_nat (6 - 0 + 1)) field).
Proof. apply (get_segment_get_unsigned 5431 0 6); lia. Defined.

(** ** Register namer *)

Lemma get_reg_table (id : Z) :
  get_reg id
  = if (0 <=? id) && (id <=? 31)
    then Ret (nth (Z.to_nat id) abi_names EmptyString)
    else Throw "unknown register".
Proof.
  destruct ((0 <=? id) && (id <=? 31)) eqn:E.
  - apply andb_true_iff in E. destruct E as [E0 E31].
    apply Z.leb_le in E0. apply Z.leb_le in E31.
    assert (id = 0 \/ id = 1 \/ id = 2 \/ id = 3 \/ id = 4 \/ id = 5 \/ id = 6 \/ id = 7
            \/ id = 8 \/ id = 9 \/ id = 10 \/ id = 11 \/ id = 12 \/ id = 13 \/ id = 14
            \/ id = 15 \/ id = 16 \/ id = 17 \/ id = 18 \/ id = 19 \/ id = 20 \/ id = 21
            \/ id = 22 \/ id = 23 \/ id = 24 \/ id = 25 \/ id = 26 \/ id = 27 \/ id = 28
            \/ id = 29 \/ id = 30 \/ id = 31) as Hcases by lia.
    repeat destruct Hcases as [-> | Hcases]; try subst id; reflexivity.
  - assert (id < 0 \/ 31 < id) as Hout.
    { apply andb_false_iff in E. destruct E as [E | E]; apply Z.leb_gt in E; lia. }
    clear E. unfold get_reg.
    repeat match goal with
           | |- context [Z.eqb ?a ?b] => destruct (Z.eqb_spec a b); [lia |]
           | |- context [Z.leb ?a ?b] => destruct (Z.leb_spec a b)
           end; cbn [andb orb]; try reflexivity; lia.
Qed.

(** X5.  [get_reg] names exactly the indices 0 to 31, with their ABI names,
    and throws for every other index. *)
Theorem get_reg_abi (id : Z) :
  get_reg id
  = if (0 <=? id) && (id <=? 31)
    then Ret (nth (Z.to_nat id) abi_names EmptyString)
    else Throw "unknown register".
Proof. apply get_reg_table. Qed.

Lemma abi_names_NoDup : NoDup abi_names.
Proof. apply (bool_decide_unpack _). vm_compute. reflexivity. Qed.

(** X6.  Two indices with the same name are the same index. *)
Theorem get_reg_injective (id1 id2 : Z) (name : string) :
  get_reg id1 = Ret name -> get_reg id2 = Ret name -> id1 = id2.
Proof.
  rewrite !get_reg_table. intros H1 H2.
  destruct ((0 <=? id1) && (id1 <=? 31)) eqn:E1; [| discriminate H1].
  destruct ((0 <=? id2) && (id2 <=? 31)) eqn:E2; [| discriminate H2].
  apply andb_true_iff in E1. destruct E1 as [E1 E1'].
  apply andb_true_iff in E2. destruct E2 as [E2 E2'].
  apply Z.leb_le in E1, E1', E2, E2'.
  apply Ret_inj in H1. apply Ret_inj in H2.
  assert (Z.to_nat id1 = Z.to_nat id2) as Heq; [| lia].
  destruct (lookup_lt_is_Some_2 abi_names (Z.to_nat id1)) as [x1 Hx1]; [simpl; lia |].
  destruct (lookup_lt_is_Some_2 abi_names (Z.to_nat id2)) as [x2 Hx2]; [simpl; lia |].
  rewrite (nth_lookup_Some _ _ _ _ Hx1) in H1.
  rewrite (nth_lookup_Some _ _ _ _ Hx2) in H2.
  apply (proj1 (NoDup_alt abi_names) abi_names_NoDup _ _ name); congruence.
Qed.

Lemma get_reg_injective_witness : 10 = 10.
Proof.
  apply (get_reg_injective 10 10 "a0"); reflexivity.
Defined.

(** ** Displacements *)

Lemma testbit_top (u k : Z) :
  0 <= k -> 0 <= u < 2 ^ (k + 1) -> Z.testbit u k = (2 ^ k <=? u).
Proof.
  intros Hk Hu.
  assert (0 < 2 ^ k) as Hpos by (apply Z.pow_pos_nonneg; lia).
  replace (k + 1) with (Z.succ k) in Hu by lia. rewrite Z.pow_succ_r in Hu by lia.
  pose proof (Z.div_mod u (2 ^ k) ltac:(lia)) as Hdm.
  pose proof (Z.mod_pos_bound u (2 ^ k) Hpos) as Hb.
  assert (0 <= u / 2 ^ k <= 1) as Hq by nia.
  destruct (2 ^ k <=? u) eqn:E.
  - apply Z.leb_le in E. apply Z.testbit_true; [lia |].
    assert (u / 2 ^ k = 1) as -> by nia. reflexivity.
  - apply Z.leb_gt in E. apply Z.testbit_false; [lia |].
    assert (u / 2 ^ k = 0) as -> by nia. reflexivity.
Qed.

(** [get_signed] on a number that fits its range. *)
Lemma get_signed_small (u k : Z) :
  1 <= k <= 31 -> 0 <= u < 2 ^ (k + 1) ->
  get_signed u 0 k = Ret (if u <? 2 ^ k then u else u - 2 ^ (k + 1)).
Proof.
  intros Hk Hu. rewrite get_signed_spec by lia. f_equal.
  rewrite testbit_top by lia.
  assert (0 < 2 ^ k) as Hpos by (apply Z.pow_pos_nonneg; lia).
  rewrite !bitfield_div_mod by lia.
  change (2 ^ 0) with 1. rewrite Z.div_1_r.
  replace (k - 0 + 1) with (k + 1) by lia. replace (k - 1 - 0 + 1) with k by lia.
  destruct (2 ^ k <=? u) eqn:E.
  - apply Z.leb_le in E. replace (u <? 2 ^ k) with false by (symmetry; apply Z.ltb_ge; lia).
    now rewrite Z.mod_small by lia.
  - apply Z.leb_gt in E. replace (u <? 2 ^ k) with true by (symmetry; apply Z.ltb_lt; lia).
    now rewrite Z.mod_small by lia.
Qed.

(** Replaces the calls of [get_unsigned] by their fields, with the
    ranges of the fields in the context. *)
Ltac fields :=
  rewrite ?get_unsigned_spec by lia; cbv [bind];
  repeat match goal with
         | |- context [bitfield ?c ?l ?r] =>
             let b := fresh "b" in
             let Hb := fresh "Hb" in
             pose proof (bitfield_range c l r ltac:(lia)) as Hb;
             set (b := bitfield c l r) in *; clearbody b;
             let v := eval cbv in (2 ^ (r - l + 1)) in
             change (2 ^ (r - l + 1)) with v in Hb
         end;
  unfold add32, shl32, wrap32; rewrite ?Z.shiftl_mul_pow2 by lia;
  repeat match goal with
         | |- context [2 ^ ?n] =>
             let v := eval cbv in (2 ^ n) in change (2 ^ n) with v
         end;
  repeat match goal with
         | |- context [?a mod 4294967296] =>
             rewrite (Z.mod_small a 4294967296) by lia
         end.

(** A sum of even products is even. *)
Ltac parity :=
  rewrite Zmod_even, ?Z.even_add, ?Z.even_mul;
  cbn [Z.even]; rewrite ?orb_true_r; reflexivity.

(** A displacement: the sign extension of an even number [uvalue] below
    [2^(k+1)]. *)
Lemma get_signed_even (uvalue k : Z) :
  1 <= k <= 31 -> 0 <= uvalue < 2 ^ (k + 1) -> uvalue mod 2 = 0 ->
  exists value,
    get_signed uvalue 0 k = Ret value /\ - 2 ^ k <= value < 2 ^ k /\ value mod 2 = 0.
Proof.
  intros Hk Hu Heven. rewrite get_signed_small by lia.
  assert (0 < 2 ^ k) as Hpos by (apply Z.pow_pos_nonneg; lia).
  assert (2 ^ (k + 1) = 2 * 2 ^ k) as Hpow.
  { replace (k + 1) with (Z.succ k) by lia. apply Z.pow_succ_r. lia. }
  eexists. split; [reflexivity |].
  destruct (uvalue <? 2 ^ k) eqn:E; [apply Z.ltb_lt in E | apply Z.ltb_ge in E].
  - split; [lia | exact Heven].
  - split; [lia |]. rewrite Hpow.
    replace (uvalue - 2 * 2 ^ k) with (uvalue + (- 2 ^ k) * 2) by lia.
    now rewrite Z.mod_add by lia.
Qed.

Lemma cj_value_range (cmd16 : Z) :
  exists value, cj_value cmd16 = Ret value /\ -2048 <= value < 2048 /\ value mod 2 = 0.
Proof.
  unfold cj_value. fields.
  apply (get_signed_even _ 11); [lia | change (2 ^ (11 + 1)) with 4096; lia | parity].
Qed.

Lemma cb_value_range (cmd16 : Z) :
  exists value, cb_value cmd16 = Ret value /\ -256 <= value < 256 /\ value mod 2 = 0.
Proof.
  unfold cb_value. fields.
  apply (get_signed_even _ 8); [lia | change (2 ^ (8 + 1)) with 512; lia | parity].
Qed.

Lemma jal_value_range (cmd32 : Z) :
  exists value,
    jal_value cmd32 = Ret value /\ -1048576 <= value < 1048576 /\ value mod 2 = 0.
Proof.
  unfold jal_value. fields.
  apply (get_signed_even _ 20); [lia | change (2 ^ (20 + 1)) with 2097152; lia | parity].
Qed.

Lemma branch_value_range (cmd32 : Z) :
  exists value,
    branch_value cmd32 = Ret value /\ -4096 <= value < 4096 /\ value mod 2 = 0.
Proof.
  unfold branch_value. fields.
  apply (get_signed_even _ 12); [lia | change (2 ^ (12 + 1)) with 8192; lia | parity].
Qed.

(** X7.  The displacement of every jump and branch is an even number in the
    range of its format: 12 bits for [c.j] and [c.jal], 9 for [c.beqz] and
    [c.bnez], 21 for [jal], 13 for the conditional branches. *)
Theorem displacement_ranges (cmd : Z) :
  (exists value, cj_value cmd = Ret value /\ -2048 <= value < 2048 /\ value mod 2 = 0)
  /\ (exists value, cb_value cmd = Ret value /\ -256 <= value < 256 /\ value mod 2 = 0)
  /\ (exists value,
        jal_value cmd = Ret value /\ -1048576 <= value < 1048576 /\ value mod 2 = 0)
  /\ (exists value,
        branch_value cmd = Ret value /\ -4096 <= value < 4096 /\ value mod 2 = 0).
Proof.
  repeat split;
    [apply cj_value_range | apply cb_value_range | apply jal_value_range
    | apply branch_value_range].
Qed.

(** ** The vocabulary of the decoder *)

(** Settles [well_formed] for a command with a concrete mnemonic. *)
Ltac settle_well_formed :=
  first
    [ left; reflexivity
    | right; split;
      [reflexivity
      | split; [reflexivity | intros Hls; first [reflexivity | discriminate Hls]]]
    | exfalso;
      repeat match goal with
             | H : context [String.eqb ?x ?y] |- _ => destruct (String.eqb x y)
             end;
      cbn [orb andb negb] in *; congruence ].

Lemma decode_q0_well_formed (cmd16 : Z) (d : decoded) :
  decode_q0 cmd16 = Ret d -> cmd_name d = EmptyString \/ well_formed d.
Proof.
  unfold decode_q0, no_command, well_formed. intros H.
  invert_run H; subst d; cbn [cmd_name args is_load_store];
    split_names; settle_well_formed.
Qed.

Lemma decode_q1_well_formed (tags : gmap Z string) (adr cmd16 : Z) (d : decoded) :
  decode_q1 tags adr cmd16 = Ret d -> cmd_name d = EmptyString \/ well_formed d.
Proof.
  unfold decode_q1, no_command, well_formed. intros H.
  invert_run H; subst d; cbn [cmd_name args is_load_store];
    split_names; settle_well_formed.
Qed.

Lemma decode_q2_well_formed (cmd16 : Z) (d : decoded) :
  decode_q2 cmd16 = Ret d -> cmd_name d = EmptyString \/ well_formed d.
Proof.
  unfold decode_q2, no_command, well_formed. intros H.
  invert_run H; subst d; cbn [cmd_name args is_load_store];
    split_names; settle_well_formed.
Qed.

Lemma decode32_well_formed (tags : gmap Z string) (adr cmd32 : Z) (d : decoded) :
  decode_lui cmd32 = Ret d \/ decode_auipc cmd32 = Ret d \/ decode_op_imm cmd32 = Ret d
  \/ decode_op cmd32 = Ret d \/ decode_load cmd32 = Ret d \/ decode_store cmd32 = Ret d
  \/ decode_jal tags adr cmd32 = Ret d \/ decode_jalr cmd32 = Ret d
  \/ decode_branch tags adr cmd32 = Ret d ->
  cmd_name d = EmptyString \/ well_formed d.
Proof.
  unfold decode_lui, decode_auipc, decode_op_imm, decode_op, decode_load,
    decode_store, decode_jal, decode_jalr, decode_branch, no_command, well_formed.
  intros H. decompose [or] H; clear H;
    match goal with
    | Hd : _ = Ret d |- _ =>
        invert_run Hd; subst d; cbn [cmd_name args is_load_store];
        split_names; settle_well_formed
    end.
Qed.

Lemma decode_well_formed (tags : gmap Z string) (adr : Z) (s s' : ifstream)
    (cmd16 : Z) (d : decoded) :
  decode tags adr s cmd16 = Ret (d, s') -> cmd_name d = EmptyString \/ well_formed d.
Proof.
  unfold decode, with_cmd32. intros H.
  invert_run H; injection H as <- _.
  all: try (eapply (decode32_well_formed tags adr); pick_disjunct).
  all: eauto using decode_q0_well_formed, decode_q1_well_formed, decode_q2_well_formed.
Qed.

Lemma existsb_eqb_In (x : string) (l : list string) :
  existsb (String.eqb x) l = true <-> In x l.
Proof.
  rewrite existsb_exists. split.
  - intros (y & Hy & Heq). apply String.eqb_eq in Heq. now subst y.
  - intros Hin. exists x. split; [exact Hin | apply String.eqb_refl].
Qed.

(** X8.  Every mnemonic the decoder assigns is one of the 82 of [mnemonics];
    [c.flw], which the source names in a branch of quadrant 0, is not among
    them and is never assigned. *)
Theorem decode_vocabulary (tags : gmap Z string) (adr : Z) (s s' : ifstream)
    (cmd16 : Z) (d : decoded) :
  decode tags adr s cmd16 = Ret (d, s') ->
  (cmd_name d = EmptyString \/ In (cmd_name d) mnemonics)
  /\ cmd_name d <> "c.flw".
Proof.
  intros H. apply decode_well_formed in H.
  destruct H as [Hempty | (Hname & _)].
  - split; [now left |]. rewrite Hempty. discriminate.
  - split; [right; now apply existsb_eqb_In |].
    intros Hflw. rewrite Hflw in Hname. vm_compute in Hname. discriminate Hname.
Qed.

Lemma decode_vocabulary_witness :
  ("c.j" = EmptyString \/ In "c.j" mnemonics) /\ "c.j" <> "c.flw".
Proof.
  apply (decode_vocabulary {[ 0 := "main" ]} 0
           {| file := [x01; xa0]; tellg := 2 |} {| file := [x01; xa0]; tellg := 2 |}
           40961 {| cmd_name := "c.j"; args := ["main"]; is_load_store := false |}).
  vm_compute. reflexivity.
Defined.

(** X9.  A named command is printed in load/store syntax exactly if its
    mnemonic is one of [load_store_mnemonics], and it then has three
    operands: a register, an offset and a base register. *)
Theorem load_store_syntax (tags : gmap Z string) (adr : Z) (s s' : ifstream)
    (cmd16 : Z) (d : decoded) :
  decode tags adr s cmd16 = Ret (d, s') ->
  cmd_name d <> EmptyString ->
  (is_load_store d = true <-> In (cmd_name d) load_store_mnemonics)
  /\ (is_load_store d = true -> length (args d) = 3%nat).
Proof.
  intros H Hname. apply decode_well_formed in H.
  destruct H as [Hempty | (_ & Hls & Hargs)]; [contradiction |].
  split; [| exact Hargs].
  rewrite <- existsb_eqb_In, Hls. reflexivity.
Qed.

Lemma load_store_syntax_witness :
  (true = true <-> In "c.ld" load_store_mnemonics)
  /\ (true = true -> length ["s0"; "128"; "s0"] = 3%nat).
Proof.
  apply (load_store_syntax ∅ 0
           {| file := [x40; x60]; tellg := 2 |} {| file := [x40; x60]; tellg := 2 |}
           24640 {| cmd_name := "c.ld"; args := ["s0"; "128"; "s0"];
                    is_load_store := true |}).
  - vm_compute. reflexivity.
  - simpl. discriminate.
Defined.

(** ** The two shapes of a printed command *)

Lemma sprintf_shapes (a0 a1 a2 a3 : string) :
  sprintf_from Literal (print_format false 0) [ArgStr a0] = Ret (a0 +:+ LF)
  /\ sprintf_from Literal (print_format false 1) [ArgStr a0; ArgStr a1]
     = Ret (a0 +:+ " " +:+ a1 +:+ LF)
  /\ sprintf_from Literal (print_format false 2) [ArgStr a0; ArgStr a1; ArgStr a2]
     = Ret (a0 +:+ " " +:+ a1 +:+ ", " +:+ a2 +:+ LF)
  /\ sprintf_from Literal (print_format false 3)
       [ArgStr a0; ArgStr a1; ArgStr a2; ArgStr a3]
     = Ret (a0 +:+ " " +:+ a1 +:+ ", " +:+ a2 +:+ ", " +:+ a3 +:+ LF)
  /\ sprintf_from Literal (print_format true 0) [ArgStr a0] = Ret (a0 +:+ "()" +:+ LF)
  /\ sprintf_from Literal (print_format true 1) [ArgStr a0; ArgStr a1]
     = Ret (a0 +:+ "(" +:+ a1 +:+ ")" +:+ LF)
  /\ sprintf_from Literal (print_format true 2) [ArgStr a0; ArgStr a1; ArgStr a2]
     = Ret (a0 +:+ " " +:+ a1 +:+ "(" +:+ a2 +:+ ")" +:+ LF)
  /\ sprintf_from Literal (print_format true 3)
       [ArgStr a0; ArgStr a1; ArgStr a2; ArgStr a3]
     = Ret (a0 +:+ " " +:+ a1 +:+ ", " +:+ a2 +:+ "(" +:+ a3 +:+ ")" +:+ LF).
Proof. repeat split; reflexivity. Qed.

(** X10.  What [print_cmd] formats after the title, for a mnemonic with at
    most three operands, is the mnemonic, its operands separated by commas
    (the last one in parentheses in load/store syntax) and a line feed,
    when this text and its zero byte fit the buffer of 10000 bytes.  A
    longer text (an operand can be a symbol name of any length) runs over
    the buffer, which is undefined, and more than three operands throw. *)
Theorem print_args_render (name : string) (operands : list string) (load_store : bool) :
  print_args (name :: operands) load_store
  = if (length operands <=? 3)%nat
    then
      if Z.of_nat (String.length (name +:+ render_operands operands load_store +:+ LF))
         <? MAX_LENGTH
      then Ret (name +:+ render_operands operands load_store +:+ LF)
      else Undefined
    else Throw "wrong number of arguments for print_cmd function".
Proof.
  destruct operands as [| a1 [| a2 [| a3 [| a4 more]]]];
    cbn [print_args length Nat.leb]; [| | | | reflexivity];
    destruct load_store; cbn [render_operands]; rewrite ?append_assoc; unfold sprintf.
  - rewrite (proj1 (proj2 (proj2 (proj2 (proj2 (sprintf_shapes name name name name)))))).
    reflexivity.
  - rewrite (proj1 (sprintf_shapes name name name name)). reflexivity.
  - rewrite (proj1 (proj2 (proj2 (proj2 (proj2 (proj2
               (sprintf_shapes name a1 name name))))))).
    reflexivity.
  - rewrite (proj1 (proj2 (sprintf_shapes name a1 name name))). reflexivity.
  - rewrite (proj1 (proj2 (proj2 (proj2 (proj2 (proj2 (proj2
               (sprintf_shapes name a1 a2 name)))))))).
    reflexivity.
  - rewrite (proj1 (proj2 (proj2 (sprintf_shapes name a1 a2 name)))). reflexivity.
  - rewrite (proj2 (proj2 (proj2 (proj2 (proj2 (proj2 (proj2
               (sprintf_shapes name a1 a2 a3)))))))).
    reflexivity.
  - rewrite (proj1 (proj2 (proj2 (proj2 (sprintf_shapes name a1 a2 a3))))). reflexivity.
Qed.

(** ** Failures of the decoder *)

Lemma with_cmd32_failures (s : ifstream) (cmd16 : Z) (k : Z -> outcome decoded) :
  (forall cmd32, exists d, k cmd32 = Ret d) ->
  (exists d s', with_cmd32 s cmd16 k = Ret (d, s'))
  \/ (with_cmd32 s cmd16 k = IoFailure /\ read16 s = IoFailure).
Proof.
  intros Hk. unfold with_cmd32, get_cmd32, read16.
  destruct (byte_at s (tellg s)); [| now right].
  destruct (byte_at s (tellg s + 1)); [| now right].
  cbv [bind fst snd].
  match goal with |- context [k ?c] => destruct (Hk c) as [d ->] end. eauto.
Qed.

Lemma with_cmd32_jal_failures (tags : gmap Z string) (adr : Z) (s : ifstream)
    (cmd16 : Z) :
  (exists d s', with_cmd32 s cmd16 (decode_jal tags adr) = Ret (d, s'))
  \/ (with_cmd32 s cmd16 (decode_jal tags adr) = IoFailure /\ read16 s = IoFailure)
  \/ with_cmd32 s cmd16 (decode_jal tags adr) = Throw "unknown register".
Proof.
  unfold with_cmd32, get_cmd32, read16.
  destruct (byte_at s (tellg s)); [| now right; left].
  destruct (byte_at s (tellg s + 1)); [| now right; left].
  cbv [bind fst snd].
  match goal with
  | |- context [decode_jal tags adr ?c] =>
      destruct (decode_jal_outcome tags adr c) as [[d ->] | ->]
  end; eauto.
Qed.

(** X11.  [decode] has no undefined behaviour and fails in two ways only: the
    second half of a 32-bit command cannot be read, or the command is a
    [jal] whose register [get_reg] refuses.  A compressed command is
    always decoded. *)
Theorem decode_failures (tags : gmap Z string) (adr : Z) (s : ifstream) (cmd16 : Z) :
  (exists d s', decode tags adr s cmd16 = Ret (d, s'))
  \/ (decode tags adr s cmd16 = IoFailure /\ read16 s = IoFailure
      /\ get_segment16 cmd16 0 1 = "11")
  \/ (decode tags adr s cmd16 = Throw "unknown register"
      /\ get_segment16 cmd16 0 6 = "1101111").
Proof.
  unfold decode.
  destruct (quadrant_cases cmd16) as [Hq | [Hq | [Hq | Hq]]]; rewrite Hq;
    cbn [String.eqb Ascii.eqb Bool.eqb].
  - destruct (decode_q0_total cmd16) as [d ->]. left. eexists _, _. reflexivity.
  - destruct (decode_q1_total tags adr cmd16) as [d ->]. left. eexists _, _. reflexivity.
  - destruct (decode_q2_total cmd16) as [d ->]. left. eexists _, _. reflexivity.
  - assert (forall c, exists d, decode_lui c = Ret d) as Hlui
      by (intros c; exact (proj1 (decode32_total c))).
    assert (forall c, exists d, decode_auipc c = Ret d) as Hauipc
      by (intros c; exact (proj1 (proj2 (decode32_total c)))).
    assert (forall c, exists d, decode_op_imm c = Ret d) as Hopimm
      by (intros c; exact (proj1 (proj2 (proj2 (decode32_total c))))).
    assert (forall c, exists d, decode_op c = Ret d) as Hop
      by (intros c; exact (proj1 (proj2 (proj2 (proj2 (decode32_total c)))))).
    assert (forall c, exists d, decode_load c = Ret d) as Hload
      by (intros c; exact (proj1 (proj2 (proj2 (proj2 (proj2 (decode32_total c))))))).
    assert (forall c, exists d, decode_store c = Ret d) as Hstore
      by (intros c;
          exact (proj1 (proj2 (proj2 (proj2 (proj2 (proj2 (decode32_total c)))))))).
    assert (forall c, exists d, decode_jalr c = Ret d) as Hjalr
      by (intros c;
          exact (proj2 (proj2 (proj2 (proj2 (proj2 (proj2 (decode32_total c)))))))).
    pose proof (decode_branch_total tags adr) as Hbranch.
    repeat match goal with
           | |- context [if ?c then _ else _] => destruct c eqn:?
           end.
    all: try match goal with
             | |- context [with_cmd32 ?st ?c (decode_jal ?tg ?ad)] =>
                 destruct (with_cmd32_jal_failures tg ad st c)
                   as [Hok | [[Hio Hread] | Hthrow]];
                 [ left; exact Hok
                 | right; left; auto
                 | right; right; split; [exact Hthrow | now apply String.eqb_eq] ]
             | Hk : forall c, exists d, ?k c = Ret d
               |- context [with_cmd32 ?st ?c ?k] =>
                 destruct (with_cmd32_failures st c k Hk) as [Hok | [Hio Hread]];
                 [ left; exact Hok | right; left; auto ]
             end.
    left. eexists _, _. reflexivity.
Qed.

(** ** The length of a command *)

(** X12.  The decoder reads a second half-word exactly when the seven lowest
    bits of the first are one of the nine opcodes of its chain.  In every
    other case, that of a first half-word that ends in 11 with another
    opcode among them, the stream stays where the first half-word left
    it. *)
Theorem decode_length (tags : gmap Z string) (adr : Z) (s s' : ifstream)
    (cmd16 : Z) (d : decoded) :
  decode tags adr s cmd16 = Ret (d, s') ->
  s' = if existsb (String.eqb (get_segment16 cmd16 0 6)) opcodes32
       then seekg s (tellg s + 2) else s.
Proof.
  intros H. destruct (existsb _ opcodes32) eqn:E.
  - apply existsb_eqb_In in E.
    now apply (recognised_opcode_consumes_four tags adr s s' cmd16 d).
  - destruct (String.eqb_spec (get_segment16 cmd16 0 1) "11") as [Hq | Hq];
      [| now apply (compressed_consumes_two tags adr s s' cmd16 d)].
    unfold decode in H. rewrite Hq in H.
    cbn [existsb opcodes32] in E.
    repeat match type of E with
           | (_ || _) = false => apply orb_false_iff in E; destruct E as [?E E]
           end.
    repeat match goal with
           | E' : (get_segment16 cmd16 0 6 == _) = false |- _ => rewrite E' in H; clear E'
           end.
    cbn [String.eqb Ascii.eqb Bool.eqb] in H. now injection H as _ <-.
Qed.

Lemma decode_length_witness :
  {| file := [x13; x05; xa0; x00]; tellg := 4 |}
  = if existsb (String.eqb (get_segment16 1299 0 6)) opcodes32
    then seekg {| file := [x13; x05; xa0; x00]; tellg := 2 |}
               (tellg {| file := [x13; x05; xa0; x00]; tellg := 2 |} + 2)
    else {| file := [x13; x05; xa0; x00]; tellg := 2 |}.
Proof.
  apply (decode_length ∅ 0 _ _ 1299
           {| cmd_name := "addi"; args := ["a0"; "zero"; "10"]; is_load_store := false |}).
  vm_compute. reflexivity.
Defined.

(** ** The end of the loop *)

Lemma current_adr_start (s : ifstream) (text_offset : Z) :
  current_adr text_offset (seekg s text_offset) = 0.
Proof.
  unfold current_adr, wrap32. cbn [seekg tellg].
  rewrite Zminus_mod_idemp_l, Z.sub_diag. reflexivity.
Qed.

(** X13.  With one round of fuel for every two bytes of the section,
    [parse_text] comes to its end: the loop leaves by its condition or
    stops at a failed round. *)
Theorem parse_text_terminates (fuel : nat) (s : ifstream)
    (section_headers : list Elf32_section_header) (tags : gmap Z string)
    (h : Elf32_section_header) :
  nth_error section_headers (find_section section_headers TEXT_TYPE) = Some h ->
  sh_size h <= 2 ^ 32 - 4 ->
  sh_size h <= 2 * Z.of_nat fuel ->
  snd (parse_text fuel s section_headers tags) <> None.
Proof.
  intros Hh Hsize Hfuel. unfold parse_text. rewrite Hh.
  apply parse_text_loop_terminates; [exact Hsize |].
  rewrite current_adr_start. lia.
Qed.

Lemma parse_text_terminates_witness :
  snd (parse_text 2 (bytes_stream [x01; x00; x82; x80])
         [{| sh_type := TEXT_TYPE; sh_offset := 0; sh_size := 4 |}] ∅) <> None.
Proof.
  apply (parse_text_terminates 2 (bytes_stream [x01; x00; x82; x80])
           [{| sh_type := TEXT_TYPE; sh_offset := 0; sh_size := 4 |}] ∅
           {| sh_type := TEXT_TYPE; sh_offset := 0; sh_size := 4 |}).
  - reflexivity.
  - vm_compute. discriminate.
  - vm_compute. discriminate.
Defined.

(** ** The targets of jumps and branches *)

Lemma get_segment16_13_15 (cmd : Z) :
  get_segment16 cmd 13 15
  = String (bit_char cmd 15) (String (bit_char cmd 14) (String (bit_char cmd 13)
      EmptyString)).
Proof. reflexivity. Qed.

Lemma get_segment16_2_15 (cmd : Z) :
  get_segment16 cmd 2 15
  = String (bit_char cmd 15) (String (bit_char cmd 14) (String (bit_char cmd 13)
      (get_segment16 cmd 2 12))).
Proof. reflexivity. Qed.

Lemma get_segment32_0_6 (cmd : Z) :
  get_segment32 cmd 0 6
  = String (bit_char cmd 6) (String (bit_char cmd 5) (String (bit_char cmd 4)
      (String (bit_char cmd 3) (String (bit_char cmd 2)
         (String (bit_char cmd 1) (String (bit_char cmd 0) EmptyString)))))).
Proof. reflexivity. Qed.

Lemma get_segment32_12_14 (cmd : Z) :
  get_segment32 cmd 12 14
  = String (bit_char cmd 14) (String (bit_char cmd 13) (String (bit_char cmd 12)
      EmptyString)).
Proof. reflexivity. Qed.

(** The low half of the word that [get_cmd32] completes is the first
    half-word. *)
Lemma get_cmd32_low_bits (s s' : ifstream) (cmd16 cmd32 : Z) :
  get_cmd32 s cmd16 = Ret (cmd32, s') ->
  forall i : Z, 0 <= i < 16 -> Z.testbit cmd32 i = Z.testbit cmd16 i.
Proof.
  unfold get_cmd32. intros H i Hi.
  apply bind_Ret_inv in H. destruct H as ([hi s1] & _ & H).
  cbn [fst snd] in H. injection H as <- _.
  rewrite Z.lor_spec. unfold shl32, wrap32.
  rewrite Z.mod_pow2_bits_low by lia. rewrite Z.shiftl_spec_low by lia. reflexivity.
Qed.

Lemma get_cmd32_opcode (s s' : ifstream) (cmd16 cmd32 : Z) :
  get_cmd32 s cmd16 = Ret (cmd32, s') ->
  get_segment16 cmd16 0 6 = get_segment32 cmd32 0 6.
Proof.
  intros H. rewrite get_segment16_0_6, get_segment32_0_6. unfold bit_char.
  now rewrite !(get_cmd32_low_bits s s' cmd16 cmd32 H) by lia.
Qed.

Lemma decode_q1_jump (tags : gmap Z string) (adr cmd16 : Z) :
  compressed_jump cmd16 <> EmptyString ->
  exists (operands : list string) (disp : Z),
    displacement (compressed_jump cmd16) cmd16 = Ret disp
    /\ decode_q1 tags adr cmd16
       = Ret {| cmd_name := compressed_jump cmd16;
                args := app operands [resolve tags adr disp];
                is_load_store := false |}.
Proof.
  unfold compressed_jump, decode_q1.
  destruct (get_segment16 cmd16 0 1 == "01"); [| congruence].
  rewrite get_segment16_2_15, get_segment16_13_15. unfold bit_char.
  destruct (cj_value_range cmd16) as (jump & Hjump & _).
  destruct (cb_value_range cmd16) as (branch & Hbranch & _).
  destruct (reg_field8_total cmd16 7 ltac:(lia)) as [rs1 Hrs1].
  change (7 + 2) with 9 in Hrs1.
  destruct (Z.testbit cmd16 15), (Z.testbit cmd16 14), (Z.testbit cmd16 13);
    cbn [String.eqb Ascii.eqb Bool.eqb orb]; cbv zeta; intros Hname;
    try congruence; cbv [displacement];
    cbn [String.eqb Ascii.eqb Bool.eqb orb];
    rewrite ?Hjump, ?Hbranch, ?Hrs1; cbv [bind].
  - exists [rs1], branch. split; reflexivity.
  - exists [rs1], branch. split; reflexivity.
  - exists [], jump. split; reflexivity.
  - exists [], jump. split; reflexivity.
Qed.

Lemma decode_jal_low_register (tags : gmap Z string) (adr cmd32 : Z) :
  Z.testbit cmd32 11 = false ->
  exists (rd : string) (disp : Z),
    jal_value cmd32 = Ret disp
    /\ decode_jal tags adr cmd32
       = Ret {| cmd_name := "jal"; args := [rd; resolve tags adr disp];
                is_load_store := false |}.
Proof.
  intros Hbit. unfold decode_jal.
  rewrite get_signed_spec by lia. rewrite Hbit. cbv [bind].
  pose proof (bitfield_range cmd32 7 (11 - 1) ltac:(lia)) as Hb.
  change (2 ^ (11 - 1 - 7 + 1)) with 16 in Hb.
  unfold wrap32 at 1. rewrite Z.mod_small by lia.
  destruct (get_reg_total (bitfield cmd32 7 (11 - 1)) ltac:(lia)) as [rd ->].
  destruct (jal_value_range cmd32) as (disp & Hdisp & _). rewrite Hdisp.
  exists rd, disp. split; reflexivity.
Qed.

(** The defect of C3, for every word: a [jal] whose register index has
    its highest bit set (bit 11 of the word, a register from 16 on) ends
    in the exception of [get_reg]. *)
Lemma decode_jal_high_register (tags : gmap Z string) (adr cmd32 : Z) :
  Z.testbit cmd32 11 = true ->
  decode_jal tags adr cmd32 = Throw "unknown register".
Proof.
  intros Hbit. unfold decode_jal.
  rewrite get_signed_negative by (lia || exact Hbit). cbv [bind].
  pose proof (bitfield_range cmd32 7 11 ltac:(lia)) as Hb.
  change (2 ^ (11 - 7 + 1)) with 32 in *.
  rewrite get_reg_table.
  replace (wrap32 (bitfield cmd32 7 11 - 32) <=? 31) with false; [now rewrite andb_false_r |].
  symmetry. apply Z.leb_gt. unfold wrap32.
  replace (bitfield cmd32 7 11 - 32) with (bitfield cmd32 7 11 - 32 + 2 ^ 32 + (-1) * 2 ^ 32)
    by lia.
  rewrite Z.mod_add by lia. rewrite Z.mod_small by lia. lia.
Qed.

Lemma decode_branch_jump (tags : gmap Z string) (adr cmd32 : Z) :
  get_segment32 cmd32 0 6 = "1100011" ->
  base_jump cmd32 <> EmptyString ->
  exists (operands : list string) (disp : Z),
    displacement (base_jump cmd32) cmd32 = Ret disp
    /\ decode_branch tags adr cmd32
       = Ret {| cmd_name := base_jump cmd32;
                args := app operands [resolve tags adr disp];
                is_load_store := false |}.
Proof.
  intros Hopcode. unfold base_jump, decode_branch. rewrite Hopcode.
  cbn [String.eqb Ascii.eqb Bool.eqb]. cbv zeta.
  rewrite get_segment32_12_14. unfold bit_char.
  destruct (branch_value_range cmd32) as (disp & Hdisp & _).
  destruct (reg_field_total cmd32 15 ltac:(lia)) as [rs1 Hrs1].
  destruct (reg_field_total cmd32 20 ltac:(lia)) as [rs2 Hrs2].
  change (15 + 4) with 19 in Hrs1. change (20 + 4) with 24 in Hrs2.
  rewrite Hrs1, Hrs2, Hdisp. cbv [bind].
  destruct (Z.testbit cmd32 14), (Z.testbit cmd32 13), (Z.testbit cmd32 12);
    cbn [String.eqb Ascii.eqb Bool.eqb]; intros Hname; try congruence;
    cbv [displacement]; cbn [String.eqb Ascii.eqb Bool.eqb orb]; rewrite Hdisp;
    exists [rs1; rs2], disp; split; reflexivity.
Qed.

(** X29.  Every jump and branch that the bits of the command word encode is
    decoded to its mnemonic, with the target as its last operand: the
    tags entry at [adr + disp] taken modulo 2^32 when there is one, and
    the decimal text of [disp] otherwise, [disp] being the displacement of
    the word.  The command word is the half-word itself for [c.j],
    [c.jal], [c.beqz] and [c.bnez], and the word of 32 bits completed from
    the stream for [jal] and the six conditional branches; of the [jal]
    words those with a register below 16 (bit 11 clear) are meant. *)
Theorem jump_target_rendered (tags : gmap Z string) (adr : Z) (s s' : ifstream)
    (cmd16 cmd : Z) (name : string) :
  (cmd = cmd16 /\ s' = s /\ compressed_jump cmd16 = name)
  \/ (get_cmd32 s cmd16 = Ret (cmd, s') /\ base_jump cmd = name
      /\ (name = "jal" -> Z.testbit cmd 11 = false)) ->
  name <> EmptyString ->
  exists (operands : list string) (disp : Z),
    displacement name cmd = Ret disp
    /\ decode tags adr s cmd16
       = Ret ({| cmd_name := name;
                 args := app operands
                           [match tags !! ((adr + disp) mod 2 ^ 32) with
                            | Some label => label
                            | None => to_string disp
                            end];
                 is_load_store := false |}, s').
Proof.
  intros [(-> & -> & <-) | (Hcmd & <- & Hrd)] Hname.
  - destruct (decode_q1_jump tags adr cmd16 Hname) as (operands & disp & Hdisp & Hq1).
    exists operands, disp. split; [exact Hdisp |].
    unfold decode. unfold compressed_jump in Hname.
    destruct (String.eqb_spec (get_segment16 cmd16 0 1) "01") as [-> | ]; [| congruence].
    cbn [String.eqb Ascii.eqb Bool.eqb]. rewrite Hq1. reflexivity.
  - pose proof (get_cmd32_opcode s s' cmd16 cmd Hcmd) as Hopcode.
    unfold base_jump in Hname, Hrd.
    destruct (String.eqb_spec (get_segment32 cmd 0 6) "1101111") as [Hjal | _].
    + destruct (decode_jal_low_register tags adr cmd (Hrd eq_refl))
        as (rd & disp & Hdisp & Hdec).
      exists [rd], disp. unfold base_jump. rewrite Hjal.
      cbn [String.eqb Ascii.eqb Bool.eqb]. split; [exact Hdisp |].
      rewrite Hjal in Hopcode.
      unfold decode, with_cmd32.
      rewrite (opcode_ends_in_11 cmd16 "1101111" ltac:(cbn; tauto) Hopcode).
      rewrite Hopcode. cbn [String.eqb Ascii.eqb Bool.eqb].
      rewrite Hcmd. cbv [bind fst snd]. rewrite Hdec. reflexivity.
    + destruct (String.eqb_spec (get_segment32 cmd 0 6) "1100011") as [Hb | _];
        [| congruence].
      assert (base_jump cmd <> EmptyString) as Hname'
        by (unfold base_jump; rewrite Hb; exact Hname).
      destruct (decode_branch_jump tags adr cmd Hb Hname')
        as (operands & disp & Hdisp & Hdec).
      exists operands, disp. split; [exact Hdisp |].
      rewrite Hb in Hopcode.
      unfold decode, with_cmd32.
      rewrite (opcode_ends_in_11 cmd16 "1100011" ltac:(cbn; tauto) Hopcode).
      rewrite Hopcode. cbn [String.eqb Ascii.eqb Bool.eqb].
      rewrite Hcmd. cbv [bind fst snd]. rewrite Hdec. reflexivity.
Qed.

Lemma jump_target_rendered_witness :
  exists (operands : list string) (disp : Z),
    displacement "bne" 4273282787 = Ret disp
    /\ decode {[ 0 := "loop" ]} 4 {| file := [xe3; x1e; xb5; xfe]; tellg := 2 |} 7907
       = Ret ({| cmd_name := "bne";
                 args := app operands
                           [match ({[ 0 := "loop" ]} : gmap Z string)
                                    !! ((4 + disp) mod 2 ^ 32) with
                            | Some label => label
                            | None => to_string disp
                            end];
                 is_load_store := false |},
              {| file := [xe3; x1e; xb5; xfe]; tellg := 4 |}).
Proof.
  apply (jump_target_rendered {[ 0 := "loop" ]} 4
           {| file := [xe3; x1e; xb5; xfe]; tellg := 2 |}
           {| file := [xe3; x1e; xb5; xfe]; tellg := 4 |} 7907 4273282787 "bne").
  - right. split; [vm_compute; reflexivity |]. split; [vm_compute; reflexivity |].
    discriminate.
  - discriminate.
Defined.

(** C4.  The claim takes in every [jal], and the code does not render the
    target of a [jal] whose destination register is one of x16 to x31: the
    register index is read with [get_signed] (the defect of C3), so with
    bit 11 of the word set [get_reg] throws before the target is resolved.
    The round writes nothing for the command and ends the run, although
    the displacement of the word is there to be decoded. *)
Theorem jal_target_not_rendered (tags : gmap Z string) (text_offset : Z)
    (s s1 s2 : ifstream) (cmd16 hi : Z) :
  read16 s = Ret (cmd16, s1) ->
  read16 s1 = Ret (hi, s2) ->
  get_segment16 cmd16 0 6 = "1101111" ->
  Z.testbit cmd16 11 = true ->
  (exists disp : Z, jal_value (Z.lor (shl32 hi 16) cmd16) = Ret disp)
  /\ iteration tags text_offset s = (EmptyString, Throw "unknown register").
Proof.
  intros Hfirst Hsecond Hopcode Hbit.
  split; [destruct (jal_value_range (Z.lor (shl32 hi 16) cmd16)) as (disp & Hdisp & _);
          now exists disp |].
  assert (get_cmd32 s1 cmd16 = Ret (Z.lor (shl32 hi 16) cmd16, s2)) as Hcmd
    by (unfold get_cmd32; now rewrite Hsecond).
  assert (Z.testbit (Z.lor (shl32 hi 16) cmd16) 11 = true) as Hbit32
    by (rewrite (get_cmd32_low_bits s1 s2 cmd16 _ Hcmd) by lia; exact Hbit).
  unfold iteration. cbv zeta. rewrite Hfirst. cbv [bind]. cbn [fst snd].
  unfold decode, with_cmd32.
  rewrite (opcode_ends_in_11 cmd16 "1101111" ltac:(cbn; tauto) Hopcode).
  rewrite Hopcode. cbn [String.eqb Ascii.eqb Bool.eqb].
  rewrite Hcmd. cbv [bind fst snd].
  rewrite (decode_jal_high_register tags _ _ Hbit32). reflexivity.
Qed.

Lemma jal_target_not_rendered_witness :
  (exists disp : Z, jal_value (Z.lor (shl32 0 16) 2159) = Ret disp)
  /\ iteration {[ 0 := "main" ]} 0 (bytes_stream [x6f; x08; x00; x00])
     = (EmptyString, Throw "unknown register").
Proof.
  apply (jal_target_not_rendered {[ 0 := "main" ]} 0 (bytes_stream [x6f; x08; x00; x00])
           {| file := [x6f; x08; x00; x00]; tellg := 2 |}
           {| file := [x6f; x08; x00; x00]; tellg := 4 |} 2159 0).
  - vm_compute. reflexivity.
  - vm_compute. reflexivity.
  - vm_compute. reflexivity.
  - vm_compute. reflexivity.
Defined.

(** ** The addresses of a run *)

Lemma read16_within (s s1 : ifstream) (v : Z) :
  read16 s = Ret (v, s1) ->
  0 <= tellg s /\ tellg s1 <= Z.of_nat (length (file s1)).
Proof.
  unfold read16, byte_at. intros H.
  destruct (tellg s <? 0) eqn:E0; [discriminate H |].
  apply Z.ltb_ge in E0.
  destruct (nth_error (file s) (Z.to_nat (tellg s))); [| discriminate H].
  destruct (tellg s + 1 <? 0); [discriminate H |].
  destruct (nth_error (file s) (Z.to_nat (tellg s + 1))) eqn:E1; [| discriminate H].
  cbn [option_map] in H. injection H as _ <-. cbn [seekg file tellg].
  split; [exact E0 |].
  assert (Z.to_nat (tellg s + 1) < length (file s))%nat
    by (apply nth_error_Some; congruence).
  lia.
Qed.

(** After the first half-word, [decode] leaves the stream where it is or
    has read one more half-word from it. *)
Lemma decode_reads (tags : gmap Z string) (adr : Z) (s s' : ifstream)
    (cmd16 : Z) (d : decoded) :
  decode tags adr s cmd16 = Ret (d, s') ->
  s' = s \/ exists v, read16 s = Ret (v, s').
Proof.
  unfold decode, with_cmd32, get_cmd32. intros H.
  invert_run H; injection H as _ Hs; symmetry in Hs; auto.
  all: right;
    match goal with
    | Hg : bind (read16 _) _ = Ret ?a |- _ =>
        apply bind_Ret_inv in Hg; destruct Hg as ([v s1] & Hread & Hpair);
        apply Ret_inj in Hpair; subst a; cbn [fst snd] in Hs; subst s1;
        exists v; exact Hread
    end.
Qed.

Lemma iteration_within (tags : gmap Z string) (text_offset : Z) (s s' : ifstream) :
  snd (iteration tags text_offset s) = Ret s' ->
  file s' = file s /\ 0 <= tellg s /\ tellg s' <= Z.of_nat (length (file s)).
Proof.
  intros H. pose proof (iteration_advance _ _ _ _ H) as [Hfile _].
  split; [exact Hfile |].
  unfold iteration in H.
  destruct (read16 s) as [[cmd16 s1] | | |] eqn:Hread; simpl in H; try discriminate H.
  pose proof (read16_within _ _ _ Hread) as [Hpos Hlen].
  pose proof (read16_advance _ _ _ Hread) as Hs1.
  destruct (decode tags (current_adr text_offset s) s1 cmd16) as [[d s2] | | |] eqn:Hdec;
    simpl in H; try discriminate H.
  assert (s' = s2) as ->.
  { destruct (cmd_name d == ""); simpl in H.
    - now injection H.
    - destruct (snd (print_cmd _ _ _ _)); simpl in H; try discriminate H.
      now injection H. }
  split; [exact Hpos |].
  assert (file s1 = file s) as Hf1 by (rewrite Hs1; reflexivity).
  apply decode_reads in Hdec. destruct Hdec as [Heq | [v Hread2]].
  - subst s2. rewrite <- Hf1. exact Hlen.
  - apply read16_within in Hread2. rewrite <- Hfile. exact (proj2 Hread2).
Qed.

(** What the entries of a run and its end have in common: the address is
    even, inside [.text], and the distance of the stream position from the
    start of [.text]. *)
Lemma parse_text_loop_invariant (tags : gmap Z string) (text_offset text_size : Z) :
  text_size <= 2 ^ 32 - 4 ->
  forall (fuel : nat) (s : ifstream),
    tellg s - text_offset = current_adr text_offset s ->
    current_adr text_offset s mod 2 = 0 ->
    Forall (fun e => e_adr e mod 2 = 0 /\ 0 <= e_adr e < text_size
                     /\ e_pos e = text_offset + e_adr e)
           (fst (parse_text_loop fuel tags text_offset text_size s))
    /\ forall s',
         snd (parse_text_loop fuel tags text_offset text_size s) = Some (Ret s') ->
         file s' = file s
         /\ text_size <= tellg s' - text_offset
         /\ (tellg s' - text_offset) mod 2 = 0
         /\ (current_adr text_offset s < text_size ->
             tellg s' - text_offset <= text_size + 3
             /\ tellg s' <= Z.of_nat (length (file s))).
Proof.
  intros Hsize fuel. induction fuel as [| fuel IH]; intros s Hdist Heven; simpl.
  - destruct (current_adr text_offset s <? text_size) eqn:E; simpl.
    + split; [constructor | discriminate].
    + apply Z.ltb_ge in E. split; [constructor |].
      intros s' H. injection H as <-. rewrite Hdist. repeat split; auto; lia.
  - destruct (current_adr text_offset s <? text_size) eqn:E; simpl.
    + apply Z.ltb_lt in E.
      assert (0 <= current_adr text_offset s) as Hnonneg
        by (apply Z.mod_pos_bound; lia).
      destruct (snd (iteration tags text_offset s)) as [s1 | | |] eqn:Hit; simpl.
      * pose proof (iteration_advance _ _ _ _ Hit) as [Hfile Hstep].
        pose proof (iteration_within _ _ _ _ Hit) as (_ & _ & Hlen).
        assert (0 <= tellg s1 - tellg s <= 4) as Hk by lia.
        pose proof (current_adr_advance text_offset text_size (tellg s1 - tellg s)
                      s s1 Hsize E Hk ltac:(lia)) as Hadr.
        assert (current_adr text_offset s1 mod 2 = 0) as Heven1.
        { rewrite Hadr. destruct Hstep as [-> | ->].
          - replace (tellg s + 2 - tellg s) with (1 * 2) by lia.
            now rewrite Z.mod_add by lia.
          - replace (tellg s + 4 - tellg s) with (2 * 2) by lia.
            now rewrite Z.mod_add by lia. }
        destruct (IH s1 ltac:(lia) Heven1) as [Hall Hend].
        split.
        -- constructor; [cbn [e_adr e_pos]; repeat split; auto; lia | exact Hall].
        -- intros s' H. destruct (Hend s' H) as (Hf & Hge & Hev & Hover).
           split; [congruence |]. split; [exact Hge |]. split; [exact Hev |].
           intros _.
           destruct (Z.lt_ge_cases (current_adr text_offset s1) text_size) as [Hlt | Hge1].
           ++ destruct (Hover Hlt) as [Ho Hl]. split; [exact Ho |].
              rewrite <- Hfile. exact Hl.
           ++ assert (s' = s1) as ->.
              { destruct fuel; simpl in H;
                  (replace (current_adr text_offset s1 <? text_size) with false in H
                     by (symmetry; apply Z.ltb_ge; lia));
                  simpl in H; now injection H. }
              split; [lia | exact Hlen].
      * split; [| discriminate].
        constructor; [cbn [e_adr e_pos]; repeat split; auto; lia | constructor].
      * split; [| discriminate].
        constructor; [cbn [e_adr e_pos]; repeat split; auto; lia | constructor].
      * split; [| discriminate].
        constructor; [cbn [e_adr e_pos]; repeat split; auto; lia | constructor].
    + apply Z.ltb_ge in E. split; [constructor |].
      intros s' H. injection H as <-. rewrite Hdist. repeat split; auto; lia.
Qed.

(** X14.  Every round of [parse_text] starts at an even address inside [.text],
    and the stream is then that far from the start of the section. *)
Theorem parse_text_addresses (fuel : nat) (s : ifstream)
    (section_headers : list Elf32_section_header) (tags : gmap Z string)
    (h : Elf32_section_header) :
  nth_error section_headers (find_section section_headers TEXT_TYPE) = Some h ->
  sh_size h <= 2 ^ 32 - 4 ->
  Forall (fun e => e_adr e mod 2 = 0 /\ 0 <= e_adr e < sh_size h
                   /\ e_pos e = sh_offset h + e_adr e)
         (fst (parse_text fuel s section_headers tags)).
Proof.
  intros Hh Hsize. unfold parse_text. rewrite Hh.
  apply (parse_text_loop_invariant tags (sh_offset h) (sh_size h) Hsize fuel).
  - rewrite current_adr_start. cbn [seekg tellg]. lia.
  - rewrite current_adr_start. reflexivity.
Qed.

Lemma parse_text_addresses_witness :
  Forall (fun e => e_adr e mod 2 = 0 /\ 0 <= e_adr e < 4 /\ e_pos e = 0 + e_adr e)
         (fst (parse_text 8 (bytes_stream [x01; x00; x82; x80])
                 [{| sh_type := 1; sh_offset := 0; sh_size := 4 |}] ∅)).
Proof.
  apply (parse_text_addresses 8 (bytes_stream [x01; x00; x82; x80])
           [{| sh_type := 1; sh_offset := 0; sh_size := 4 |}] ∅
           {| sh_type := 1; sh_offset := 0; sh_size := 4 |}).
  - reflexivity.
  - vm_compute. discriminate.
Defined.

(** X15.  When [parse_text] comes to its end on a [.text] that is not empty,
    the section lies inside the file, and the stream stands at its end or
    at most 3 bytes behind it (a 32-bit command may reach over the end),
    an even number of bytes from its start. *)
Theorem parse_text_end (fuel : nat) (s s' : ifstream)
    (section_headers : list Elf32_section_header) (tags : gmap Z string)
    (h : Elf32_section_header) :
  nth_error section_headers (find_section section_headers TEXT_TYPE) = Some h ->
  0 < sh_size h <= 2 ^ 32 - 4 ->
  snd (parse_text fuel s section_headers tags) = Some (Ret s') ->
  file s' = file s
  /\ sh_size h <= tellg s' - sh_offset h <= sh_size h + 3
  /\ (tellg s' - sh_offset h) mod 2 = 0
  /\ sh_offset h + sh_size h <= Z.of_nat (length (file s)).
Proof.
  intros Hh Hsize. unfold parse_text. rewrite Hh. intros Hend.
  destruct (parse_text_loop_invariant tags (sh_offset h) (sh_size h) ltac:(lia) fuel
              (seekg s (sh_offset h))) as [_ Hinv].
  - rewrite current_adr_start. cbn [seekg tellg]. lia.
  - rewrite current_adr_start. reflexivity.
  - destruct (Hinv s' Hend) as (Hfile & Hge & Heven & Hover).
    rewrite current_adr_start in Hover. destruct (Hover ltac:(lia)) as [Hle Hlen].
    cbn [seekg file] in Hfile, Hlen.
    repeat split; auto; lia.
Qed.

Lemma parse_text_end_witness :
  file {| file := [x01; x00; x82; x80]; tellg := 4 |} = file (bytes_stream [x01; x00; x82; x80])
  /\ 4 <= tellg {| file := [x01; x00; x82; x80]; tellg := 4 |} - 0 <= 4 + 3
  /\ (tellg {| file := [x01; x00; x82; x80]; tellg := 4 |} - 0) mod 2 = 0
  /\ 0 + 4 <= Z.of_nat (length (file (bytes_stream [x01; x00; x82; x80]))).
Proof.
  apply (parse_text_end 8 (bytes_stream [x01; x00; x82; x80]) _
           [{| sh_type := 1; sh_offset := 0; sh_size := 4 |}] ∅
           {| sh_type := 1; sh_offset := 0; sh_size := 4 |}).
  - reflexivity.
  - vm_compute. split; [reflexivity | discriminate].
  - vm_compute. reflexivity.
Defined.

(** ** The printed address read back *)

Lemma hex_digit_value (z : Z) :
  (let n := Z.of_nat (nat_of_ascii (hex_digit (z mod 16))) in
   if n <? 58 then n - 48 else n - 87) = z mod 16.
Proof.
  pose proof (Z.mod_pos_bound z 16 ltac:(lia)) as Hb.
  assert (z mod 16 = 0 \/ z mod 16 = 1 \/ z mod 16 = 2 \/ z mod 16 = 3 \/ z mod 16 = 4
          \/ z mod 16 = 5 \/ z mod 16 = 6 \/ z mod 16 = 7 \/ z mod 16 = 8
          \/ z mod 16 = 9 \/ z mod 16 = 10 \/ z mod 16 = 11 \/ z mod 16 = 12
          \/ z mod 16 = 13 \/ z mod 16 = 14 \/ z mod 16 = 15) as Hcases by lia.
  repeat destruct Hcases as [-> | Hcases]; try rewrite Hcases; reflexivity.
Qed.

Lemma hex_value_fixed (n : nat) :
  forall (z : Z) (acc : string) (a : Z),
    hex_value (hex_fixed n z acc) a
    = hex_value acc (a * 16 ^ Z.of_nat n + z mod 16 ^ Z.of_nat n).
Proof.
  induction n as [| n IH]; intros z acc a.
  - cbn [hex_fixed]. change (16 ^ Z.of_nat 0) with 1. rewrite Z.mod_1_r. f_equal. lia.
  - cbn [hex_fixed]. rewrite IH. cbn [hex_value]. rewrite hex_digit_value. f_equal.
    rewrite Nat2Z.inj_succ, Z.pow_succ_r by lia.
    assert (0 < 16 ^ Z.of_nat n) as Hpos by (apply Z.pow_pos_nonneg; lia).
    rewrite (Z.rem_mul_r z 16 (16 ^ Z.of_nat n)) by lia. lia.
Qed.

Lemma substring_prefix (a b : string) : substring 0 (String.length a) (a +:+ b) = a.
Proof.
  induction a as [| c a IH]; cbn [String.length String.append substring].
  - apply substring_0_0.
  - now rewrite IH.
Qed.

(** X16.  The first eight characters of a line are hexadecimal digits whose
    value is the address given to [print_cmd], taken modulo 2^32. *)
Theorem printed_address_value (adr : Z) (tag title : string) :
  print_title adr tag = Ret title ->
  hex_value (substring 0 8 title) 0 = wrap32 adr.
Proof.
  intros H. rewrite (print_title_spec adr tag title H).
  replace 8%nat with (String.length (hex8 (wrap32 adr))) by apply length_hex_fixed.
  rewrite substring_prefix. unfold hex8. rewrite hex_value_fixed.
  cbn [hex_value]. change (16 ^ Z.of_nat 8) with (2 ^ 32).
  unfold wrap32. rewrite Z.mod_mod by lia. lia.
Qed.

Lemma printed_address_value_witness :
  hex_value (substring 0 8 "0000001a             ") 0 = wrap32 26.
Proof.
  apply (printed_address_value 26 "").
  vm_compute. reflexivity.
Defined.

(** ** Names of the symbol table *)

Lemma nibble_cases (m : Z) :
  0 <= m < 16 ->
  m = 0 \/ m = 1 \/ m = 2 \/ m = 3 \/ m = 4 \/ m = 5 \/ m = 6 \/ m = 7 \/ m = 8
  \/ m = 9 \/ m = 10 \/ m = 11 \/ m = 12 \/ m = 13 \/ m = 14 \/ m = 15.
Proof. lia. Qed.

(** X17.  Of the byte [st_info], the low four bits choose the type and the high
    four bits the bind.  The types 7, 8, 9, 11 and 14 and the binds 3 to 9,
    11 and 14 are refused with an exception; every other byte has a type
    name and a bind name. *)
Theorem symbol_info_names (info : Z) :
  0 <= info < 256 ->
  (if existsb (Z.eqb (info mod 16)) [7; 8; 9; 11; 14]
   then get_type info = Throw "unknown type in symtab"
   else exists name, get_type info = Ret name)
  /\ (if existsb (Z.eqb (info / 16)) [3; 4; 5; 6; 7; 8; 9; 11; 14]
      then get_bind info = Throw "unknown bind in symtab"
      else exists name, get_bind info = Ret name).
Proof.
  intros Hinfo. split.
  - assert (Z.land info 15 = info mod 16) as Hland
      by (change 15 with (Z.ones 4); now rewrite Z.land_ones by lia).
    unfold get_type. rewrite Hland.
    pose proof (nibble_cases (info mod 16) (Z.mod_pos_bound info 16 ltac:(lia))) as Hc.
    repeat destruct Hc as [-> | Hc]; try rewrite Hc; cbn; eauto.
  - unfold get_bind. rewrite Z.shiftr_div_pow2 by lia. change (2 ^ 4) with 16.
    assert (0 <= info / 16 < 16) as Hq
      by (split; [apply Z.div_pos; lia | apply Z.div_lt_upper_bound; lia]).
    pose proof (nibble_cases (info / 16) Hq) as Hc.
    repeat destruct Hc as [-> | Hc]; try rewrite Hc; cbn; eauto.
Qed.

Lemma symbol_info_names_witness :
  (if existsb (Z.eqb (18 mod 16)) [7; 8; 9; 11; 14]
   then get_type 18 = Throw "unknown type in symtab"
   else exists name, get_type 18 = Ret name)
  /\ (if existsb (Z.eqb (18 / 16)) [3; 4; 5; 6; 7; 8; 9; 11; 14]
      then get_bind 18 = Throw "unknown bind in symtab"
      else exists name, get_bind 18 = Ret name).
Proof. apply (symbol_info_names 18). lia. Defined.

Lemma read_c_string_bytes (name : string) (rest : list byte) :
  Forall (fun c => c <> "000"%char) (list_ascii_of_string name) ->
  read_c_string (app (string_bytes name) (x00 :: rest)) = Ret name.
Proof.
  unfold string_bytes. induction name as [| c name IH]; intros Hall.
  - reflexivity.
  - cbn [list_ascii_of_string map app read_c_string] in *.
    inversion Hall as [| ? ? Hc Hrest]; subst.
    destruct (Byte.eqb (byte_of_ascii c) x00) eqn:E.
    + apply Byte.byte_dec_bl in E. exfalso. apply Hc.
      rewrite <- (ascii_of_byte_of_ascii c), E. reflexivity.
    + rewrite (IH Hrest). cbv [bind]. now rewrite ascii_of_byte_of_ascii.
Qed.

(** X18.  A name that stands in the file at its offset in the string table,
    followed by a zero byte, is read back as it is. *)
Theorem get_name_round_trip (s : ifstream) (offset_inside_strtab strtab_offset : Z)
    (name : string) (rest : list byte) :
  offset_inside_strtab <> 0 ->
  Forall (fun c => c <> "000"%char) (list_ascii_of_string name) ->
  skipn (Z.to_nat (add32 strtab_offset offset_inside_strtab)) (file s)
  = app (string_bytes name) (x00 :: rest) ->
  get_name s offset_inside_strtab strtab_offset = Ret name.
Proof.
  intros Hoff Hname Hfile. unfold get_name.
  destruct (offset_inside_strtab =? 0) eqn:E; [apply Z.eqb_eq in E; contradiction |].
  rewrite Hfile. now apply read_c_string_bytes.
Qed.

Lemma get_name_round_trip_witness :
  get_name small_symtab_file 1 16 = Ret "main".
Proof.
  apply (get_name_round_trip small_symtab_file 1 16 "main" []).
  - discriminate.
  - repeat constructor; discriminate.
  - reflexivity.
Defined.

Lemma read_c_string_unterminated (bs : list byte) :
  Forall (fun b => b <> x00) bs -> read_c_string bs = IoFailure.
Proof.
  induction bs as [| b bs IH]; intros Hall; [reflexivity |].
  inversion Hall as [| ? ? Hb Hrest]; subst. cbn [read_c_string].
  destruct (Byte.eqb b x00) eqn:E.
  - apply Byte.byte_dec_bl in E. contradiction.
  - now rewrite (IH Hrest).
Qed.

(** X19.  A name that is not closed by a zero byte before the end of the file
    (or that starts behind the end) is a failed read; the offset 0 is the
    empty name without any read. *)
Theorem get_name_unterminated (s : ifstream) (offset_inside_strtab strtab_offset : Z) :
  Forall (fun b => b <> x00)
         (skipn (Z.to_nat (add32 strtab_offset offset_inside_strtab)) (file s)) ->
  get_name s offset_inside_strtab strtab_offset
  = if offset_inside_strtab =? 0 then Ret EmptyString else IoFailure.
Proof.
  intros Hall. unfold get_name.
  destruct (offset_inside_strtab =? 0); [reflexivity |].
  now apply read_c_string_unterminated.
Qed.

Lemma get_name_unterminated_witness :
  get_name (bytes_stream [x00; x6d; x61]) 1 0
  = if 1 =? 0 then Ret EmptyString else IoFailure.
Proof.
  apply (get_name_unterminated (bytes_stream [x00; x6d; x61]) 1 0).
  repeat constructor; discriminate.
Defined.

(** ** Sections *)

Lemma find_section_from_spec (section_headers : list Elf32_section_header)
    (section_type_id : Z) :
  forall i : nat,
    if existsb (fun h => sh_type h =? section_type_id) section_headers
    then exists (k : nat) (h : Elf32_section_header),
        find_section_from i section_headers section_type_id = (i + k)%nat
        /\ nth_error section_headers k = Some h
        /\ sh_type h = section_type_id
        /\ Forall (fun h' => sh_type h' <> section_type_id) (firstn k section_headers)
    else find_section_from i section_headers section_type_id = 0%nat.
Proof.
  induction section_headers as [| h rest IH]; intros i; cbn [existsb find_section_from].
  - reflexivity.
  - destruct (sh_type h =? section_type_id) eqn:E; cbn [orb].
    + apply Z.eqb_eq in E. exists 0%nat, h. repeat split; [lia | exact E | constructor].
    + apply Z.eqb_neq in E. specialize (IH (S i)).
      destruct (existsb _ rest); [| exact IH].
      destruct IH as (k & h' & Hfind & Hnth & Htype & Hbefore).
      exists (S k), h'. repeat split; [lia | exact Hnth | exact Htype |].
      cbn [firstn]. now constructor.
Qed.

(** X20.  [find_section] gives the index of the first header of the type asked
    for.  When no header has this type it gives 0, the index of the
    first header, whatever its type. *)
Theorem find_section_first (section_headers : list Elf32_section_header)
    (section_type_id : Z) :
  if existsb (fun h => sh_type h =? section_type_id) section_headers
  then exists h : Elf32_section_header,
      nth_error section_headers (find_section section_headers section_type_id) = Some h
      /\ sh_type h = section_type_id
      /\ Forall (fun h' => sh_type h' <> section_type_id)
           (firstn (find_section section_headers section_type_id) section_headers)
  else find_section section_headers section_type_id = 0%nat.
Proof.
  unfold find_section.
  pose proof (find_section_from_spec section_headers section_type_id 0) as H.
  destruct (existsb _ section_headers); [| exact H].
  destruct H as (k & h & Hfind & Hnth & Htype & Hbefore).
  rewrite Hfind. exists h. auto.
Qed.

(** ** Reading a symbol *)

Lemma skipn_cons_inv {A : Type} (n : nat) :
  forall (l : list A) (b : A) (t : list A),
    skipn n l = b :: t -> nth_error l n = Some b /\ skipn (S n) l = t.
Proof.
  induction n as [| n IH]; intros [| x l] b t H; cbn in *; try discriminate H.
  - injection H as -> ->. auto.
  - now apply IH.
Qed.

Lemma byte_of_N_value (z : Z) :
  Z.of_N (Byte.to_N (default x00 (Byte.of_N (Z.to_N (z mod 256))))) = z mod 256.
Proof.
  pose proof (Z.mod_pos_bound z 256 ltac:(lia)) as Hb.
  destruct (Byte.of_N (Z.to_N (z mod 256))) as [b |] eqn:E.
  - apply Byte.to_of_N in E. change (default x00 (Some b)) with b. rewrite E. lia.
  - apply Byte.of_N_None_iff in E. lia.
Qed.

Lemma lor_shiftl_8 (b hi : Z) :
  0 <= b < 256 -> 0 <= hi -> Z.lor b (Z.shiftl hi 8) = b + 256 * hi.
Proof.
  intros Hb Hhi. rewrite Z.shiftl_mul_pow2 by lia. change (2 ^ 8) with 256.
  rewrite <- Z.lxor_lor.
  - rewrite <- Z.add_nocarry_lxor; [lia |].
    apply Z.bits_inj'. intros n Hn. rewrite Z.land_spec, Z.bits_0.
    destruct (Z.ltb_spec n 8).
    + replace (hi * 256) with (hi * 2 ^ 8) by reflexivity.
      rewrite (Z.mul_pow2_bits_low hi 8 n) by lia. apply andb_false_r.
    + replace b with (b mod 2 ^ 8) by (apply Z.mod_small; change (2 ^ 8) with 256; lia).
      rewrite Z.mod_pow2_bits_high by lia. reflexivity.
  - apply Z.bits_inj'. intros n Hn. rewrite Z.land_spec, Z.bits_0.
    destruct (Z.ltb_spec n 8).
    + replace (hi * 256) with (hi * 2 ^ 8) by reflexivity.
      rewrite (Z.mul_pow2_bits_low hi 8 n) by lia. apply andb_false_r.
    + replace b with (b mod 2 ^ 8) by (apply Z.mod_small; change (2 ^ 8) with 256; lia).
      rewrite Z.mod_pow2_bits_high by lia. reflexivity.
Qed.

Lemma byte_at_range (s : ifstream) (pos b : Z) : byte_at s pos = Some b -> 0 <= b < 256.
Proof.
  unfold byte_at. destruct (pos <? 0); [discriminate |].
  destruct (nth_error (file s) (Z.to_nat pos)) as [x |]; [| discriminate].
  cbn [option_map]. intros H. injection H as <-.
  pose proof (Byte.to_N_bounded x). lia.
Qed.

Lemma read_le_range (s : ifstream) (n : nat) :
  forall (pos v : Z), read_le s pos n = Ret v -> 0 <= v < 2 ^ (8 * Z.of_nat n).
Proof.
  induction n as [| n IH]; intros pos v H; cbn [read_le] in H.
  - injection H as <-. cbn. lia.
  - destruct (byte_at s pos) as [b |] eqn:Hb; [| discriminate H].
    apply bind_Ret_inv in H. destruct H as (hi & Hhi & H). injection H as <-.
    apply byte_at_range in Hb. apply IH in Hhi.
    rewrite lor_shiftl_8 by lia.
    replace (8 * Z.of_nat (S n)) with (8 + 8 * Z.of_nat n) by lia.
    rewrite Z.pow_add_r by lia. change (2 ^ 8) with 256. lia.
Qed.

Lemma length_le_bytes (n : nat) : forall z : Z, length (le_bytes n z) = n.
Proof. induction n as [| n IH]; intros z; cbn [le_bytes length]; [| rewrite IH]; reflexivity. Qed.

Lemma read_le_bytes (s : ifstream) (n : nat) :
  forall (pos z : Z) (rest : list byte),
    0 <= pos ->
    skipn (Z.to_nat pos) (file s) = app (le_bytes n z) rest ->
    read_le s pos n = Ret (z mod 2 ^ (8 * Z.of_nat n)).
Proof.
  induction n as [| n IH]; intros pos z rest Hpos Hfile; cbn [read_le].
  - change (2 ^ (8 * Z.of_nat 0)) with 1. now rewrite Z.mod_1_r.
  - cbn [le_bytes app] in Hfile. apply skipn_cons_inv in Hfile.
    destruct Hfile as [Hnth Hrest].
    unfold byte_at. destruct (Z.ltb_spec pos 0); [lia |].
    rewrite Hnth. cbn [option_map]. rewrite byte_of_N_value.
    rewrite (IH (pos + 1) (z / 256) rest);
      [| lia | now replace (Z.to_nat (pos + 1)) with (S (Z.to_nat pos)) by lia].
    cbv [bind]. f_equal.
    assert (0 < 2 ^ (8 * Z.of_nat n)) as Hp by (apply Z.pow_pos_nonneg; lia).
    rewrite lor_shiftl_8;
      [| apply Z.mod_pos_bound; lia | apply Z.mod_pos_bound; exact Hp].
    replace (8 * Z.of_nat (S n)) with (8 + 8 * Z.of_nat n) by lia.
    rewrite Z.pow_add_r by lia. change (2 ^ 8) with 256.
    now rewrite (Z.rem_mul_r z 256 (2 ^ (8 * Z.of_nat n))) by lia.
Qed.

Lemma skipn_length_app {A : Type} (a b : list A) : skipn (length a) (app a b) = b.
Proof. induction a as [| x a IH]; [reflexivity | exact IH]. Qed.

Lemma read_le_field (s : ifstream) (n : nat) (pos z : Z) (before rest : list byte) :
  0 <= pos ->
  0 <= z < 2 ^ (8 * Z.of_nat n) ->
  skipn (Z.to_nat pos) (file s) = app before (app (le_bytes n z) rest) ->
  read_le s (pos + Z.of_nat (length before)) n = Ret z.
Proof.
  intros Hpos Hz Hfile.
  rewrite (read_le_bytes s n (pos + Z.of_nat (length before)) z rest).
  - now rewrite Z.mod_small.
  - lia.
  - replace (Z.to_nat (pos + Z.of_nat (length before)))
      with (length before + Z.to_nat pos)%nat by lia.
    rewrite <- skipn_skipn, Hfile. apply skipn_length_app.
Qed.

Ltac offset_in H :=
  match type of H with
  | context [Z.of_nat ?n] =>
      let v := eval cbv in (Z.of_nat n) in change (Z.of_nat n) with v in H
  end.

(** X21.  [read_sym] reads the six fields of a symbol back from its sixteen
    bytes: each field least significant byte first, in the order of the
    packed structure. *)
Theorem read_sym_round_trip (s : ifstream) (pos : Z) (sym : Elf32_Sym) (rest : list byte) :
  0 <= pos ->
  sym_in_range sym ->
  skipn (Z.to_nat pos) (file s) = app (sym_bytes sym) rest ->
  read_sym s pos = Ret sym.
Proof.
  intros Hpos (Hname & Hvalue & Hsize & Hinfo & Hother & Hshndx) Hfile.
  destruct sym as [name value size info other shndx].
  unfold sym_bytes in Hfile. cbn [st_name st_value st_size st_info st_other st_shndx] in *.
  unfold read_sym.
  pose proof (read_le_field s 4 pos name [] _ Hpos Hname Hfile) as H0.
  rewrite <- !app_assoc in Hfile.
  cbn [length Z.of_nat] in H0. rewrite Z.add_0_r in H0. rewrite H0. cbv [bind].
  pose proof (read_le_field s 4 pos value (le_bytes 4 name) _ Hpos Hvalue Hfile) as H1.
  rewrite length_le_bytes in H1. offset_in H1. rewrite H1.
  rewrite (app_assoc (le_bytes 4 name)) in Hfile.
  pose proof (read_le_field s 4 pos size _ _ Hpos Hsize Hfile) as H2.
  rewrite length_app, !length_le_bytes in H2. offset_in H2. rewrite H2.
  rewrite (app_assoc (app (le_bytes 4 name) (le_bytes 4 value))) in Hfile.
  pose proof (read_le_field s 1 pos info _ _ Hpos Hinfo Hfile) as H3.
  rewrite !length_app, !length_le_bytes in H3. offset_in H3. rewrite H3.
  rewrite (app_assoc (app (app (le_bytes 4 name) (le_bytes 4 value)) (le_bytes 4 size)))
    in Hfile.
  pose proof (read_le_field s 1 pos other _ _ Hpos Hother Hfile) as H4.
  rewrite !length_app, !length_le_bytes in H4. offset_in H4. rewrite H4.
  rewrite (app_assoc
             (app (app (app (le_bytes 4 name) (le_bytes 4 value)) (le_bytes 4 size))
                (le_bytes 1 info))) in Hfile.
  pose proof (read_le_field s 2 pos shndx _ _ Hpos Hshndx Hfile) as H5.
  rewrite !length_app, !length_le_bytes in H5. offset_in H5. rewrite H5.
  reflexivity.
Qed.

Lemma read_sym_round_trip_witness :
  read_sym small_symtab_file 0
  = Ret {| st_name := 1; st_value := 65652; st_size := 0;
           st_info := 18; st_other := 0; st_shndx := 1 |}.
Proof.
  apply (read_sym_round_trip small_symtab_file 0
           {| st_name := 1; st_value := 65652; st_size := 0;
              st_info := 18; st_other := 0; st_shndx := 1 |}
           [x00; x6d; x61; x69; x6e; x00]).
  - lia.
  - unfold sym_in_range. cbn. lia.
  - reflexivity.
Defined.

(** ** The lines of the symbol table *)

Lemma symtab_section_length (s : ifstream) (strtab_offset : Z) (h : Elf32_section_header)
    (count : nat) :
  forall id_in_section : Z,
    snd (symtab_section count s strtab_offset h id_in_section) = Ret tt ->
    length (fst (symtab_section count s strtab_offset h id_in_section)) = count.
Proof.
  induction count as [| count IH]; intros id; cbn [symtab_section]; [reflexivity |].
  cbv zeta.
  destruct (bind (read_sym s _) _) as [line | w | |]; cbn [fst snd length];
    cbv [rethrow bind]; try discriminate.
  intros H. now rewrite IH.
Qed.

Lemma symtab_sections_length (s : ifstream) (strtab_offset : Z)
    (section_headers : list Elf32_section_header) :
  snd (symtab_sections s strtab_offset section_headers) = Ret tt ->
  length (fst (symtab_sections s strtab_offset section_headers))
  = symtab_count section_headers.
Proof.
  induction section_headers as [| h rest IH]; cbn [symtab_sections symtab_count];
    [reflexivity |].
  destruct (sh_type h =? SYMTAB_TYPE); [| exact IH].
  cbv zeta.
  pose proof (symtab_section_length s strtab_offset h (Z.to_nat (sh_size h / 16)) 0) as Hsec.
  destruct (snd (symtab_section (Z.to_nat (sh_size h / 16)) s strtab_offset h 0))
    as [[] | w | |] eqn:E; cbn [fst snd]; try (rewrite E; discriminate).
  intros H. rewrite length_app, Hsec, IH by auto. reflexivity.
Qed.

(** X22.  When [parse_symtab] comes to its end, it has written the header line
    and then one line for every symbol of every section of type
    [SYMTAB_TYPE]. *)
Theorem parse_symtab_lines (s : ifstream) (section_headers : list Elf32_section_header) :
  snd (parse_symtab s section_headers) = Ret tt ->
  exists body : list string,
    fst (parse_symtab s section_headers)
    = ("Symbol Value              Size Type     Bind     Vis       Index Name" +:+ LF) :: body
    /\ length body = symtab_count section_headers.
Proof.
  unfold parse_symtab.
  destruct (nth_error section_headers (find_section section_headers STRTAB_TYPE))
    as [strtab |]; [| discriminate].
  rewrite symtab_header_text. cbv zeta. cbn [fst snd]. intros H.
  eexists. split; [reflexivity | now apply symtab_sections_length].
Qed.

Lemma parse_symtab_lines_witness :
  exists body : list string,
    fst (parse_symtab small_symtab_file small_symtab_headers)
    = ("Symbol Value              Size Type     Bind     Vis       Index Name" +:+ LF) :: body
    /\ length body = symtab_count small_symtab_headers.
Proof.
  apply (parse_symtab_lines small_symtab_file small_symtab_headers).
  vm_compute. reflexivity.
Defined.

(** ** The tags *)

Lemma tags_section_sound (s : ifstream) (strtab_offset : Z) (h : Elf32_section_header)
    (count : nat) :
  forall (id_in_section : Z) (tags tags' : gmap Z string),
    tags_section count s strtab_offset h id_in_section tags = Ret tags' ->
    forall (a : Z) (name : string),
      tags' !! a = Some name ->
      tags !! a = Some name
      \/ exists (id : Z) (sym : Elf32_Sym),
           id_in_section <= id < id_in_section + Z.of_nat count
           /\ read_sym s (to_int32 (sh_offset h + id * 16)) = Ret sym
           /\ st_value sym = a
           /\ get_name s (st_name sym) strtab_offset = Ret name
           /\ name <> EmptyString.
Proof.
  induction count as [| count IH]; intros id tags tags' H a name Ha; cbn [tags_section] in H.
  - injection H as <-. now left.
  - apply bind_Ret_inv in H. destruct H as (sym & Hsym & H).
    apply bind_Ret_inv in H. destruct H as (name0 & Hname & H).
    destruct (IH _ _ _ H a name Ha) as [Hold | (id' & sym' & Hid & Hrest)].
    + revert Hold. destruct (String.eqb_spec name0 "") as [-> | Hne]; intros Hold;
        [now left |].
      apply lookup_insert_Some in Hold. destruct Hold as [[<- <-] | [_ Hold]]; [| now left].
      right. exists id, sym. repeat split; try lia; assumption.
    + right. exists id', sym'. split; [lia | exact Hrest].
Qed.

Lemma tags_sections_sound (s : ifstream) (strtab_offset : Z)
    (section_headers : list Elf32_section_header) :
  forall (tags tags' : gmap Z string),
    tags_sections s strtab_offset section_headers tags = Ret tags' ->
    forall (a : Z) (name : string),
      tags' !! a = Some name ->
      tags !! a = Some name
      \/ exists (h : Elf32_section_header) (id : Z) (sym : Elf32_Sym),
           In h section_headers
           /\ sh_type h = SYMTAB_TYPE
           /\ 0 <= id < sh_size h / 16
           /\ read_sym s (to_int32 (sh_offset h + id * 16)) = Ret sym
           /\ st_value sym = a
           /\ get_name s (st_name sym) strtab_offset = Ret name
           /\ name <> EmptyString.
Proof.
  induction section_headers as [| h rest IH]; intros tags tags' H a name Ha;
    cbn [tags_sections] in H.
  - injection H as <-. now left.
  - destruct (sh_type h =? SYMTAB_TYPE) eqn:E.
    + apply Z.eqb_eq in E.
      apply bind_Ret_inv in H. destruct H as (tags1 & H1 & H).
      destruct (IH _ _ H a name Ha) as [Hold | (h' & id & sym & Hin & Hrest)].
      * destruct (tags_section_sound _ _ _ _ _ _ _ H1 a name Hold)
          as [Hold' | (id & sym & Hid & Hrest)]; [now left |].
        right. exists h, id, sym. split; [now left |]. split; [exact E |].
        split; [| exact Hrest].
        set (q := sh_size h / 16) in *. lia.
      * right. exists h', id, sym. split; [now right | exact Hrest].
    + destruct (IH _ _ H a name Ha) as [Hold | (h' & id & sym & Hin & Hrest)];
        [now left |].
      right. exists h', id, sym. split; [now right | exact Hrest].
Qed.

Lemma calc_tags_named (s : ifstream) (section_headers : list Elf32_section_header)
    (tags : gmap Z string) (a : Z) (name : string) :
  calc_tags s section_headers = Ret tags ->
  tags !! a = Some name ->
  named_symbol s section_headers a name.
Proof.
  unfold calc_tags, named_symbol.
  destruct (nth_error section_headers (find_section section_headers STRTAB_TYPE))
    as [strtab |]; [| discriminate].
  intros H Ha.
  destruct (tags_sections_sound _ _ _ _ _ H a name Ha)
    as [Hempty | (h & id & sym & Hin & Htype & Hid & Hrest)].
  - rewrite lookup_empty in Hempty. discriminate Hempty.
  - exists strtab, h, id, sym. auto.
Qed.

Lemma read_sym_value_range (s : ifstream) (pos : Z) (sym : Elf32_Sym) :
  read_sym s pos = Ret sym -> 0 <= st_value sym < 2 ^ 32.
Proof.
  unfold read_sym. intros H.
  apply bind_Ret_inv in H. destruct H as (name & _ & H).
  apply bind_Ret_inv in H. destruct H as (value & Hvalue & H).
  apply bind_Ret_inv in H. destruct H as (size & _ & H).
  apply bind_Ret_inv in H. destruct H as (info & _ & H).
  apply bind_Ret_inv in H. destruct H as (other & _ & H).
  apply bind_Ret_inv in H. destruct H as (shndx & _ & H).
  injection H as <-. cbn [st_value].
  apply read_le_range in Hvalue. exact Hvalue.
Qed.

(** X23.  Every tag that [calc_tags] gives is the name, not empty, of a symbol
    of the file whose value is the address of the tag; the address is a
    32-bit value. *)
Theorem calc_tags_sound (s : ifstream) (section_headers : list Elf32_section_header)
    (tags : gmap Z string) (a : Z) (name : string) :
  calc_tags s section_headers = Ret tags ->
  tags !! a = Some name ->
  named_symbol s section_headers a name /\ 0 <= a < 2 ^ 32.
Proof.
  intros H Ha. pose proof (calc_tags_named _ _ _ _ _ H Ha) as Hnamed.
  split; [exact Hnamed |].
  destruct Hnamed as (strtab & h & id & sym & _ & _ & _ & _ & Hsym & <- & _).
  now apply read_sym_value_range in Hsym.
Qed.

Lemma calc_tags_sound_witness :
  named_symbol small_symtab_file small_symtab_headers 65652 "main" /\ 0 <= 65652 < 2 ^ 32.
Proof.
  apply (calc_tags_sound small_symtab_file small_symtab_headers (<[65652 := "main"]> ∅)).
  - vm_compute. reflexivity.
  - vm_compute. reflexivity.
Defined.

Lemma tags_section_mono (s : ifstream) (strtab_offset : Z) (h : Elf32_section_header)
    (count : nat) :
  forall (id_in_section : Z) (tags tags' : gmap Z string),
    tags_section count s strtab_offset h id_in_section tags = Ret tags' ->
    forall a : Z, is_Some (tags !! a) -> is_Some (tags' !! a).
Proof.
  induction count as [| count IH]; intros id tags tags' H a Ha; cbn [tags_section] in H.
  - now injection H as <-.
  - apply bind_Ret_inv in H. destruct H as (sym & Hsym & H).
    apply bind_Ret_inv in H. destruct H as (name0 & Hname & H).
    apply (IH _ _ _ H). destruct (name0 == ""); [exact Ha |].
    apply lookup_insert_is_Some.
    destruct (Z.eq_dec (st_value sym) a); [now left | now right].
Qed.

Lemma tags_section_complete (s : ifstream) (strtab_offset : Z) (h : Elf32_section_header)
    (count : nat) :
  forall (id_in_section : Z) (tags tags' : gmap Z string),
    tags_section count s strtab_offset h id_in_section tags = Ret tags' ->
    forall (id : Z) (sym : Elf32_Sym) (name : string),
      id_in_section <= id < id_in_section + Z.of_nat count ->
      read_sym s (to_int32 (sh_offset h + id * 16)) = Ret sym ->
      get_name s (st_name sym) strtab_offset = Ret name ->
      name <> EmptyString ->
      is_Some (tags' !! st_value sym).
Proof.
  induction count as [| count IH];
    intros id0 tags tags' H id sym name Hid Hsym Hname Hne; cbn [tags_section] in H.
  - lia.
  - apply bind_Ret_inv in H. destruct H as (sym0 & Hsym0 & H).
    apply bind_Ret_inv in H. destruct H as (name0 & Hname0 & H).
    destruct (Z.eq_dec id id0) as [-> | Hother].
    + rewrite Hsym in Hsym0. injection Hsym0 as <-.
      rewrite Hname in Hname0. injection Hname0 as <-.
      apply (tags_section_mono _ _ _ _ _ _ _ H).
      destruct (String.eqb_spec name ""); [contradiction |].
      apply lookup_insert_is_Some. now left.
    + apply (IH _ _ _ H id sym name); [lia | assumption ..].
Qed.

Lemma tags_sections_mono (s : ifstream) (strtab_offset : Z)
    (section_headers : list Elf32_section_header) :
  forall (tags tags' : gmap Z string),
    tags_sections s strtab_offset section_headers tags = Ret tags' ->
    forall a : Z, is_Some (tags !! a) -> is_Some (tags' !! a).
Proof.
  induction section_headers as [| h rest IH]; intros tags tags' H a Ha;
    cbn [tags_sections] in H.
  - now injection H as <-.
  - destruct (sh_type h =? SYMTAB_TYPE); [| now apply (IH _ _ H)].
    apply bind_Ret_inv in H. destruct H as (tags1 & H1 & H).
    apply (IH _ _ H). now apply (tags_section_mono _ _ _ _ _ _ _ H1).
Qed.

Lemma tags_sections_complete (s : ifstream) (strtab_offset : Z)
    (section_headers : list Elf32_section_header) :
  forall (tags tags' : gmap Z string),
    tags_sections s strtab_offset section_headers tags = Ret tags' ->
    forall (h : Elf32_section_header) (id : Z) (sym : Elf32_Sym) (name : string),
      In h section_headers ->
      sh_type h = SYMTAB_TYPE ->
      0 <= id < sh_size h / 16 ->
      read_sym s (to_int32 (sh_offset h + id * 16)) = Ret sym ->
      get_name s (st_name sym) strtab_offset = Ret name ->
      name <> EmptyString ->
      is_Some (tags' !! st_value sym).
Proof.
  induction section_headers as [| h0 rest IH];
    intros tags tags' H h id sym name Hin Htype Hid Hsym Hname Hne;
    cbn [tags_sections] in H; [destruct Hin |].
  destruct Hin as [-> | Hin].
  - rewrite Htype, Z.eqb_refl in H.
    apply bind_Ret_inv in H. destruct H as (tags1 & H1 & H).
    apply (tags_sections_mono _ _ _ _ _ H).
    apply (tags_section_complete _ _ _ _ _ _ _ H1 id sym name); try assumption.
    set (q := sh_size h / 16) in *. lia.
  - destruct (sh_type h0 =? SYMTAB_TYPE).
    + apply bind_Ret_inv in H. destruct H as (tags1 & H1 & H).
      now apply (IH _ _ H h id sym name).
    + now apply (IH _ _ H h id sym name).
Qed.

(** X24.  Every address that is the value of a symbol with a name has a tag,
    and this tag is the name of a symbol with this value (of the symbol
    itself, or of another one with the same value). *)
Theorem calc_tags_complete (s : ifstream) (section_headers : list Elf32_section_header)
    (tags : gmap Z string) (a : Z) (name : string) :
  calc_tags s section_headers = Ret tags ->
  named_symbol s section_headers a name ->
  exists name' : string, tags !! a = Some name' /\ named_symbol s section_headers a name'.
Proof.
  intros H (strtab & h & id & sym & Hstrtab & Hin & Htype & Hid & Hsym & <- & Hname & Hne).
  assert (is_Some (tags !! st_value sym)) as [name' Hname'].
  { unfold calc_tags in H. rewrite Hstrtab in H.
    now apply (tags_sections_complete _ _ _ _ _ H h id sym name). }
  exists name'. split; [exact Hname' |]. now apply (calc_tags_named _ _ _ _ _ H).
Qed.

Lemma calc_tags_complete_witness :
  exists name' : string,
    (<[65652 := "main"]> ∅ : gmap Z string) !! 65652 = Some name'
    /\ named_symbol small_symtab_file small_symtab_headers 65652 name'.
Proof.
  apply (calc_tags_complete small_symtab_file small_symtab_headers
           (<[65652 := "main"]> ∅) 65652 "main").
  - vm_compute. reflexivity.
  - exists {| sh_type := STRTAB_TYPE; sh_offset := 16; sh_size := 6 |},
      {| sh_type := SYMTAB_TYPE; sh_offset := 0; sh_size := 16 |}, 0,
      {| st_name := 1; st_value := 65652; st_size := 0;
         st_info := 18; st_other := 0; st_shndx := 1 |}.
    repeat split; try reflexivity; try discriminate.
    now left.
Defined.

(** ** The exceptions of a run *)

Lemma bind_Throw_inv {A B : Type} (m : outcome A) (k : A -> outcome B) (what : string) :
  bind m k = Throw what -> m = Throw what \/ exists a, m = Ret a /\ k a = Throw what.
Proof.
  destruct m as [a | w | |]; simpl; intros H; try discriminate H.
  - right. eauto.
  - left. now injection H as ->.
Qed.

Lemma read_le_no_throw (s : ifstream) (n : nat) (what : string) :
  forall pos : Z, read_le s pos n <> Throw what.
Proof.
  induction n as [| n IH]; intros pos; cbn [read_le]; [discriminate |].
  destruct (byte_at s pos); [| discriminate].
  apply bind_no_throw; [apply IH | discriminate].
Qed.

Lemma read_sym_no_throw (s : ifstream) (pos : Z) (what : string) :
  read_sym s pos <> Throw what.
Proof.
  unfold read_sym.
  repeat (apply bind_no_throw; [apply read_le_no_throw | intros ?]).
  discriminate.
Qed.

Lemma get_name_no_throw (s : ifstream) (offset_inside_strtab strtab_offset : Z)
    (what : string) :
  get_name s offset_inside_strtab strtab_offset <> Throw what.
Proof.
  unfold get_name. destruct (_ =? _); [discriminate |].
  induction (skipn _ (file s)) as [| b bs IH]; cbn [read_c_string]; [discriminate |].
  destruct (Byte.eqb b x00); [discriminate |].
  apply bind_no_throw; [exact IH | discriminate].
Qed.

Lemma get_type_throws (x : Z) (what : string) :
  get_type x = Throw what -> what = "unknown type in symtab".
Proof.
  unfold get_type. cbv zeta.
  repeat match goal with
         | |- (if ?c then _ else _) = _ -> _ => destruct c; [discriminate |]
         end.
  intros H. now injection H.
Qed.

Lemma get_bind_throws (x : Z) (what : string) :
  get_bind x = Throw what -> what = "unknown bind in symtab".
Proof.
  unfold get_bind. cbv zeta.
  repeat match goal with
         | |- (if ?c then _ else _) = _ -> _ => destruct c; [discriminate |]
         end.
  intros H. now injection H.
Qed.

Lemma symtab_line_throws (s : ifstream) (strtab_offset id_in_section : Z) (sym : Elf32_Sym)
    (what : string) :
  symtab_line s strtab_offset id_in_section sym = Throw what ->
  what = "unknown type in symtab" \/ what = "unknown bind in symtab".
Proof.
  unfold symtab_line. intros H.
  apply bind_Throw_inv in H. destruct H as [H | (name & _ & H)];
    [now apply get_name_no_throw in H |].
  apply bind_Throw_inv in H. destruct H as [H | (bind & _ & H)];
    [right; now apply get_bind_throws in H |].
  apply bind_Throw_inv in H. destruct H as [H | (type & _ & H)];
    [left; now apply get_type_throws in H | now apply sprintf_no_throw in H].
Qed.

Lemma symtab_section_throws (s : ifstream) (strtab_offset : Z) (h : Elf32_section_header)
    (what : string) (count : nat) :
  forall id_in_section : Z,
    snd (symtab_section count s strtab_offset h id_in_section) = Throw what ->
    what = "unknown type in symtab" \/ what = "unknown bind in symtab".
Proof.
  induction count as [| count IH]; intros id; cbn [symtab_section]; [discriminate |].
  cbv zeta.
  destruct (bind (read_sym s _) _) as [line | w | |] eqn:E; cbn [fst snd];
    cbv [rethrow bind]; try discriminate.
  - apply IH.
  - intros H. injection H as <-.
    apply bind_Throw_inv in E. destruct E as [E | (sym & _ & E)];
      [now apply read_sym_no_throw in E | now apply symtab_line_throws in E].
Qed.

Lemma symtab_sections_throws (s : ifstream) (strtab_offset : Z) (what : string)
    (section_headers : list Elf32_section_header) :
  snd (symtab_sections s strtab_offset section_headers) = Throw what ->
  what = "unknown type in symtab" \/ what = "unknown bind in symtab".
Proof.
  induction section_headers as [| h rest IH]; cbn [symtab_sections]; [discriminate |].
  destruct (sh_type h =? SYMTAB_TYPE); [| exact IH].
  cbv zeta.
  destruct (snd (symtab_section (Z.to_nat (sh_size h / 16)) s strtab_offset h 0))
    as [[] | w | |] eqn:E; cbn [fst snd]; try (rewrite E; discriminate).
  - exact IH.
  - rewrite E. intros H. injection H as <-. now apply symtab_section_throws in E.
Qed.

Lemma parse_symtab_throws (s : ifstream) (section_headers : list Elf32_section_header)
    (what : string) :
  snd (parse_symtab s section_headers) = Throw what ->
  what = "unknown type in symtab" \/ what = "unknown bind in symtab".
Proof.
  unfold parse_symtab.
  destruct (nth_error section_headers (find_section section_headers STRTAB_TYPE))
    as [strtab |]; [| discriminate].
  rewrite symtab_header_text. cbv zeta. cbn [fst snd]. apply symtab_sections_throws.
Qed.

Lemma tags_section_no_throw (s : ifstream) (strtab_offset : Z) (h : Elf32_section_header)
    (what : string) (count : nat) :
  forall (id_in_section : Z) (tags : gmap Z string),
    tags_section count s strtab_offset h id_in_section tags <> Throw what.
Proof.
  induction count as [| count IH]; intros id tags; cbn [tags_section]; [discriminate |].
  apply bind_no_throw; [apply read_sym_no_throw | intros sym].
  apply bind_no_throw; [apply get_name_no_throw | intros name]. apply IH.
Qed.

Lemma tags_sections_no_throw (s : ifstream) (strtab_offset : Z) (what : string)
    (section_headers : list Elf32_section_header) :
  forall tags : gmap Z string,
    tags_sections s strtab_offset section_headers tags <> Throw what.
Proof.
  induction section_headers as [| h rest IH]; intros tags; cbn [tags_sections];
    [discriminate |].
  destruct (sh_type h =? SYMTAB_TYPE); [| apply IH].
  apply bind_no_throw; [apply tags_section_no_throw | intros tags'; apply IH].
Qed.

Lemma calc_tags_no_throw (s : ifstream) (section_headers : list Elf32_section_header)
    (what : string) :
  calc_tags s section_headers <> Throw what.
Proof.
  unfold calc_tags. destruct (nth_error _ _); [apply tags_sections_no_throw | discriminate].
Qed.

Lemma read_block_no_throw (s : ifstream) (pos n : Z) (what : string) :
  read_block s pos n <> Throw what.
Proof. unfold read_block. destruct (_ && _); discriminate. Qed.

Lemma read_header_no_throw (s : ifstream) (what : string) : read_header s <> Throw what.
Proof.
  unfold read_header. cbv zeta.
  apply bind_no_throw; [apply read_block_no_throw | intros ?].
  repeat (apply bind_no_throw; [apply read_le_no_throw | intros ?]).
  discriminate.
Qed.

Lemma read_section_headers_no_throw (s : ifstream) (what : string) (n : nat) :
  forall pos : Z, read_section_headers n s pos <> Throw what.
Proof.
  induction n as [| n IH]; intros pos; cbn [read_section_headers]; [discriminate |].
  apply bind_no_throw; [apply read_block_no_throw | intros ?].
  repeat (apply bind_no_throw; [apply read_le_no_throw | intros ?]).
  apply bind_no_throw; [apply IH | discriminate].
Qed.

Lemma parse_container_throws (s : ifstream) (what : string) :
  parse_container s = Throw what -> what = "this is not a ELF file".
Proof.
  unfold parse_container. intros H.
  apply bind_Throw_inv in H. destruct H as [H | (file_header & _ & H)];
    [now apply read_header_no_throw in H |].
  destruct (_ || _); [now injection H |].
  apply bind_Throw_inv in H. destruct H as [H | (section_headers & _ & H)];
    [now apply read_section_headers_no_throw in H |].
  apply bind_Throw_inv in H. destruct H as [H | (tags & _ & H)];
    [now apply calc_tags_no_throw in H | discriminate H].
Qed.

(** X25.  A run of [parse] throws four exceptions of its own and no
    other: the refusal of a file without the letters ELF, the unknown
    register of [jal], and the unknown type and the unknown bind of a
    symbol.  The exception of [print_cmd] for a wrong number of arguments
    is never thrown. *)
Theorem parse_throws (fuel : nat) (s : ifstream) (what : string) :
  snd (parse fuel s) = Some (Throw what) -> In what parser_exceptions.
Proof.
  unfold parse, parser_exceptions.
  destruct (parse_container s) as [[section_headers tags] | w | |] eqn:Hc; cbv zeta.
  - destruct (snd (parse_text fuel s section_headers tags)) as [[s' | w | |] |] eqn:Ht;
      cbn [snd]; cbv [rethrow bind]; try discriminate.
    + intros H. injection H as H. apply parse_symtab_throws in H.
      destruct H as [-> | ->]; cbn [In]; auto.
    + intros H. injection H as <-. unfold parse_text in Ht.
      destruct (nth_error _ _); [| discriminate Ht].
      apply parse_text_loop_throws in Ht. subst w. cbn [In]. auto.
  - cbn [snd]. cbv [rethrow bind]. intros H. injection H as <-.
    apply parse_container_throws in Hc. subst w. cbn [In]. auto.
  - cbn [snd]. cbv [rethrow bind]. discriminate.
  - cbn [snd]. cbv [rethrow bind]. discriminate.
Qed.

Lemma parse_throws_witness : In "this is not a ELF file" parser_exceptions.
Proof.
  apply (parse_throws 0 (bytes_stream (repeat x00 52)) "this is not a ELF file").
  vm_compute. reflexivity.
Defined.

(** ** The container *)

Lemma read_le_in_bounds (s : ifstream) (n : nat) :
  forall pos : Z,
    0 <= pos ->
    pos + Z.of_nat n <= Z.of_nat (length (file s)) ->
    exists v : Z, read_le s pos n = Ret v.
Proof.
  induction n as [| n IH]; intros pos Hpos Hlen; cbn [read_le]; [eauto |].
  unfold byte_at. destruct (Z.ltb_spec pos 0); [lia |].
  destruct (nth_error (file s) (Z.to_nat pos)) eqn:E;
    [| apply nth_error_None in E; lia].
  cbn [option_map]. destruct (IH (pos + 1)) as [v ->]; [lia | lia |].
  cbv [bind]. eauto.
Qed.

Lemma read_le_one (s : ifstream) (pos : Z) :
  read_le s pos 1
  = match byte_at s pos with Some b => Ret b | None => IoFailure end.
Proof.
  cbn [read_le]. destruct (byte_at s pos); [| reflexivity].
  cbv [bind]. now rewrite Z.shiftl_0_l, Z.lor_0_r.
Qed.

Lemma byte_value_inj (b b' : byte) :
  Z.of_N (Byte.to_N b) = Z.of_N (Byte.to_N b') -> b = b'.
Proof.
  intros H. apply N2Z.inj in H.
  pose proof (Byte.of_to_N b) as Hb. rewrite H, Byte.of_to_N in Hb. now injection Hb.
Qed.

(** X26.  A file that is shorter than the header of 52 bytes, or whose bytes 1
    to 3 are not the letters ELF, is refused before anything is written:
    the first with a failed read, the second with an exception. *)
Theorem parse_refuses (fuel : nat) (s : ifstream) :
  tellg s = 0 ->
  (length (file s) < 52)%nat \/ firstn 3 (skipn 1 (file s)) <> [x45; x4c; x46] ->
  parse fuel s
  = (EmptyString,
     Some (if (length (file s) <? 52)%nat then IoFailure
           else Throw "this is not a ELF file")).
Proof.
  intros Htell Hfile.
  destruct (Nat.ltb_spec (length (file s)) 52) as [Hshort | Hlong].
  - unfold parse, parse_container, read_header, read_block. rewrite Htell.
    replace ((0 <=? 0) && (0 + 52 <=? Z.of_nat (length (file s)))) with false
      by (symmetry; apply andb_false_iff; right; apply Z.leb_gt; lia).
    reflexivity.
  - destruct Hfile as [Hshort | Hmagic]; [lia |].
    assert (read_block s 0 52 = Ret tt) as Hblock.
    { unfold read_block.
      replace ((0 <=? 0) && (0 + 52 <=? Z.of_nat (length (file s)))) with true;
        [reflexivity |].
      symmetry. apply andb_true_iff. split; apply Z.leb_le; lia. }
    destruct (read_le_in_bounds s 4 32) as [shoff Hshoff]; [lia | lia |].
    destruct (read_le_in_bounds s 2 48) as [shnum Hshnum]; [lia | lia |].
    destruct s as [bytes pos]. cbn [file tellg] in *. subst pos.
    destruct bytes as [| b0 [| b1 [| b2 [| b3 rest]]]]; cbn [length] in Hlong; try lia.
    unfold parse, parse_container, read_header. cbv zeta. cbn [tellg].
    change (0 + 1) with 1. change (0 + 2) with 2. change (0 + 3) with 3.
    change (0 + 32) with 32. change (0 + 48) with 48.
    rewrite Hblock, !read_le_one, Hshoff, Hshnum.
    change (byte_at {| file := b0 :: b1 :: b2 :: b3 :: rest; tellg := 0 |} 1)
      with (Some (Z.of_N (Byte.to_N b1))).
    change (byte_at {| file := b0 :: b1 :: b2 :: b3 :: rest; tellg := 0 |} 2)
      with (Some (Z.of_N (Byte.to_N b2))).
    change (byte_at {| file := b0 :: b1 :: b2 :: b3 :: rest; tellg := 0 |} 3)
      with (Some (Z.of_N (Byte.to_N b3))).
    cbv [bind]. cbn [e_ident_1 e_ident_2 e_ident_3].
    destruct (Z.eqb_spec (Z.of_N (Byte.to_N b1)) 69) as [H1 | H1]; [| reflexivity].
    destruct (Z.eqb_spec (Z.of_N (Byte.to_N b2)) 76) as [H2 | H2]; [| reflexivity].
    destruct (Z.eqb_spec (Z.of_N (Byte.to_N b3)) 70) as [H3 | H3]; [| reflexivity].
    exfalso. apply Hmagic. cbn [skipn firstn].
    rewrite (byte_value_inj b1 x45 H1), (byte_value_inj b2 x4c H2),
      (byte_value_inj b3 x46 H3).
    reflexivity.
Qed.

Lemma parse_refuses_witness :
  parse 0 (bytes_stream (repeat x00 52))
  = (EmptyString,
     Some (if (length (file (bytes_stream (repeat x00 52))) <? 52)%nat then IoFailure
           else Throw "this is not a ELF file")).
Proof.
  apply (parse_refuses 0 (bytes_stream (repeat x00 52))).
  - reflexivity.
  - right. discriminate.
Defined.

(** X27.  A file with the letters ELF and no section header runs into the
    undefined indexing of the empty vector of headers, before anything is
    written. *)
Theorem parse_no_sections (fuel : nat) (s : ifstream) (file_header : ELF32_header) :
  read_header s = Ret file_header ->
  e_ident_1 file_header = 69 ->
  e_ident_2 file_header = 76 ->
  e_ident_3 file_header = 70 ->
  e_shnum file_header = 0 ->
  parse fuel s = (EmptyString, Some Undefined).
Proof.
  intros Hheader H1 H2 H3 Hshnum.
  unfold parse, parse_container. rewrite Hheader. cbv [bind].
  rewrite H1, H2, H3, Hshnum. reflexivity.
Qed.

Lemma parse_no_sections_witness :
  parse 0 (bytes_stream ([x7f; x45; x4c; x46] ++ repeat x00 48))
  = (EmptyString, Some Undefined).
Proof.
  apply (parse_no_sections 0 (bytes_stream ([x7f; x45; x4c; x46] ++ repeat x00 48))
           {| e_ident_1 := 69; e_ident_2 := 76; e_ident_3 := 70;
              e_shoff := 0; e_shnum := 0 |});
    reflexivity.
Defined.

Lemma parse_text_loop_file (tags : gmap Z string) (text_offset text_size : Z)
    (fuel : nat) :
  forall s s' : ifstream,
    snd (parse_text_loop fuel tags text_offset text_size s) = Some (Ret s') ->
    file s' = file s.
Proof.
  induction fuel as [| fuel IH]; intros s s'; cbn [parse_text_loop];
    destruct (current_adr text_offset s <? text_size); cbv zeta; cbn [snd];
    try discriminate; try (intros H; now injection H as <-).
  destruct (snd (iteration tags text_offset s)) as [s1 | w | |] eqn:Hit; cbn [snd];
    try discriminate.
  intros H. apply IH in H. apply iteration_advance in Hit. destruct Hit as [Hfile _].
  congruence.
Qed.

Lemma read_le_file (s s' : ifstream) (n : nat) :
  file s' = file s -> forall pos : Z, read_le s' pos n = read_le s pos n.
Proof.
  intros Hfile. induction n as [| n IH]; intros pos; cbn [read_le]; [reflexivity |].
  unfold byte_at. now rewrite Hfile, IH.
Qed.

(** The lines of the symbols depend on the stream through its file
    only. *)
Lemma symbol_line_file (s s' : ifstream) (strtab_offset : Z)
    (entry : Elf32_section_header * Z) (line : string) :
  file s' = file s ->
  symbol_line s' strtab_offset entry line -> symbol_line s strtab_offset entry line.
Proof.
  intros Hfile. destruct entry as [h id]. unfold symbol_line, read_sym, get_name.
  rewrite !(read_le_file s s' _ Hfile), Hfile. auto.
Qed.

(** X28.  A run of [parse] that comes to its end has written the title of
    the text, the lines of [parse_text], an empty line, the title of the
    symbol table, its header line and then, for every symbol of the
    sections of type [SYMTAB_TYPE] in their order, the line of the format
    applied to the index, value, size, type, bind, visibility, section
    index and name of that symbol. *)
Theorem parse_output (fuel : nat) (s : ifstream) :
  snd (parse fuel s) = Some (Ret tt) ->
  exists (section_headers : list Elf32_section_header) (tags : gmap Z string)
         (strtab : Elf32_section_header) (s' : ifstream) (body : list string),
    parse_container s = Ret (section_headers, tags)
    /\ nth_error section_headers (find_section section_headers STRTAB_TYPE) = Some strtab
    /\ snd (parse_text fuel s section_headers tags) = Some (Ret s')
    /\ Forall2 (symbol_line s (sh_offset strtab)) (symtab_entries section_headers) body
    /\ fst (parse fuel s)
       = (".text" +:+ LF +:+ output_of (fst (parse_text fuel s section_headers tags)))
         +:+ LF +:+ ".symtab" +:+ LF
         +:+ "Symbol Value              Size Type     Bind     Vis       Index Name" +:+ LF
         +:+ concat_strings body.
Proof.
  unfold parse.
  destruct (parse_container s) as [[section_headers tags] | w | |] eqn:Hc; cbv zeta;
    cbn [snd]; cbv [rethrow bind]; try discriminate.
  destruct (snd (parse_text fuel s section_headers tags)) as [[s' | w | |] |] eqn:Ht;
    cbn [fst snd]; try discriminate.
  intros H. injection H as H.
  assert (file s' = file s) as Hfile.
  { unfold parse_text in Ht. destruct (nth_error _ _); [| discriminate Ht].
    now apply parse_text_loop_file in Ht. }
  unfold parse_symtab in *.
  destruct (nth_error section_headers (find_section section_headers STRTAB_TYPE))
    as [strtab |] eqn:Hstrtab; [| discriminate H].
  rewrite symtab_header_text in *. cbv zeta in *. cbn [fst snd] in *.
  destruct (symtab_sections_lines s' (sh_offset strtab) section_headers) as [Hlines Hend].
  rewrite (Hend H), firstn_all in Hlines.
  exists section_headers, tags, strtab, s',
    (fst (symtab_sections s' (sh_offset strtab) section_headers)).
  split; [reflexivity |]. split; [exact Hstrtab |]. split; [exact Ht |].
  split; [| reflexivity].
  eapply Forall2_impl; [exact Hlines |].
  intros entry line. now apply symbol_line_file.
Qed.

Lemma parse_output_witness :
  exists (section_headers : list Elf32_section_header) (tags : gmap Z string)
         (strtab : Elf32_section_header) (s' : ifstream) (body : list string),
    parse_container (bytes_stream small_elf_bytes) = Ret (section_headers, tags)
    /\ nth_error section_headers (find_section section_headers STRTAB_TYPE) = Some strtab
    /\ snd (parse_text 16 (bytes_stream small_elf_bytes) section_headers tags)
       = Some (Ret s')
    /\ Forall2 (symbol_line (bytes_stream small_elf_bytes) (sh_offset strtab))
         (symtab_entries section_headers) body
    /\ fst (parse 16 (bytes_stream small_elf_bytes))
       = (".text" +:+ LF
          +:+ output_of (fst (parse_text 16 (bytes_stream small_elf_bytes)
                                section_headers tags)))
         +:+ LF +:+ ".symtab" +:+ LF
         +:+ "Symbol Value              Size Type     Bind     Vis       Index Name" +:+ LF
         +:+ concat_strings body.
Proof.
  apply (parse_output 16 (bytes_stream small_elf_bytes)).
  vm_compute. reflexivity.
Defined.
